(** * AudioBeat Visualizer: frame renderer and export orchestrator

    A shallow embedding of [src/components/visualizationRenderer.ts]
    (the drawing routines shared by the live preview and the export)
    and of the export logic of [src/App.tsx], with the time display,
    the sizing of the visualizer and the export settings dialog of
    [src/App.tsx] and the frame of the live preview
    ([src/components/Visualizer.tsx]), followed by the properties
    established about them.

    Conventions of the embedding.
    - A JavaScript [number] is an exact rational ([Q]); the arithmetic
      of the source is written with the same operators, without
      rounding.  Division is only meaningful for a non-zero divisor
      (the source guards or the statements assume it).
    - A [Uint8Array] is a [list Byte.byte].
    - The 2D context is a record holding the drawing state that
      [save]/[restore] manage, the current path, the stack of saved
      states and the display list painted so far.
    - Values of the host that the code reaches through globals
      ([Math.sin], [Math.PI], the wall clock) are fields of a [Host]
      record that every drawing routine receives. *)

From Stdlib Require Import QArith Qround Qminmax Lqa ZArith Lia.
From Stdlib.Strings Require Import Ascii Byte.
From stdpp Require Import base option list strings gmap sorting pretty.

Set Default Proof Using "Type".

(** ** JavaScript numbers *)

Module JS.

Local Open Scope Q_scope.

Definition Math_min (a b : Q) : Q := Qmin a b.
Definition Math_max (a b : Q) : Q := Qmax a b.
Definition Math_min3 (a b c : Q) : Q := Qmin (Qmin a b) c.

Definition Math_floor (x : Q) : Z := Qfloor x.

(** [Math.round] rounds half up: [floor (x + 0.5)]. *)
Definition Math_round (x : Q) : Z := Qfloor (x + (1 # 2)).

(** The [%] operator on numbers: the remainder has the sign of the
    dividend (truncated division). *)
Definition Qtrunc (x : Q) : Z := if Qle_bool 0 x then Qfloor x else Qceiling x.
Definition rem (x m : Q) : Q := x - m * inject_Z (Qtrunc (x / m)).

Definition gtb (a b : Q) : bool := negb (Qle_bool a b).
Definition ltb (a b : Q) : bool := negb (Qle_bool b a).
Definition geb (a b : Q) : bool := Qle_bool b a.

Definition of_byte (b : Byte.byte) : Q := inject_Z (Z.of_N (Byte.to_N b)).
Definition of_nat (n : nat) : Q := inject_Z (Z.of_nat n).

End JS.

(** ** The host environment *)

Record Host := {
  Math_sin : Q -> Q;
  Math_PI : Q;
  (** the wall clock, [performance.now()] *)
  performance_now : Q;
}.

(** ** The rendering surface *)

Module Canvas.

Local Open Scope Q_scope.

Inductive Xform :=
| Translate (x y : Q)
| Rotate (angle : Q).

Inductive Segment :=
| MoveTo (x y : Q)
| LineTo (x y : Q)
| ArcTo (x1 y1 x2 y2 radius : Q)
| Arc (x y radius startAngle endAngle : Q) (counterclockwise : bool)
| ClosePath.

(** A path keeps, with each segment, the transform under which it
    was added. *)
Definition Path := list (list Xform * Segment).

Inductive Css :=
| Literal (s : string)
| Hsla (hue : Q) (saturation lightness : Z) (alpha : Q).

Record LinearGradient := {
  gx0 : Q; gy0 : Q; gx1 : Q; gy1 : Q;
  stops : list (Q * Css);
}.

Inductive Style :=
| Color (c : Css)
| Gradient (g : LinearGradient).

Record Image := {
  naturalWidth : Q;
  naturalHeight : Q;
  pixels : nat;
}.

(** The drawing state, as saved by [save] and brought back by
    [restore].  The current path is not part of it. *)
Record DrawState := {
  fillStyle : Style;
  strokeStyle : Css;
  lineWidth : Q;
  globalAlpha : Q;
  transform : list Xform;
  clip : list Path;
}.

Inductive Shape :=
| Rect (x y w h : Q)
| Filled (p : Path)
| Stroked (p : Path)
| Blit (img : Image) (dx dy dWidth dHeight : Q).

(** One entry of the display list: what was painted and the drawing
    state it was painted under. *)
Definition Painted : Type := Shape * DrawState.

Record Ctx := {
  state : DrawState;
  path : Path;
  stack : list DrawState;
  surface : list Painted;
}.

Definition initialState : DrawState := {|
  fillStyle := Color (Literal "#000000");
  strokeStyle := Literal "#000000";
  lineWidth := 1;
  globalAlpha := 1;
  transform := [];
  clip := [];
|}.

Definition blank : Ctx :=
  {| state := initialState; path := []; stack := []; surface := [] |}.

(** *** Outcomes and the drawing monad *)

Inductive Outcome (A : Type) :=
| Returned (a : A) (c : Ctx)
| Threw (e : string) (c : Ctx).
Arguments Returned {A} a c.
Arguments Threw {A} e c.

Definition M (A : Type) : Type := Host -> Ctx -> Outcome A.

Definition ret {A} (a : A) : M A := fun _ c => Returned a c.

Definition bind {A B} (m : M A) (k : A -> M B) : M B :=
  fun h c =>
    match m h c with
    | Returned a c' => k a h c'
    | Threw e c' => Threw e c'
    end.

Definition throw {A} (e : string) : M A := fun _ c => Threw e c.

Definition host : M Host := fun h c => Returned h c.

Definition update (f : Ctx -> Ctx) : M unit := fun _ c => Returned tt (f c).

Definition finalCtx {A} (o : Outcome A) : Ctx :=
  match o with Returned _ c => c | Threw _ c => c end.

Definition with_state (f : DrawState -> DrawState) (c : Ctx) : Ctx :=
  {| state := f (state c); path := path c; stack := stack c; surface := surface c |}.

Definition paint (s : Shape) (c : Ctx) : Ctx :=
  {| state := state c; path := path c; stack := stack c;
     surface := surface c ++ [(s, state c)] |}.

Definition add_segment (s : Segment) (c : Ctx) : Ctx :=
  {| state := state c; path := path c ++ [(transform (state c), s)];
     stack := stack c; surface := surface c |}.

(** *** The context's methods and properties used by the renderer *)

Definition save : M unit :=
  update (fun c => {| state := state c; path := path c;
                      stack := state c :: stack c; surface := surface c |}).

(** [restore] with an empty stack does nothing. *)
Definition restore : M unit :=
  update (fun c =>
    match stack c with
    | [] => c
    | s :: rest => {| state := s; path := path c; stack := rest; surface := surface c |}
    end).

Definition set_fillStyle (s : Style) : M unit :=
  update (with_state (fun d =>
    {| fillStyle := s; strokeStyle := strokeStyle d; lineWidth := lineWidth d;
       globalAlpha := globalAlpha d; transform := transform d; clip := clip d |})).

Definition set_strokeStyle (s : Css) : M unit :=
  update (with_state (fun d =>
    {| fillStyle := fillStyle d; strokeStyle := s; lineWidth := lineWidth d;
       globalAlpha := globalAlpha d; transform := transform d; clip := clip d |})).

Definition set_lineWidth (w : Q) : M unit :=
  update (with_state (fun d =>
    {| fillStyle := fillStyle d; strokeStyle := strokeStyle d; lineWidth := w;
       globalAlpha := globalAlpha d; transform := transform d; clip := clip d |})).

Definition set_globalAlpha (a : Q) : M unit :=
  update (with_state (fun d =>
    {| fillStyle := fillStyle d; strokeStyle := strokeStyle d; lineWidth := lineWidth d;
       globalAlpha := a; transform := transform d; clip := clip d |})).

Definition apply_xform (x : Xform) : M unit :=
  update (with_state (fun d =>
    {| fillStyle := fillStyle d; strokeStyle := strokeStyle d; lineWidth := lineWidth d;
       globalAlpha := globalAlpha d; transform := transform d ++ [x]; clip := clip d |})).

Definition translate (x y : Q) : M unit := apply_xform (Translate x y).
Definition rotate (angle : Q) : M unit := apply_xform (Rotate angle).

Definition beginPath : M unit :=
  update (fun c => {| state := state c; path := []; stack := stack c; surface := surface c |}).
Definition moveTo (x y : Q) : M unit := update (add_segment (MoveTo x y)).
Definition lineTo (x y : Q) : M unit := update (add_segment (LineTo x y)).
Definition closePath : M unit := update (add_segment ClosePath).

(** [arcTo] and [arc] raise [IndexSizeError] on a negative radius. *)
Definition arcTo (x1 y1 x2 y2 radius : Q) : M unit :=
  if JS.ltb radius 0 then throw "IndexSizeError"
  else update (add_segment (ArcTo x1 y1 x2 y2 radius)).
Definition arc (x y radius startAngle endAngle : Q) (ccw : bool) : M unit :=
  if JS.ltb radius 0 then throw "IndexSizeError"
  else update (add_segment (Arc x y radius startAngle endAngle ccw)).

(** [clip] intersects the clipping region with the current path. *)
Definition clip_path : M unit :=
  update (fun c => with_state (fun d =>
    {| fillStyle := fillStyle d; strokeStyle := strokeStyle d; lineWidth := lineWidth d;
       globalAlpha := globalAlpha d; transform := transform d;
       clip := clip d ++ [path c] |}) c).

Definition fillRect (x y w h : Q) : M unit := update (paint (Rect x y w h)).
Definition fill : M unit := update (fun c => paint (Filled (path c)) c).
Definition stroke : M unit := update (fun c => paint (Stroked (path c)) c).
Definition drawImage (img : Image) (dx dy dWidth dHeight : Q) : M unit :=
  update (paint (Blit img dx dy dWidth dHeight)).

End Canvas.

(** ** Types of the application ([src/types.ts]) *)

Module Types.

Import Canvas.
Local Open Scope Q_scope.

Inductive VisualizationType := LINEAR | CIRCULAR.
Inductive LinearGraphStyle := bars | waveform.
Inductive ColorTheme := sky | sunset | forest | neon_dreams.

Record ColorPaletteDefinition := {
  name : string;
  barGradient : list Css;
  waveformStroke : Css;
  circularFill : Q -> Q -> Css;
  background : Css;
  text : Css;
}.

Definition PALETTES (theme : ColorTheme) : ColorPaletteDefinition :=
  match theme with
  | sky => {|
      name := "Sky";
      barGradient := [Literal "rgb(14, 165, 233)"; Literal "rgb(56, 189, 248)";
                      Literal "rgb(125, 211, 252)"];
      waveformStroke := Literal "rgb(56, 189, 248)";
      circularFill := fun hue alpha => Hsla (JS.rem (hue * 300 + 180) 360) 90 65 alpha;
      background := Literal "rgba(15, 23, 42, 1)";
      text := Literal "rgba(203, 213, 225, 0.7)" |}
  | sunset => {|
      name := "Sunset";
      barGradient := [Literal "#F97316"; Literal "#FDBA74"; Literal "#FECACA"];
      waveformStroke := Literal "#F97316";
      circularFill := fun hue alpha => Hsla (JS.rem (hue * 40 + 10) 360) 100 60 alpha;
      background := Literal "rgba(30, 20, 10, 1)";
      text := Literal "rgba(253, 186, 116, 0.8)" |}
  | forest => {|
      name := "Forest";
      barGradient := [Literal "#16A34A"; Literal "#4ADE80"; Literal "#BBF7D0"];
      waveformStroke := Literal "#16A34A";
      circularFill := fun hue alpha => Hsla (JS.rem (hue * 60 + 90) 360) 70 50 alpha;
      background := Literal "rgba(10, 25, 15, 1)";
      text := Literal "rgba(134, 239, 172, 0.8)" |}
  | neon_dreams => {|
      name := "Neon Dreams";
      barGradient := [Literal "#EC4899"; Literal "#F472B6"; Literal "#F9A8D4"];
      waveformStroke := Literal "#DB2777";
      circularFill := fun hue alpha => Hsla (JS.rem (hue * 360 + 280) 360) 100 65 alpha;
      background := Literal "rgba(20, 5, 30, 1)";
      text := Literal "rgba(240, 171, 252, 0.8)" |}
  end.

End Types.

(** ** The frame renderer ([visualizationRenderer.ts]) *)

Module Renderer.

Import Canvas Types.
Local Open Scope Q_scope.

#[export] Instance M_ret : MRet M := @Canvas.ret.
#[export] Instance M_bind : MBind M := fun A B k m => Canvas.bind m k.

(** [for (let i = 0; i < n; i++) body], with the variables the body
    updates threaded as [s]. *)
Fixpoint for_ {S : Type} (n i : nat) (body : nat -> S -> M S) (s : S) : M S :=
  match n with
  | O => mret s
  | Datatypes.S n' => s' ← body i s; for_ n' (Datatypes.S i) body s'
  end.

Module Overlay.
Record props := {
  visualizationType : VisualizationType;
  imageScale : Q;
  pulseIntensity : Q;
  imageCornerRadius : Q;
  imageSwingIntensity : Q;
  enablePulse : bool;
  enableSwing : bool;
  currentTime : Q;
}.
End Overlay.

Definition baseScaleFactor (p : Overlay.props) : Q :=
  match Overlay.visualizationType p with CIRCULAR => 3.0 | LINEAR => 2.5 end.

Definition maxImgWidth (canvasW : Q) (p : Overlay.props) : Q :=
  canvasW / baseScaleFactor p * Overlay.imageScale p.

Definition maxImgHeight (canvasH : Q) (p : Overlay.props) : Q :=
  canvasH / baseScaleFactor p * Overlay.imageScale p.

Definition imgScaleRatio (img : Image) (canvasW canvasH : Q) (p : Overlay.props) : Q :=
  JS.Math_min3 (maxImgWidth canvasW p / naturalWidth img)
               (maxImgHeight canvasH p / naturalHeight img)
               (1 * Overlay.imageScale p).

Definition sum_bytes (audioData : list Byte.byte) : Q :=
  foldl (fun sum b => sum + JS.of_byte b) 0 audioData.

Definition currentBeatScale (audioData : option (list Byte.byte))
    (p : Overlay.props) (react : bool) : Q :=
  match audioData with
  | Some data =>
      if react && Overlay.enablePulse p && bool_decide (0 < length data)%nat
         && JS.gtb (Overlay.pulseIntensity p) 0
      then
        let average := sum_bytes data / JS.of_nat (length data) in
        let basePulseEffect := 0.2 in
        1 + (average / 255) * (basePulseEffect * Overlay.pulseIntensity p)
      else 1.0
  | None => 1.0
  end.

(** The width and height handed to [drawImage] (lines 74-90 of the
    renderer). *)
Definition displayedSize (img : Image) (audioData : option (list Byte.byte))
    (canvasW canvasH : Q) (p : Overlay.props) (react : bool) : Q * Q :=
  let dWidth := naturalWidth img * imgScaleRatio img canvasW canvasH p in
  let dHeight := naturalHeight img * imgScaleRatio img canvasW canvasH p in
  (dWidth * currentBeatScale audioData p react,
   dHeight * currentBeatScale audioData p react).

Definition drawImageCore (img : Image) (audioData : option (list Byte.byte))
    (canvasW canvasH : Q) (p : Overlay.props) (react : bool) : M unit :=
  let '(dWidth, dHeight) := displayedSize img audioData canvasW canvasH p react in
  let dxInitial := (canvasW - dWidth) / 2 in
  let dyInitial := (canvasH - dHeight) / 2 in
  save;;
  '(dx, dy) ←
    (if react && Overlay.enableSwing p && JS.gtb (Overlay.imageSwingIntensity p) 0
     then
       h ← host;
       let swingSpeedFactor := 0.5 in
       let currentSwingAngleRad :=
         Math_sin h (Overlay.currentTime p * swingSpeedFactor)
         * (Overlay.imageSwingIntensity p * Math_PI h / 180) in
       translate (canvasW / 2) (canvasH / 2);;
       rotate currentSwingAngleRad;;
       mret ((- dWidth) / 2, (- dHeight) / 2)
     else mret (dxInitial, dyInitial));
  set_globalAlpha 0.9;;
  (if JS.gtb (Overlay.imageCornerRadius p) 0 && JS.gtb dWidth 0 && JS.gtb dHeight 0
   then
     let cornerRadiusVal :=
       JS.Math_min dWidth dHeight / 2 * (JS.Math_min (Overlay.imageCornerRadius p) 50 / 50) in
     beginPath;;
     moveTo (dx + cornerRadiusVal) dy;;
     arcTo (dx + dWidth) dy (dx + dWidth) (dy + dHeight) cornerRadiusVal;;
     arcTo (dx + dWidth) (dy + dHeight) dx (dy + dHeight) cornerRadiusVal;;
     arcTo dx (dy + dHeight) dx dy cornerRadiusVal;;
     arcTo dx dy (dx + dWidth) dy cornerRadiusVal;;
     closePath;;
     clip_path
   else mret tt);;
  drawImage img dx dy dWidth dHeight;;
  restore.

(** [addColorStop] raises [SyntaxError] on a color that does not
    parse, which is what an index outside [barGradient] gives. *)
Definition colorStop (colors : list Css) (i : nat) : M Css :=
  match colors !! i with
  | Some c => mret c
  | None => throw "SyntaxError"
  end.

(** Reading a typed array outside its bounds gives [undefined], the
    bar height is then [NaN] and [createLinearGradient] raises
    [TypeError] on a non-finite argument. *)
Definition drawLinearBarsCore (audioData : list Byte.byte) (bufferLen : nat)
    (canvasW canvasH : Q) (palette : ColorPaletteDefinition)
    (visualizerDetailScale : Q) : M unit :=
  let spacing := JS.Math_max 1 (canvasW * 0.003) in
  let numBarsToDisplay := JS.Math_floor (JS.of_nat bufferLen * 0.75) in
  let effectiveNumBars := Z.max 1 numBarsToDisplay in
  let barWidth :=
    (canvasW - (inject_Z effectiveNumBars - 1) * spacing) / inject_Z effectiveNumBars in
  for_ (Z.to_nat effectiveNumBars) 0 (fun i x =>
    match audioData !! i with
    | None => throw "TypeError"
    | Some b =>
        let barHeightPercentage := JS.of_byte b / 255 in
        let barHeight := barHeightPercentage * canvasH * 0.9 * visualizerDetailScale in
        c0 ← colorStop (barGradient palette) 0;
        c1 ← colorStop (barGradient palette) 1;
        c2 ← colorStop (barGradient palette) 2;
        set_fillStyle (Gradient {|
          gx0 := x; gy0 := canvasH; gx1 := x; gy1 := canvasH - barHeight;
          stops := [(0, c0); (0.6, c1); (1, c2)] |});;
        set_globalAlpha (JS.Math_max 0.2 barHeightPercentage);;
        fillRect x (canvasH - barHeight) (JS.Math_max 1 barWidth) barHeight;;
        set_globalAlpha 1.0;;
        mret (x + barWidth + spacing)
    end) 0;;
  mret tt.

Definition drawLinearWaveformCore (audioData : list Byte.byte)
    (canvasW canvasH : Q) (palette : ColorPaletteDefinition)
    (visualizerDetailScale : Q) : M unit :=
  set_lineWidth (JS.Math_max 1 (JS.Math_min 3 (canvasW * 0.004)) * visualizerDetailScale);;
  set_strokeStyle (waveformStroke palette);;
  beginPath;;
  let sliceWidth := canvasW / JS.of_nat (length audioData) in
  for_ (length audioData) 0 (fun i x =>
    match audioData !! i with
    | None => mret x
    | Some b =>
        let v := JS.of_byte b / 128.0 in
        let y := (v * canvasH / 2 - canvasH / 2) * visualizerDetailScale + canvasH / 2 in
        (if bool_decide (i = 0%nat) then moveTo x y else lineTo x y);;
        mret (x + sliceWidth)
    end) 0;;
  lineTo canvasW (canvasH / 2);;
  stroke.

Definition innerRadius : Q := 2.

Definition effectiveMaxOuterRadius (canvasW canvasH visualizerDetailScale : Q) : Q :=
  (JS.Math_min canvasW canvasH / 2) * 0.9 * visualizerDetailScale.

(** The path or rectangle of one bar, drawn in the bar's own frame
    (lines 225-241 of the renderer). *)
Definition drawBarShape (barLength barVisualThickness : Q) : M unit :=
  let capRadius := barVisualThickness / 2 in
  if JS.gtb barLength (capRadius * 0.5) && JS.gtb capRadius 0 then
    h ← host;
    beginPath;;
    moveTo (- capRadius) innerRadius;;
    lineTo (- capRadius) (innerRadius + barLength - capRadius);;
    (if JS.gtb barLength capRadius
     then arc 0 (innerRadius + barLength - capRadius) capRadius (Math_PI h) 0 false
     else lineTo capRadius (innerRadius + barLength - capRadius));;
    lineTo capRadius innerRadius;;
    closePath;;
    fill
  else if JS.gtb barLength 0 then
    fillRect ((- barVisualThickness) / 2) innerRadius barVisualThickness barLength
  else mret tt.

(** The length of the bar of magnitude [b]; a bar shorter than one
    pixel is skipped ([continue]). *)
Definition barLengthOf (b : Byte.byte) (maxOuter : Q) : Q :=
  (JS.of_byte b / 255) * (maxOuter - innerRadius).

Definition isDrawn (b : Byte.byte) (maxOuter : Q) : bool :=
  negb (JS.ltb (barLengthOf b maxOuter) 1).

(** One iteration of the loop of [drawCircularBarsCore].  An index
    outside the array reads [undefined]: every comparison on the
    resulting [NaN] is false, the bar draws nothing, and the state
    saved is restored, so that iteration leaves the context as it
    was. *)
Definition drawCircularBar (audioData : list Byte.byte) (numBarsToDisplay : Z)
    (centerX centerY maxOuter barAngularWidth barVisualThickness : Q)
    (palette : ColorPaletteDefinition) (i : nat) : M unit :=
  match audioData !! i with
  | None => mret tt
  | Some b =>
      let barHeightPercentage := JS.of_byte b / 255 in
      let barLength := barHeightPercentage * (maxOuter - innerRadius) in
      if JS.ltb barLength 1 then mret tt
      else
        h ← host;
        let angle := JS.of_nat i * barAngularWidth in
        save;;
        translate centerX centerY;;
        rotate (angle - Math_PI h / 2);;
        let alpha := JS.Math_max 0.2 barHeightPercentage in
        set_fillStyle
          (Color (circularFill palette (JS.of_nat i / inject_Z numBarsToDisplay) alpha));;
        drawBarShape barLength barVisualThickness;;
        restore
  end.

Definition barVisualThicknessOf (h : Host) (maxOuter : Q) (numBarsToDisplay : Z) : Q :=
  let barDisplayWidthFactor := 0.85 in
  JS.Math_max 1 ((Math_PI h * 2 * (maxOuter * 0.5)) / inject_Z numBarsToDisplay
                 * barDisplayWidthFactor).

Definition drawCircularBarsCore (audioData : list Byte.byte) (bufferLen : nat)
    (canvasW canvasH : Q) (palette : ColorPaletteDefinition)
    (visualizerDetailScale : Q) : M unit :=
  h ← host;
  let centerX := canvasW / 2 in
  let centerY := canvasH / 2 in
  let maxOuter := effectiveMaxOuterRadius canvasW canvasH visualizerDetailScale in
  let numBarsToDisplay := JS.Math_floor (JS.of_nat bufferLen * 0.7) in
  let barAngularWidth := (Math_PI h * 2) / inject_Z numBarsToDisplay in
  let barVisualThickness := barVisualThicknessOf h maxOuter numBarsToDisplay in
  for_ (Z.to_nat numBarsToDisplay) 0 (fun i (_ : unit) =>
    drawCircularBar audioData numBarsToDisplay centerX centerY maxOuter
                    barAngularWidth barVisualThickness palette i) tt.

Module Frame.
Record props := {
  visualizationType : VisualizationType;
  linearGraphStyle : LinearGraphStyle;
  colorTheme : ColorTheme;
  centerImage : option Image;
  imageScale : Q;
  pulseIntensity : Q;
  imageCornerRadius : Q;
  imageSwingIntensity : Q;
  enablePulse : bool;
  enableSwing : bool;
  visualizerDetailScale : Q;
  width : Q;
  height : Q;
  currentTime : Q;
}.
End Frame.

Definition overlayProps (p : Frame.props) : Overlay.props := {|
  Overlay.visualizationType := Frame.visualizationType p;
  Overlay.imageScale := Frame.imageScale p;
  Overlay.pulseIntensity := Frame.pulseIntensity p;
  Overlay.imageCornerRadius := Frame.imageCornerRadius p;
  Overlay.imageSwingIntensity := Frame.imageSwingIntensity p;
  Overlay.enablePulse := Frame.enablePulse p;
  Overlay.enableSwing := Frame.enableSwing p;
  Overlay.currentTime := Frame.currentTime p;
|}.

Definition renderSingleFrame (frequencyData timeDomainData : list Byte.byte)
    (p : Frame.props) : M unit :=
  let currentPalette := PALETTES (Frame.colorTheme p) in
  set_fillStyle (Color (background currentPalette));;
  fillRect 0 0 (Frame.width p) (Frame.height p);;
  match Frame.visualizationType p with
  | LINEAR =>
      match Frame.linearGraphStyle p with
      | bars =>
          drawLinearBarsCore frequencyData (length frequencyData)
            (Frame.width p) (Frame.height p) currentPalette (Frame.visualizerDetailScale p)
      | waveform =>
          drawLinearWaveformCore timeDomainData
            (Frame.width p) (Frame.height p) currentPalette (Frame.visualizerDetailScale p)
      end
  | CIRCULAR =>
      drawCircularBarsCore frequencyData (length frequencyData)
        (Frame.width p) (Frame.height p) currentPalette (Frame.visualizerDetailScale p)
  end;;
  match Frame.centerImage p with
  | Some img =>
      drawImageCore img (Some frequencyData) (Frame.width p) (Frame.height p)
        (overlayProps p) true
  | None => mret tt
  end.

End Renderer.

(** ** The export orchestrator ([App.tsx], "EXPORT VIDEO LOGIC") *)

Module Orchestrator.

Import Types.
Local Open Scope Q_scope.

Definition Blob : Type := list Byte.byte.

Record File := { fileName : string; contents : Blob }.

(** A template literal: the literal parts and the interpolated
    values, in order. *)
Inductive Piece :=
| Str (s : string)
| Num (q : Q)
| Int (z : Z).

Definition Message : Type := list Piece.

Definition text (s : string) : Message := [Str s].

(** [s.split(c)[0]] *)
Fixpoint split_head (c : Ascii.ascii) (s : string) : string :=
  match s with
  | EmptyString => EmptyString
  | String a rest => if Ascii.eqb a c then EmptyString else String a (split_head c rest)
  end.

Inductive ExportType := webm | mp4.

#[export] Instance ExportType_eq_dec : EqDecision ExportType.
Proof. solve_decision. Defined.

Definition upper (t : ExportType) : string :=
  match t with webm => "WEBM" | mp4 => "MP4" end.

Record ExportSettings := {
  resolution : string;
  fps : Z;
  exportType : option ExportType;
  targetWidth : Q;
  targetHeight : Q;
}.

(** The initial value given to [useState]. *)
Definition initialExportSettings : ExportSettings := {|
  resolution := "1920x1080";
  fps := 60;
  exportType := None;
  targetWidth := 1920;
  targetHeight := 1080;
|}.

(** *** React state

    [Config] gathers the state the export only reads; [UI] the state
    it writes. *)

Record Config := {
  audioFile : option File;
  isFFmpegLoaded : bool;
  exportSettings : ExportSettings;
  visualizationType : VisualizationType;
  linearGraphStyle : LinearGraphStyle;
  colorTheme : ColorTheme;
  loadedCenterImage : option Canvas.Image;
  imageScale : Q;
  pulseIntensity : Q;
  imageCornerRadius : Q;
  imageSwingIntensity : Q;
  enablePulse : bool;
  enableSwing : bool;
  visualizerDetailScale : Q;
}.

Record UI := {
  isExporting : bool;
  exportProgress : Z;
  exportStatusMessage : Message;
  error : option Message;
  currentExportFrame : Z;
  totalExportFrames : Z;
}.

(** What a function created during one render sees of the React
    state: the values of that render, whatever is set afterwards. *)
Record Snapshot := { seen_ui : UI; seen_config : Config }.

(** *** Collaborators *)

Inductive RecordingState := inactive | recording.

#[export] Instance RecordingState_eq_dec : EqDecision RecordingState.
Proof. solve_decision. Defined.

(** A [MediaRecorder].  [startQueued] and [stopQueued] say that the
    recorder still has to fire its [start], respectively [stop],
    event. *)
Record MediaRecorder := {
  rstate : RecordingState;
  mimeType : string;
  videoBitsPerSecond : Z;
  onstart : bool;
  onstop : bool;
  ondataavailable : bool;
  onerror : bool;
  startQueued : bool;
  stopQueued : bool;
}.

(** The detached [<audio>] element of the export. *)
Record AudioElement := {
  src : nat;
  audioTime : Q;
  loading : bool;
  onloadedmetadata : bool;
  audio_onerror : bool;
}.

Inductive AudioContextState := suspended | running | closed.

#[export] Instance AudioContextState_eq_dec : EqDecision AudioContextState.
Proof. solve_decision. Defined.

Record Download := { download : Message; href : Blob }.

(** The variables shared by the closures of one export: the
    arguments of [handleExportWebM]/[handleExportMP4], the audio
    context built by the setup, the snapshot of the render that
    started the export, and the local [audioFullDuration] of
    [startExportRenderLoop]. *)
Record Session := {
  seen : Snapshot;
  kind : ExportType;
  exportWidth : Q;
  exportHeight : Q;
  exportFPS : Z;
  exportAudioContext : nat;
  audioFullDuration : Q;
}.

Record Refs := {
  exportAudioRef : option AudioElement;
  exportAnalyserNodeRef : bool;
  exportRenderCanvasRef : option (Q * Q);
  exportAnimationRequestRef : option nat;
  mediaRecorderRef : bool;
  recordedChunksRef : list Blob;
}.

Record World := {
  recorder : option MediaRecorder;
  audioContexts : gmap nat AudioContextState;
  objectURLs : gset nat;
  pendingFrames : list nat;
  playPending : bool;
  ffmpeg_loaded : bool;
  ffmpegFS : gmap string Blob;
  downloads : list Download;
  nextId : nat;
  session : option Session;
  renderCtx : Canvas.Ctx;
}.

(** The whole application state.  [cleanupCalls] counts the calls of
    [cleanupExportResources]; [progressLog] lists the values given to
    [setExportProgress] since the export started, oldest first. *)
Record State := {
  ui : UI;
  config : Config;
  refs : Refs;
  world : World;
  cleanupCalls : nat;
  progressLog : list Z;
}.

Definition snapshot (s : State) : Snapshot :=
  {| seen_ui := ui s; seen_config := config s |}.

(** *** State updates *)

Definition with_ui (f : UI -> UI) (s : State) : State :=
  {| ui := f (ui s); config := config s; refs := refs s; world := world s;
     cleanupCalls := cleanupCalls s; progressLog := progressLog s |}.

Definition with_refs (f : Refs -> Refs) (s : State) : State :=
  {| ui := ui s; config := config s; refs := f (refs s); world := world s;
     cleanupCalls := cleanupCalls s; progressLog := progressLog s |}.

Definition with_world (f : World -> World) (s : State) : State :=
  {| ui := ui s; config := config s; refs := refs s; world := f (world s);
     cleanupCalls := cleanupCalls s; progressLog := progressLog s |}.

Definition setIsExporting (b : bool) : State -> State :=
  with_ui (fun u =>
    {| isExporting := b; exportProgress := exportProgress u;
       exportStatusMessage := exportStatusMessage u; error := error u;
       currentExportFrame := currentExportFrame u;
       totalExportFrames := totalExportFrames u |}).

Definition setExportProgress (v : Z) (s : State) : State :=
  {| ui := {| isExporting := isExporting (ui s); exportProgress := v;
              exportStatusMessage := exportStatusMessage (ui s); error := error (ui s);
              currentExportFrame := currentExportFrame (ui s);
              totalExportFrames := totalExportFrames (ui s) |};
     config := config s; refs := refs s; world := world s;
     cleanupCalls := cleanupCalls s; progressLog := progressLog s ++ [v] |}.

Definition setExportStatusMessage (m : Message) : State -> State :=
  with_ui (fun u =>
    {| isExporting := isExporting u; exportProgress := exportProgress u;
       exportStatusMessage := m; error := error u;
       currentExportFrame := currentExportFrame u;
       totalExportFrames := totalExportFrames u |}).

Definition setError (e : option Message) : State -> State :=
  with_ui (fun u =>
    {| isExporting := isExporting u; exportProgress := exportProgress u;
       exportStatusMessage := exportStatusMessage u; error := e;
       currentExportFrame := currentExportFrame u;
       totalExportFrames := totalExportFrames u |}).

Definition setCurrentExportFrame (n : Z) : State -> State :=
  with_ui (fun u =>
    {| isExporting := isExporting u; exportProgress := exportProgress u;
       exportStatusMessage := exportStatusMessage u; error := error u;
       currentExportFrame := n; totalExportFrames := totalExportFrames u |}).

Definition setTotalExportFrames (n : Z) : State -> State :=
  with_ui (fun u =>
    {| isExporting := isExporting u; exportProgress := exportProgress u;
       exportStatusMessage := exportStatusMessage u; error := error u;
       currentExportFrame := currentExportFrame u; totalExportFrames := n |}).

Definition set_exportAudioRef (a : option AudioElement) : State -> State :=
  with_refs (fun r =>
    {| exportAudioRef := a; exportAnalyserNodeRef := exportAnalyserNodeRef r;
       exportRenderCanvasRef := exportRenderCanvasRef r;
       exportAnimationRequestRef := exportAnimationRequestRef r;
       mediaRecorderRef := mediaRecorderRef r; recordedChunksRef := recordedChunksRef r |}).

Definition set_exportAnalyserNodeRef (a : bool) : State -> State :=
  with_refs (fun r =>
    {| exportAudioRef := exportAudioRef r; exportAnalyserNodeRef := a;
       exportRenderCanvasRef := exportRenderCanvasRef r;
       exportAnimationRequestRef := exportAnimationRequestRef r;
       mediaRecorderRef := mediaRecorderRef r; recordedChunksRef := recordedChunksRef r |}).

Definition set_exportRenderCanvasRef (c : option (Q * Q)) : State -> State :=
  with_refs (fun r =>
    {| exportAudioRef := exportAudioRef r; exportAnalyserNodeRef := exportAnalyserNodeRef r;
       exportRenderCanvasRef := c;
       exportAnimationRequestRef := exportAnimationRequestRef r;
       mediaRecorderRef := mediaRecorderRef r; recordedChunksRef := recordedChunksRef r |}).

Definition set_exportAnimationRequestRef (i : option nat) : State -> State :=
  with_refs (fun r =>
    {| exportAudioRef := exportAudioRef r; exportAnalyserNodeRef := exportAnalyserNodeRef r;
       exportRenderCanvasRef := exportRenderCanvasRef r;
       exportAnimationRequestRef := i;
       mediaRecorderRef := mediaRecorderRef r; recordedChunksRef := recordedChunksRef r |}).

Definition set_mediaRecorderRef (m : bool) : State -> State :=
  with_refs (fun r =>
    {| exportAudioRef := exportAudioRef r; exportAnalyserNodeRef := exportAnalyserNodeRef r;
       exportRenderCanvasRef := exportRenderCanvasRef r;
       exportAnimationRequestRef := exportAnimationRequestRef r;
       mediaRecorderRef := m; recordedChunksRef := recordedChunksRef r |}).

Definition set_recordedChunksRef (l : list Blob) : State -> State :=
  with_refs (fun r =>
    {| exportAudioRef := exportAudioRef r; exportAnalyserNodeRef := exportAnalyserNodeRef r;
       exportRenderCanvasRef := exportRenderCanvasRef r;
       exportAnimationRequestRef := exportAnimationRequestRef r;
       mediaRecorderRef := mediaRecorderRef r; recordedChunksRef := l |}).

Definition set_recorder (m : option MediaRecorder) : State -> State :=
  with_world (fun w =>
    {| recorder := m; audioContexts := audioContexts w; objectURLs := objectURLs w;
       pendingFrames := pendingFrames w; playPending := playPending w;
       ffmpeg_loaded := ffmpeg_loaded w; ffmpegFS := ffmpegFS w; downloads := downloads w;
       nextId := nextId w; session := session w; renderCtx := renderCtx w |}).

Definition set_audioContexts (m : gmap nat AudioContextState) : State -> State :=
  with_world (fun w =>
    {| recorder := recorder w; audioContexts := m; objectURLs := objectURLs w;
       pendingFrames := pendingFrames w; playPending := playPending w;
       ffmpeg_loaded := ffmpeg_loaded w; ffmpegFS := ffmpegFS w; downloads := downloads w;
       nextId := nextId w; session := session w; renderCtx := renderCtx w |}).

Definition set_objectURLs (u : gset nat) : State -> State :=
  with_world (fun w =>
    {| recorder := recorder w; audioContexts := audioContexts w; objectURLs := u;
       pendingFrames := pendingFrames w; playPending := playPending w;
       ffmpeg_loaded := ffmpeg_loaded w; ffmpegFS := ffmpegFS w; downloads := downloads w;
       nextId := nextId w; session := session w; renderCtx := renderCtx w |}).

Definition set_pendingFrames (l : list nat) : State -> State :=
  with_world (fun w =>
    {| recorder := recorder w; audioContexts := audioContexts w; objectURLs := objectURLs w;
       pendingFrames := l; playPending := playPending w;
       ffmpeg_loaded := ffmpeg_loaded w; ffmpegFS := ffmpegFS w; downloads := downloads w;
       nextId := nextId w; session := session w; renderCtx := renderCtx w |}).

Definition set_playPending (b : bool) : State -> State :=
  with_world (fun w =>
    {| recorder := recorder w; audioContexts := audioContexts w; objectURLs := objectURLs w;
       pendingFrames := pendingFrames w; playPending := b;
       ffmpeg_loaded := ffmpeg_loaded w; ffmpegFS := ffmpegFS w; downloads := downloads w;
       nextId := nextId w; session := session w; renderCtx := renderCtx w |}).

Definition set_ffmpegFS (m : gmap string Blob) : State -> State :=
  with_world (fun w =>
    {| recorder := recorder w; audioContexts := audioContexts w; objectURLs := objectURLs w;
       pendingFrames := pendingFrames w; playPending := playPending w;
       ffmpeg_loaded := ffmpeg_loaded w; ffmpegFS := m; downloads := downloads w;
       nextId := nextId w; session := session w; renderCtx := renderCtx w |}).

Definition set_downloads (l : list Download) : State -> State :=
  with_world (fun w =>
    {| recorder := recorder w; audioContexts := audioContexts w; objectURLs := objectURLs w;
       pendingFrames := pendingFrames w; playPending := playPending w;
       ffmpeg_loaded := ffmpeg_loaded w; ffmpegFS := ffmpegFS w; downloads := l;
       nextId := nextId w; session := session w; renderCtx := renderCtx w |}).

Definition set_nextId (n : nat) : State -> State :=
  with_world (fun w =>
    {| recorder := recorder w; audioContexts := audioContexts w; objectURLs := objectURLs w;
       pendingFrames := pendingFrames w; playPending := playPending w;
       ffmpeg_loaded := ffmpeg_loaded w; ffmpegFS := ffmpegFS w; downloads := downloads w;
       nextId := n; session := session w; renderCtx := renderCtx w |}).

Definition set_session (x : option Session) : State -> State :=
  with_world (fun w =>
    {| recorder := recorder w; audioContexts := audioContexts w; objectURLs := objectURLs w;
       pendingFrames := pendingFrames w; playPending := playPending w;
       ffmpeg_loaded := ffmpeg_loaded w; ffmpegFS := ffmpegFS w; downloads := downloads w;
       nextId := nextId w; session := x; renderCtx := renderCtx w |}).

Definition set_renderCtx (c : Canvas.Ctx) : State -> State :=
  with_world (fun w =>
    {| recorder := recorder w; audioContexts := audioContexts w; objectURLs := objectURLs w;
       pendingFrames := pendingFrames w; playPending := playPending w;
       ffmpeg_loaded := ffmpeg_loaded w; ffmpegFS := ffmpegFS w; downloads := downloads w;
       nextId := nextId w; session := session w; renderCtx := c |}).

Definition count_cleanup (s : State) : State :=
  {| ui := ui s; config := config s; refs := refs s; world := world s;
     cleanupCalls := S (cleanupCalls s); progressLog := progressLog s |}.

Definition reset_progressLog (s : State) : State :=
  {| ui := ui s; config := config s; refs := refs s; world := world s;
     cleanupCalls := cleanupCalls s; progressLog := [] |}.

Definition with_recorder (f : MediaRecorder -> MediaRecorder) (s : State) : State :=
  set_recorder (f <$> recorder (world s)) s.

Definition with_audio (f : AudioElement -> AudioElement) (s : State) : State :=
  set_exportAudioRef (f <$> exportAudioRef (refs s)) s.

Definition with_session (f : Session -> Session) (s : State) : State :=
  set_session (f <$> session (world s)) s.

(** *** Operations of the host *)

(** Identifiers handed out by the host (object URLs, audio contexts,
    animation-frame requests) are fresh and never zero. *)
Definition fresh (s : State) : nat * State :=
  (S (nextId (world s)), set_nextId (S (nextId (world s))) s).

Definition createObjectURL (s : State) : nat * State :=
  let '(u, s) := fresh s in
  (u, set_objectURLs (objectURLs (world s) ∪ {[u]}) s).

Definition revokeObjectURL (u : nat) (s : State) : State :=
  set_objectURLs (objectURLs (world s) ∖ {[u]}) s.

Definition requestAnimationFrame (s : State) : nat * State :=
  let '(i, s) := fresh s in
  (i, set_pendingFrames (pendingFrames (world s) ++ [i]) s).

Definition cancelAnimationFrame (i : nat) (s : State) : State :=
  set_pendingFrames (filter (fun j => j ≠ i) (pendingFrames (world s))) s.

(** [if (exportAnimationRequestRef.current) cancelAnimationFrame(...)] *)
Definition cancelPendingFrame (s : State) : State :=
  match exportAnimationRequestRef (refs s) with
  | Some i => cancelAnimationFrame i s
  | None => s
  end.

(** [MediaRecorder.stop()]: the recorder becomes inactive at once and
    will fire its last [dataavailable] and its [stop] event. *)
Definition recorder_stop (m : MediaRecorder) : MediaRecorder :=
  {| rstate := inactive; mimeType := mimeType m;
     videoBitsPerSecond := videoBitsPerSecond m;
     onstart := onstart m; onstop := onstop m;
     ondataavailable := ondataavailable m; onerror := onerror m;
     startQueued := startQueued m; stopQueued := true |}.

(** [MediaRecorder.start()] *)
Definition recorder_start (m : MediaRecorder) : MediaRecorder :=
  {| rstate := recording; mimeType := mimeType m;
     videoBitsPerSecond := videoBitsPerSecond m;
     onstart := onstart m; onstop := onstop m;
     ondataavailable := ondataavailable m; onerror := onerror m;
     startQueued := true; stopQueued := stopQueued m |}.

Definition set_handlers (start stop data err : bool) (m : MediaRecorder) : MediaRecorder :=
  {| rstate := rstate m; mimeType := mimeType m;
     videoBitsPerSecond := videoBitsPerSecond m;
     onstart := start; onstop := stop; ondataavailable := data; onerror := err;
     startQueued := startQueued m; stopQueued := stopQueued m |}.

Definition set_queued (start stop : bool) (m : MediaRecorder) : MediaRecorder :=
  {| rstate := rstate m; mimeType := mimeType m;
     videoBitsPerSecond := videoBitsPerSecond m;
     onstart := onstart m; onstop := onstop m;
     ondataavailable := ondataavailable m; onerror := onerror m;
     startQueued := start; stopQueued := stop |}.

(** [if (rec.state === "recording") { try { rec.stop() } catch ... }] *)
Definition stopIfRecording (s : State) : State :=
  with_recorder (fun m => if decide (rstate m = recording) then recorder_stop m else m) s.

Definition isRecording (s : State) : bool :=
  match recorder (world s) with
  | Some m => bool_decide (rstate m = recording)
  | None => false
  end.

Definition closeAudioContext (i : nat) (s : State) : State :=
  match audioContexts (world s) !! i with
  | Some st =>
      if decide (st = closed) then s
      else set_audioContexts (<[i := closed]> (audioContexts (world s))) s
  | None => s
  end.

(** *** [cleanupExportResources]

    [c] is the snapshot seen by the caller; the drawing on the preview
    canvas is left out. *)
Definition cleanupExportResources (c : Snapshot) (exportAudioCtx : option nat)
    (status : string) (s : State) : State :=
  let s := count_cleanup s in
  let s := setExportStatusMessage
    (if decide (status = "") then
       match error (seen_ui c) with
       | Some _ => text "Export failed. Cleaning up..."
       | None =>
           if (100 <=? exportProgress (seen_ui c))%Z
           then text "Export complete. Cleaning up..."
           else text "Export cancelled. Cleaning up..."
       end
     else text status) s in
  let s := setIsExporting false s in
  let s :=
    match exportAudioRef (refs s) with
    | Some el => set_exportAudioRef None (revokeObjectURL (src el) s)
    | None => s
    end in
  let s := set_exportAnalyserNodeRef false s in
  let s := set_exportRenderCanvasRef None s in
  let s :=
    match exportAnimationRequestRef (refs s) with
    | Some i => set_exportAnimationRequestRef None (cancelAnimationFrame i s)
    | None => s
    end in
  let s :=
    match exportAudioCtx with
    | Some i => closeAudioContext i s
    | None => s
    end in
  let s :=
    if mediaRecorderRef (refs s) then
      let s := with_recorder (set_handlers false false false false) s in
      let s := with_recorder
        (fun m => if decide (rstate m = inactive) then m else recorder_stop m) s in
      set_mediaRecorderRef false s
    else s in
  set_recordedChunksRef [] s.

(** *** [commonExportSetup] *)

(** What the host answers during the setup. *)
Record SetupEnv := {
  has2dContext : bool;
  contextSuspended : bool;
  resumeFails : option string;
  supportedTypes : list string;
}.

Definition mimeTypeCandidates : list string := [
  "video/webm;codecs=vp9,opus";
  "video/webm;codecs=vp8,opus";
  "video/webm;codecs=vp9,vorbis";
  "video/webm;codecs=vp8,vorbis";
  "video/webm;codecs=h264,aac";
  "video/webm"
].

Definition isTypeSupported (env : SetupEnv) (mimeType : string) : bool :=
  bool_decide (mimeType ∈ supportedTypes env).

Definition newAudioElement (u : nat) : AudioElement :=
  {| src := u; audioTime := 0; loading := false;
     onloadedmetadata := false; audio_onerror := false |}.

Definition newMediaRecorder (mime : string) (bits : Z) : MediaRecorder :=
  {| rstate := inactive; mimeType := mime; videoBitsPerSecond := bits;
     onstart := false; onstop := false; ondataavailable := false; onerror := false;
     startQueued := false; stopQueued := false |}.

(** Returns the audio context on success ([{renderCtx,
    exportAudioContext}] in the source), [None] for [false]. *)
Definition commonExportSetup (c : Snapshot) (env : SetupEnv) (exportType : ExportType)
    (exportWidth exportHeight : Q) (exportFPS : Z) (s : State) : option nat * State :=
  let s := setExportStatusMessage (text "Initializing export environment...") s in
  if bool_decide (audioFile (seen_config c) = None) || isExporting (seen_ui c) then
    let m := if isExporting (seen_ui c) then text "Export already in progress."
             else text "Audio file needed for export." in
    (None, setExportStatusMessage m (setError (Some m) s))
  else if bool_decide (exportType = mp4) && negb (isFFmpegLoaded (seen_config c)) then
    (None, setExportStatusMessage (text "MP4 export tools (FFmpeg) not ready.")
             (setError (Some (text "MP4 export tools (FFmpeg) not ready. Try WebM or refresh.")) s))
  else
    let s := setError None s in
    let s := setIsExporting true s in
    let s := setExportProgress 0 (reset_progressLog s) in
    let s := setCurrentExportFrame 0 s in
    let s := setTotalExportFrames 0 s in
    let s := set_recordedChunksRef [] s in
    let s := setExportStatusMessage (text "Creating virtual render canvas...") s in
    let s := set_exportRenderCanvasRef (Some (exportWidth, exportHeight)) s in
    if negb (has2dContext env) then
      let s := setError (Some (text "Failed to create render canvas context for export.")) s in
      let s := setExportStatusMessage (text "Failed to create render canvas context.") s in
      (None, setIsExporting false s)
    else
      let s := set_renderCtx Canvas.blank s in
      let s := setExportStatusMessage (text "Setting up audio for export...") s in
      let '(u, s) := createObjectURL s in
      let s := set_exportAudioRef (Some (newAudioElement u)) s in
      let '(a, s) := fresh s in
      let s := set_audioContexts
        (<[a := if contextSuspended env then suspended else running]>
           (audioContexts (world s))) s in
      let resumed :=
        if contextSuspended env then
          let s := setExportStatusMessage (text "Resuming export audio context...") s in
          match resumeFails env with
          | Some resumeError =>
              let s := setError (Some [Str "Failed to resume audio context for export: ";
                                       Str resumeError; Str "."]) s in
              let s := setExportStatusMessage
                [Str "Export audio context resume failed: "; Str resumeError] s in
              inl (setIsExporting false s)
          | None => inr (set_audioContexts (<[a := running]> (audioContexts (world s))) s)
          end
        else inr s in
      match resumed with
      | inl s => (None, s)
      | inr s =>
          let s := set_exportAnalyserNodeRef true s in
          match exportRenderCanvasRef (refs s) with
          | None =>
              let s := setError (Some (text "Export render canvas not initialized.")) s in
              let s := setExportStatusMessage (text "Export render canvas not initialized.") s in
              (None, cleanupExportResources c (Some a) "Setup failure" s)
          | Some _ =>
              let s := setExportStatusMessage (text "Configuring video recorder...") s in
              match List.find (isTypeSupported env) mimeTypeCandidates with
              | None =>
                  let s := setError (Some (text
                    "No suitable WebM codecs supported by your browser for recording. Try a different browser or check for updates.")) s in
                  let s := setExportStatusMessage (text "MediaRecorder: Codec support issue.") s in
                  (None, cleanupExportResources c (Some a) "MediaRecorder codec failure" s)
              | Some supportedMimeType =>
                  let s := setExportStatusMessage
                    [Str "Recorder: "; Str (split_head ";"%char supportedMimeType)] s in
                  let s := set_recorder (Some (newMediaRecorder supportedMimeType
                    (match exportType with mp4 => 8000000 | webm => 12000000 end))) s in
                  let s := set_mediaRecorderRef true s in
                  let s := setExportStatusMessage
                    [Str "Recorder configured ("; Str (split_head ";"%char supportedMimeType);
                     Str ")."] s in
                  (Some a, s)
              end
          end
      end.

(** *** [startExportRenderLoop]: registering the audio handlers *)

Definition startExportRenderLoop (c : Snapshot) (exportAudioCtx : nat) (s : State) : State :=
  let s := setExportStatusMessage (text "Preparing render loop...") s in
  match exportAudioRef (refs s) with
  | Some _ =>
      if exportAnalyserNodeRef (refs s) && mediaRecorderRef (refs s) then
        let s := with_session (fun x =>
          {| seen := seen x; kind := kind x; exportWidth := exportWidth x;
             exportHeight := exportHeight x; exportFPS := exportFPS x;
             exportAudioContext := exportAudioContext x; audioFullDuration := 0 |}) s in
        let s := with_audio (fun el =>
          {| src := src el; audioTime := audioTime el; loading := loading el;
             onloadedmetadata := true; audio_onerror := true |}) s in
        let s := setExportStatusMessage (text "Loading export audio...") s in
        with_audio (fun el =>
          {| src := src el; audioTime := audioTime el; loading := true;
             onloadedmetadata := onloadedmetadata el; audio_onerror := audio_onerror el |}) s
      else
        let s := setError (Some (text "Core export elements not ready for render loop.")) s in
        let s := setExportStatusMessage (text "Render loop setup failed: Missing elements.") s in
        cleanupExportResources c (Some exportAudioCtx) "Render loop setup failure" s
  | None =>
      let s := setError (Some (text "Core export elements not ready for render loop.")) s in
      let s := setExportStatusMessage (text "Render loop setup failed: Missing elements.") s in
      cleanupExportResources c (Some exportAudioCtx) "Render loop setup failure" s
  end.

(** *** [handleExportWebM] and [handleExportMP4]

    The two functions differ in the [onstop] handler they install
    (below) and in the words of their messages; [exportType]
    selects. *)
Definition handleExport (exportType : ExportType) (c : Snapshot) (env : SetupEnv)
    (exportWidth exportHeight : Q) (exportFPS : Z) (s : State) : State :=
  match commonExportSetup c env exportType exportWidth exportHeight exportFPS s with
  | (None, s) => s
  | (Some exportAudioContext, s) =>
      if mediaRecorderRef (refs s) && bool_decide (is_Some (exportAudioRef (refs s)))
         && exportAnalyserNodeRef (refs s)
         && bool_decide (is_Some (exportRenderCanvasRef (refs s)))
      then
        let s := with_recorder (fun m =>
          set_handlers (onstart m) true true (onerror m) m) s in
        let s := set_session (Some
          {| seen := c; kind := exportType; exportWidth := exportWidth;
             exportHeight := exportHeight; exportFPS := exportFPS;
             exportAudioContext := exportAudioContext; audioFullDuration := 0 |}) s in
        startExportRenderLoop c exportAudioContext s
      else
        match exportType with
        | webm =>
            let s := setError (Some (text "Export setup failed unexpectedly (WebM).")) s in
            let s := setExportStatusMessage (text "WebM export setup failed.") s in
            cleanupExportResources c (Some exportAudioContext) "WebM setup failure" s
        | mp4 =>
            let s := setError (Some (text "Export setup failed unexpectedly (MP4).")) s in
            let s := setExportStatusMessage (text "MP4 export setup failed.") s in
            cleanupExportResources c (Some exportAudioContext) "MP4 setup failure" s
        end
  end.

Definition handleExportWebM := handleExport webm.
Definition handleExportMP4 := handleExport mp4.

(** The functions of a render close over that render's state: a
    click runs [startActualExport] of the latest render. *)
Definition startActualExport (env : SetupEnv) (s : State) : State :=
  let c := snapshot s in
  match exportType (exportSettings (seen_config c)) with
  | None => s
  | Some t =>
      let s := setExportStatusMessage [Str "Starting "; Str (upper t); Str " export..."] s in
      let st := exportSettings (seen_config c) in
      handleExport t c env (targetWidth st) (targetHeight st) (fps st) s
  end.

(** *** Handlers of the audio element *)

Definition audio_onloadedmetadata (x : Session) (duration : option Q)
    (startThrows : option string) (s : State) : State :=
  let c := seen x in
  let ctx := exportAudioContext x in
  let s := setExportStatusMessage (text "Audio metadata loaded. Preparing recorder...") s in
  match exportAudioRef (refs s), recorder (world s) with
  | Some _, Some _ =>
      let d := default 0 duration in
      let s := with_session (fun x =>
        {| seen := seen x; kind := kind x; exportWidth := exportWidth x;
           exportHeight := exportHeight x; exportFPS := exportFPS x;
           exportAudioContext := exportAudioContext x; audioFullDuration := d |}) s in
      if bool_decide (duration = None) || Qle_bool d 0 then
        let s := setError (Some (text "Failed to get valid audio duration for export.")) s in
        let s := setExportStatusMessage (text "Invalid audio duration for export.") s in
        cleanupExportResources c (Some ctx) "Invalid audio duration" s
      else
        let calculatedTotalFrames := JS.Math_floor (d * inject_Z (exportFPS x)) in
        let s := setTotalExportFrames calculatedTotalFrames s in
        let s := setExportStatusMessage
          [Str "Total frames to render: "; Int calculatedTotalFrames; Str "."] s in
        let s := with_recorder (fun m =>
          set_handlers true (onstop m) (ondataavailable m) true m) s in
        let s := setExportStatusMessage (text "Starting recorder...") s in
        match startThrows with
        | None => with_recorder recorder_start s
        | Some e =>
            let startErrorMsg := [Str "Failed to start MediaRecorder: "; Str e] in
            let s := setError (Some startErrorMsg) s in
            let s := setExportStatusMessage startErrorMsg s in
            cleanupExportResources c (Some ctx) "Recorder start failed" s
        end
  | _, _ =>
      let s := setError (Some (text "Audio or recorder missing after metadata load.")) s in
      cleanupExportResources c (Some ctx) "Audio or recorder missing after metadata load." s
  end.

Definition audio_onerror_handler (x : Session) (s : State) : State :=
  let s := setError (Some (text "Error with export audio element. Cannot load for export.")) s in
  let s := setExportStatusMessage (text "Export audio element error.") s in
  let s := cleanupExportResources (seen x) (Some (exportAudioContext x))
             "Export audio load error" s in
  cancelPendingFrame s.

(** *** Handlers of the recorder installed by [startExportRenderLoop] *)

Definition recorder_onstart (x : Session) (s : State) : State :=
  let s := setExportStatusMessage (text "Recorder started. Playing audio for capture...") s in
  match exportAudioRef (refs s) with
  | None =>
      let s := setError (Some (text "Export audio element missing when MediaRecorder started.")) s in
      let s := setExportStatusMessage (text "Export audio missing at recorder start.") s in
      if isRecording s then stopIfRecording s
      else cleanupExportResources (seen x) (Some (exportAudioContext x))
             "Audio missing at recorder start, recorder not active" s
  | Some _ => set_playPending true s
  end.

Definition play_then (s : State) : State :=
  let '(i, s) := requestAnimationFrame s in
  set_exportAnimationRequestRef (Some i) s.

Definition play_catch (x : Session) (e : string) (s : State) : State :=
  let playErrorMsg := [Str "Failed to start audio for export: "; Str e] in
  let s := setError (Some playErrorMsg) s in
  let s := setExportStatusMessage playErrorMsg s in
  if isRecording s then stopIfRecording s
  else cleanupExportResources (seen x) (Some (exportAudioContext x))
         "Audio play failed during export, recorder not active" s.

Definition recorder_onerror (name message : string) (s : State) : State :=
  let errorMsg := [Str "MediaRecorder error: "; Str name; Str " - "; Str message] in
  let s := setError (Some errorMsg) s in
  let s := setExportStatusMessage errorMsg s in
  match exportAnimationRequestRef (refs s) with
  | Some i => set_exportAnimationRequestRef None (cancelAnimationFrame i s)
  | None => s
  end.

Definition recorder_ondataavailable (data : Blob) (s : State) : State :=
  if bool_decide (0 < length data)%nat
  then set_recordedChunksRef (recordedChunksRef (refs s) ++ [data]) s
  else s.

(** *** [renderFn]: one turn of the drive loop *)

(** [getByteFrequencyData(array)] fills a fixed-length array: what
    the analyser gives is cut or padded with zeros to that length. *)
Definition fillArray (len : nat) (data : list Byte.byte) : list Byte.byte :=
  take len (data ++ replicate len Byte.x00).

Definition fftSize : nat := 512.
Definition frequencyBinCount : nat := 256.

Definition visualizerProps (c : Config) (exportWidth exportHeight currentTimeVal : Q)
    : Renderer.Frame.props := {|
  Renderer.Frame.visualizationType := visualizationType c;
  Renderer.Frame.linearGraphStyle := linearGraphStyle c;
  Renderer.Frame.colorTheme := colorTheme c;
  Renderer.Frame.centerImage := loadedCenterImage c;
  Renderer.Frame.imageScale := imageScale c;
  Renderer.Frame.pulseIntensity := pulseIntensity c;
  Renderer.Frame.imageCornerRadius := imageCornerRadius c;
  Renderer.Frame.imageSwingIntensity := imageSwingIntensity c;
  Renderer.Frame.enablePulse := enablePulse c;
  Renderer.Frame.enableSwing := enableSwing c;
  Renderer.Frame.visualizerDetailScale := visualizerDetailScale c;
  Renderer.Frame.width := exportWidth;
  Renderer.Frame.height := exportHeight;
  Renderer.Frame.currentTime := currentTimeVal;
|}.

(** The value [renderFn] gives to [setExportProgress] at playback
    time [t] of an audio of duration [d]. *)
Definition progressAt (exportType : ExportType) (t d : Q) : Z :=
  let progressPercentage := JS.Math_round ((t / d) * 100) in
  match exportType with
  | mp4 => Z.min 50 (JS.Math_round (inject_Z progressPercentage * 0.5))
  | webm => progressPercentage
  end.

(** The [try]: the frame is drawn on the context of the export
    canvas; [fault] stands for an exception raised by the host while
    drawing.  Returns the exception caught, if any, and the context
    after the attempt. *)
Definition tryRender (h : Host) (x : Session) (currentTimeVal : Q)
    (analysed sampled : list Byte.byte) (fault : option string) (ctx : Canvas.Ctx)
    : option string * Canvas.Ctx :=
  let frequencyData := fillArray frequencyBinCount analysed in
  let timeDomainData := fillArray fftSize sampled in
  match fault with
  | Some e => (Some e, ctx)
  | None =>
      match Renderer.renderSingleFrame frequencyData timeDomainData
              (visualizerProps (seen_config (seen x)) (exportWidth x) (exportHeight x)
                 currentTimeVal) h ctx with
      | Canvas.Returned _ ctx => (None, ctx)
      | Canvas.Threw e ctx => (Some e, ctx)
      end
  end.

Definition renderFn (h : Host) (x : Session) (analysed sampled : list Byte.byte)
    (fault : option string) (s : State) : State :=
  match exportAudioRef (refs s), exportRenderCanvasRef (refs s), recorder (world s) with
  | Some el, Some _, Some localMediaRecorder =>
      if negb (exportAnalyserNodeRef (refs s)) then cancelPendingFrame s
      else if negb (bool_decide (rstate localMediaRecorder = recording)) then
        let s := cancelPendingFrame s in
        if bool_decide (rstate localMediaRecorder = inactive)
           && bool_decide (recordedChunksRef (refs s) = [])
           && bool_decide (error (seen_ui (seen x)) = None)
        then
          let s := setError (Some (text "MediaRecorder stopped prematurely without data.")) s in
          setExportStatusMessage (text "Recorder stopped before data capture.") s
        else s
      else
        let currentTimeVal := audioTime el in
        if JS.gtb (audioFullDuration x) 0 && JS.geb currentTimeVal (audioFullDuration x) then
          let s := setExportStatusMessage (text "Audio ended. Stopping recorder...") s in
          let s := stopIfRecording s in
          cancelPendingFrame s
        else
          let '(caught, ctx) :=
            tryRender h x currentTimeVal analysed sampled fault (renderCtx (world s)) in
          let s := set_renderCtx ctx s in
          match caught with
          | Some renderErrorMessage =>
              let s := setError (Some [Str "Error rendering export frame: ";
                                       Str renderErrorMessage]) s in
              let s := setExportStatusMessage
                [Str "Frame render error: "; Str renderErrorMessage] s in
              let s := stopIfRecording s in
              cancelPendingFrame s
          | None =>
              let newFrameCount := (currentExportFrame (seen_ui (seen x)) + 1)%Z in
              let s := setCurrentExportFrame newFrameCount s in
              let s :=
                if bool_decide (newFrameCount `rem` 10 = 0)%Z || bool_decide (newFrameCount = 1)%Z
                then setExportStatusMessage
                       [Str "Rendering frame "; Int newFrameCount; Str " of ";
                        Int (totalExportFrames (seen_ui (seen x))); Str "..."] s
                else s in
              let s :=
                if JS.gtb (audioFullDuration x) 0
                then setExportProgress
                       (progressAt (kind x) currentTimeVal (audioFullDuration x)) s
                else s in
              let '(i, s) := requestAnimationFrame s in
              set_exportAnimationRequestRef (Some i) s
          end
  | _, _, _ => cancelPendingFrame s
  end.

(** *** The [onstop] handlers *)

Definition downloadName (c : Snapshot) (x : Session) (ext : string) : option Message :=
  f ← audioFile (seen_config c);
  Some [Str (split_head "."%char (fileName f)); Str "_"; Num (exportWidth x); Str "x";
        Num (exportHeight x); Str "_"; Int (exportFPS x); Str "fps."; Str ext].

(** Creating the link, clicking it and revoking its URL. *)
Definition offerDownload (name : Message) (b : Blob) (s : State) : State :=
  let '(downloadUrl, s) := createObjectURL s in
  let s := set_downloads (downloads (world s) ++ [{| download := name; href := b |}]) s in
  revokeObjectURL downloadUrl s.

Definition onstop_webm (x : Session) (s : State) : State :=
  let c := seen x in
  let ctx := Some (exportAudioContext x) in
  if bool_decide (is_Some (error (seen_ui c))) && bool_decide (recordedChunksRef (refs s) = [])
  then cleanupExportResources c ctx "WebM export error during recording." s
  else
    let s := setExportProgress 100 s in
    let s := setExportStatusMessage (text "WebM recording complete. Creating file...") s in
    let videoBlob : Blob := concat (recordedChunksRef (refs s)) in
    if bool_decide (length videoBlob = 0%nat) then
      let s := setError (Some (text
        "WebM export resulted in an empty file. Recording might have failed.")) s in
      let s := setExportStatusMessage (text "WebM export: Empty file produced.") s in
      cleanupExportResources c ctx "WebM empty file" s
    else
      let s := setExportStatusMessage (text "WebM file ready. Starting download...") s in
      match downloadName c x "webm" with
      | None => s
      | Some name =>
          let s := offerDownload name videoBlob s in
          let s := setExportStatusMessage (text "WebM export finished and downloaded.") s in
          cleanupExportResources c ctx "WebM export successful" s
      end.

(** What the transcoder does when asked. *)
Inductive ExecResult :=
| ExecThrows (e : string)
| ExecExits (code : Z) (output : option Blob).

Record FFmpegRun := {
  writeThrows : option string;
  exec : ExecResult;
  deleteThrows : option string;
}.

(** The body of the [try] block of the MP4 [onstop] handler; the
    left injection is the exception caught. *)
Definition transcode (c : Snapshot) (x : Session) (ff : FFmpegRun) (videoBlob : Blob)
    (s : State) : (string * State) + State :=
  let s := setExportStatusMessage (text "Writing intermediate WebM to FFmpeg memory...") s in
  match writeThrows ff with
  | Some e => inl (e, s)
  | None =>
      let s := set_ffmpegFS (<["input.webm" := videoBlob]> (ffmpegFS (world s))) s in
      let s := setExportStatusMessage
        [Str "Starting FFmpeg for MP4 conversion ("; Num (exportWidth x); Str "x";
         Num (exportHeight x); Str "@"; Int (exportFPS x); Str "fps)..."] s in
      match exec ff with
      | ExecThrows e => inl (e, s)
      | ExecExits _ output =>
          let s :=
            match output with
            | Some b => set_ffmpegFS (<["output.mp4" := b]> (ffmpegFS (world s))) s
            | None => s
            end in
          let s := setExportStatusMessage (text "MP4 conversion complete. Reading file...") s in
          match ffmpegFS (world s) !! "output.mp4" with
          | None => inl ("ErrnoError: FS error", s)
          | Some outputData =>
              let s := setExportStatusMessage (text "MP4 file ready. Starting download...") s in
              match downloadName c x "mp4" with
              | None => inl ("TypeError", s)
              | Some name =>
                  let s := offerDownload name outputData s in
                  let s := setExportStatusMessage (text "Cleaning up FFmpeg files...") s in
                  match deleteThrows ff with
                  | Some e => inl (e, s)
                  | None =>
                      let s := set_ffmpegFS (delete "input.webm" (ffmpegFS (world s))) s in
                      let s := set_ffmpegFS (delete "output.mp4" (ffmpegFS (world s))) s in
                      let s := setExportProgress 100 s in
                      inr (setExportStatusMessage (text "MP4 export finished and downloaded.") s)
                  end
              end
          end
      end
  end.

Definition onstop_mp4 (x : Session) (ff : FFmpegRun) (s : State) : State :=
  let c := seen x in
  let ctx := Some (exportAudioContext x) in
  if bool_decide (is_Some (error (seen_ui c))) && bool_decide (recordedChunksRef (refs s) = [])
  then cleanupExportResources c ctx "MP4 export error during recording." s
  else
    let s := setExportProgress 50 s in
    let s := setExportStatusMessage
      (text "WebM recording complete. Preparing for MP4 conversion...") s in
    let videoBlob : Blob := concat (recordedChunksRef (refs s)) in
    if bool_decide (length videoBlob = 0%nat) then
      let s := setError (Some (text
        "Intermediate WebM for MP4 export was empty. Recording failed.")) s in
      let s := setExportStatusMessage (text "MP4 export: Intermediate WebM empty.") s in
      cleanupExportResources c ctx "MP4 intermediate file empty" s
    else if negb (ffmpeg_loaded (world s)) then
      let s := setError (Some (text "FFmpeg not loaded. Cannot export MP4.")) s in
      let s := setExportStatusMessage (text "FFmpeg not loaded for MP4 conversion.") s in
      cleanupExportResources c ctx "FFmpeg not loaded" s
    else
      match transcode c x ff videoBlob s with
      | inr s => cleanupExportResources c ctx "MP4 export complete. Cleaning up." s
      | inl (ffmpegErrorMessage, s) =>
          let s := setError (Some [Str "MP4 export failed during video processing: ";
                                   Str ffmpegErrorMessage]) s in
          let s := setExportStatusMessage
            [Str "MP4 conversion failed: "; Str ffmpegErrorMessage] s in
          let s := setExportProgress 50 s in
          cleanupExportResources c ctx "MP4 conversion failed. Cleaning up." s
      end.

(** *** Handlers of the transcoder, installed once when the
    component mounts.  The effect has no dependency, so what its
    handlers see of [exportSettings] is the first render's. *)

Definition ffmpeg_onlog (message : string) (s : State) : State :=
  let s := setExportStatusMessage
    [Str "FFmpeg: "; Str (String.substring 0 100 message);
     Str (if bool_decide (100 < String.length message)%nat then "..." else "")] s in
  if bool_decide (is_Some (String.index 0 "Error" message))
     || bool_decide (is_Some (String.index 0 "failed" message))
  then setError (Some [Str "FFmpeg error: "; Str message; Str ". MP4 export might fail."]) s
  else s.

Definition ffmpeg_onprogress (progress time : Q) (s : State) : State :=
  if bool_decide (exportType initialExportSettings = Some mp4) then
    let ffmpegProgress := JS.Math_round (progress * 100) in
    let s := setExportProgress (50 + JS.Math_round (inject_Z ffmpegProgress / 2))%Z s in
    setExportStatusMessage
      [Str "FFmpeg: Processing... "; Int ffmpegProgress; Str "% (frame time: ";
       Num time; Str ")"] s
  else s.

(** *** Events and the transition function

    An event is something the host does: a click on the start button
    of the settings dialog, an event of the audio element or of the
    recorder, the settlement of the promise of [play()], an animation
    frame, a message of the transcoder.  An event the host cannot
    produce in the current state (a [stop] event of a recorder that
    was not stopped, a frame nobody requested, ...) leaves the state
    as it is.  Assumptions on the host written into [step]:
    - the audio element fires [loadedmetadata] or [error] only while
      it loads, and no event once the export has dropped it;
    - the playback position given to a frame is not before the one
      given to the previous frame (nothing seeks the element);
    - the awaits of the MP4 [onstop] handler complete without another
      handler of the export running in between. *)

Inductive Event :=
| ClickStartExport (env : SetupEnv)
| AudioLoadedMetadata (duration : option Q) (startThrows : option string)
| AudioError
| RecorderStart
| PlayResolved
| PlayRejected (e : string)
| AnimationFrame (t : Q) (analysed sampled : list Byte.byte) (fault : option string)
| RecorderData (data : Blob)
| RecorderStop (ff : FFmpegRun)
| RecorderError (name message : string)
| FFmpegLog (message : string)
| FFmpegProgress (progress time : Q).

Definition set_loading (b : bool) (el : AudioElement) : AudioElement :=
  {| src := src el; audioTime := audioTime el; loading := b;
     onloadedmetadata := onloadedmetadata el; audio_onerror := audio_onerror el |}.

Definition set_audioTime (t : Q) (el : AudioElement) : AudioElement :=
  {| src := src el; audioTime := t; loading := loading el;
     onloadedmetadata := onloadedmetadata el; audio_onerror := audio_onerror el |}.

Definition step (h : Host) (s : State) (e : Event) : State :=
  match e with
  | ClickStartExport env => startActualExport env s
  | AudioLoadedMetadata duration startThrows =>
      match exportAudioRef (refs s), session (world s) with
      | Some el, Some x =>
          if loading el && onloadedmetadata el
          then audio_onloadedmetadata x duration startThrows (with_audio (set_loading false) s)
          else s
      | _, _ => s
      end
  | AudioError =>
      match exportAudioRef (refs s), session (world s) with
      | Some el, Some x =>
          if loading el && audio_onerror el
          then audio_onerror_handler x (with_audio (set_loading false) s)
          else s
      | _, _ => s
      end
  | RecorderStart =>
      match recorder (world s), session (world s) with
      | Some m, Some x =>
          if startQueued m then
            let s := with_recorder (fun m => set_queued false (stopQueued m) m) s in
            if onstart m then recorder_onstart x s else s
          else s
      | _, _ => s
      end
  | PlayResolved =>
      if playPending (world s) then play_then (set_playPending false s) else s
  | PlayRejected e =>
      match session (world s) with
      | Some x =>
          if playPending (world s) then play_catch x e (set_playPending false s) else s
      | None => s
      end
  | AnimationFrame t analysed sampled fault =>
      match pendingFrames (world s), session (world s) with
      | _ :: rest, Some x =>
          match exportAudioRef (refs s) with
          | Some el =>
              if Qle_bool (audioTime el) t
              then renderFn h x analysed sampled fault
                     (with_audio (set_audioTime t) (set_pendingFrames rest s))
              else s
          | None => renderFn h x analysed sampled fault (set_pendingFrames rest s)
          end
      | _, _ => s
      end
  | RecorderData data =>
      match recorder (world s) with
      | Some m =>
          if (bool_decide (rstate m = recording) || stopQueued m) && ondataavailable m
          then recorder_ondataavailable data s
          else s
      | None => s
      end
  | RecorderStop ff =>
      match recorder (world s), session (world s) with
      | Some m, Some x =>
          if stopQueued m then
            let s := with_recorder (fun m => set_queued (startQueued m) false m) s in
            if onstop m then
              match kind x with
              | webm => onstop_webm x s
              | mp4 => onstop_mp4 x ff s
              end
            else s
          else s
      | _, _ => s
      end
  | RecorderError name message =>
      match recorder (world s) with
      | Some m =>
          if bool_decide (rstate m = recording) then
            let s := with_recorder recorder_stop s in
            if onerror m then recorder_onerror name message s else s
          else s
      | None => s
      end
  | FFmpegLog message => ffmpeg_onlog message s
  | FFmpegProgress progress time => ffmpeg_onprogress progress time s
  end.

Definition run (h : Host) (s : State) (events : list Event) : State :=
  foldl (step h) s events.

(** The application at rest: no export has left anything behind. *)
Definition idleRefs : Refs := {|
  exportAudioRef := None; exportAnalyserNodeRef := false;
  exportRenderCanvasRef := None; exportAnimationRequestRef := None;
  mediaRecorderRef := false; recordedChunksRef := [];
|}.

Definition idleWorld (ffmpegLoaded : bool) : World := {|
  recorder := None; audioContexts := ∅; objectURLs := ∅; pendingFrames := [];
  playPending := false; ffmpeg_loaded := ffmpegLoaded; ffmpegFS := ∅; downloads := [];
  nextId := 0; session := None; renderCtx := Canvas.blank;
|}.

Definition idleUI : UI := {|
  isExporting := false; exportProgress := 0; exportStatusMessage := [];
  error := None; currentExportFrame := 0; totalExportFrames := 0;
|}.

Definition idle (c : Config) : State := {|
  ui := idleUI; config := c; refs := idleRefs;
  world := idleWorld (isFFmpegLoaded c); cleanupCalls := 0; progressLog := [];
|}.

End Orchestrator.

(** ** Observations on what was painted *)

Module Painting.

Import Canvas.
Local Open Scope Q_scope.

Inductive BarOutline := Capsule | Rectangle | Unknown.

(** A capsule is a closed path with two straight sides joined by an
    arc; a rectangle is what [fillRect] paints, or a closed path
    of four corners with sides parallel to the axes. *)
Definition outline (s : Shape) : BarOutline :=
  match s with
  | Rect _ _ _ _ => Rectangle
  | Filled [(_, MoveTo x0 _); (_, LineTo x1 _); (_, Arc _ _ _ _ _ _);
            (_, LineTo _ _); (_, ClosePath)] =>
      if Qeq_bool x0 x1 then Capsule else Unknown
  | Filled [(_, MoveTo x0 y0); (_, LineTo x1 y1); (_, LineTo x2 y2);
            (_, LineTo x3 y3); (_, ClosePath)] =>
      if Qeq_bool x0 x1 && Qeq_bool y1 y2 && Qeq_bool x2 x3 && Qeq_bool y3 y0
      then Rectangle else Unknown
  | _ => Unknown
  end.

(** A polynomial stands for the sine in the examples. *)
Definition sampleHost (now : Q) : Host := {|
  Math_sin := fun x => x - x * x * x / 6;
  Math_PI := 3.141592653589793;
  performance_now := now;
|}.


End Painting.

(** ** Scenarios used in the examples *)

Module Scenario.

Import Types Orchestrator.
Local Open Scope Q_scope.



(** A ten-second song, exported at 640x360 and 30 frames per second. *)
Definition song (t : ExportType) : Config := {|
  audioFile := Some {| fileName := "song.mp3"; contents := [] |};
  isFFmpegLoaded := true;
  exportSettings := {| resolution := "current"; fps := 30; exportType := Some t;
                       targetWidth := 640; targetHeight := 360 |};
  visualizationType := CIRCULAR;
  linearGraphStyle := bars;
  colorTheme := sky;
  loadedCenterImage := None;
  imageScale := 1;
  pulseIntensity := 1;
  imageCornerRadius := 0;
  imageSwingIntensity := 0;
  enablePulse := false;
  enableSwing := false;
  visualizerDetailScale := 1;
|}.

Definition browser : SetupEnv := {|
  has2dContext := true;
  contextSuspended := false;
  resumeFails := None;
  supportedTypes := ["video/webm;codecs=vp8,opus"; "video/webm"];
|}.


Definition host : Host := Painting.sampleHost 0.

Definition transcoderWorks : FFmpegRun := {|
  writeThrows := None;
  exec := ExecExits 0 (Some [Byte.x00; Byte.x00; Byte.x00; Byte.x18]);
  deleteThrows := None;
|}.

(** The transcoder exits with an error code and leaves an empty
    output file behind. *)
Definition transcoderLeavesEmptyFile : FFmpegRun := {|
  writeThrows := None;
  exec := ExecExits 1 (Some []);
  deleteThrows := None;
|}.


Definition chunk1 : Blob := [Byte.x1a; Byte.x45; Byte.xdf; Byte.xa3].
Definition chunk2 : Blob := [Byte.x1f; Byte.x43].

(** From the click to the first frames of the capture. *)
Definition startOfCapture : list Event := [
  ClickStartExport browser;
  AudioLoadedMetadata (Some 10) None;
  RecorderStart;
  PlayResolved;
  AnimationFrame 1 [] [] None;
  RecorderData chunk1
].

(** A frame fails to render after a chunk was recorded; the recorder,
    stopped by the handler, delivers what it still holds and stops. *)
Definition renderFailure : list Event :=
  startOfCapture ++ [
    AnimationFrame 2 [] [] (Some "InvalidStateError");
    RecorderData chunk2;
    RecorderStop transcoderWorks
  ].

(** The audio plays to its end. *)
Definition fullCapture (ff : FFmpegRun) : list Event :=
  startOfCapture ++ [
    AnimationFrame 5 [] [] None;
    AnimationFrame 10 [] [] None;
    RecorderData chunk2;
    RecorderStop ff
  ].

(** The state of an export that is capturing. *)
Definition capturing (t : ExportType) : State :=
  run host (idle (song t)) startOfCapture.

End Scenario.

(** ** What the handlers leave behind, and the phases of a capture *)

Module Summary.

Import Types Orchestrator.
Local Open Scope Q_scope.

(** What [cleanupExportResources] does to the recorder it finds in
    [mediaRecorderRef]. *)
Definition detach (m : MediaRecorder) : MediaRecorder :=
  let m := set_handlers false false false false m in
  if decide (rstate m = inactive) then m else recorder_stop m.

Definition closedContext (a : option nat) (ctxs : gmap nat AudioContextState)
    : gmap nat AudioContextState :=
  match a with
  | Some i =>
      match ctxs !! i with
      | Some st => if decide (st = closed) then ctxs else <[i := closed]> ctxs
      | None => ctxs
      end
  | None => ctxs
  end.

Definition cleanupStatus (c : Snapshot) (status : string) : Message :=
  if decide (status = "") then
    match error (seen_ui c) with
    | Some _ => text "Export failed. Cleaning up..."
    | None =>
        if (100 <=? exportProgress (seen_ui c))%Z
        then text "Export complete. Cleaning up..."
        else text "Export cancelled. Cleaning up..."
    end
  else text status.

(** The state after [cleanupExportResources], field by field. *)
Definition cleaned (c : Snapshot) (a : option nat) (status : string) (s : State) : State := {|
  ui := {| isExporting := false; exportProgress := exportProgress (ui s);
           exportStatusMessage := cleanupStatus c status; error := error (ui s);
           currentExportFrame := currentExportFrame (ui s);
           totalExportFrames := totalExportFrames (ui s) |};
  config := config s;
  refs := idleRefs;
  world := {|
    recorder := if mediaRecorderRef (refs s) then detach <$> recorder (world s)
                else recorder (world s);
    audioContexts := closedContext a (audioContexts (world s));
    objectURLs := match exportAudioRef (refs s) with
                  | Some el => objectURLs (world s) ∖ {[src el]}
                  | None => objectURLs (world s)
                  end;
    pendingFrames := match exportAnimationRequestRef (refs s) with
                     | Some i => filter (fun j => j ≠ i) (pendingFrames (world s))
                     | None => pendingFrames (world s)
                     end;
    playPending := playPending (world s);
    ffmpeg_loaded := ffmpeg_loaded (world s);
    ffmpegFS := ffmpegFS (world s);
    downloads := downloads (world s);
    nextId := nextId (world s);
    session := session (world s);
    renderCtx := renderCtx (world s);
  |};
  cleanupCalls := S (cleanupCalls s);
  progressLog := progressLog s;
|}.

(** Every resource an export holds is released: the audio element
    and its object URL, the analyser, the audio context, the
    off-screen canvas, the recorder and its handlers, the recorded
    chunks.  The working store of the transcoder is not part of
    it. *)
Record released (s : State) : Prop := {
  released_refs : refs s = idleRefs;
  released_urls : objectURLs (world s) = ∅;
  released_contexts : map_Forall (fun _ st => st = closed) (audioContexts (world s));
  released_recorder :
    forall m, recorder (world s) = Some m ->
      rstate m = inactive /\ stopQueued m = false
      /\ onstart m = false /\ onstop m = false
      /\ ondataavailable m = false /\ onerror m = false;
}.


(** The export holds everything it set up. *)
Record holding (s : State) (el : AudioElement) (m : MediaRecorder) (x : Session) : Prop := {
  holding_exporting : isExporting (ui s) = true;
  holding_calls : cleanupCalls s = 0%nat;
  holding_audio : exportAudioRef (refs s) = Some el;
  holding_urls : objectURLs (world s) ⊆ {[src el]};
  holding_analyser : exportAnalyserNodeRef (refs s) = true;
  holding_canvas : is_Some (exportRenderCanvasRef (refs s));
  holding_ref : mediaRecorderRef (refs s) = true;
  holding_recorder : recorder (world s) = Some m;
  holding_handlers : onstop m = true /\ ondataavailable m = true;
  holding_session : session (world s) = Some x;
  holding_file : is_Some (audioFile (seen_config (seen x)));
  holding_duration : 0 < audioFullDuration x;
  holding_context : audioContexts (world s) = {[exportAudioContext x := running]};
}.


(** The recorder was stopped and has its [stop] event to fire; no
    frame is requested. *)
Definition Stopping (s : State) : Prop :=
  exists el m x,
    holding s el m x /\ rstate m = inactive /\ stopQueued m = true
    /\ pendingFrames (world s) = [].

(** The export has ended through one call of the cleanup. *)
Definition Exited (s : State) : Prop :=
  isExporting (ui s) = false /\ cleanupCalls s = 1%nat /\ released s
  /\ pendingFrames (world s) = [].


(** [s'] holds what [s] holds. *)
Record same_holdings (s s' : State) : Prop := {
  same_exporting : isExporting (ui s') = isExporting (ui s);
  same_calls : cleanupCalls s' = cleanupCalls s;
  same_audio : exportAudioRef (refs s') = exportAudioRef (refs s);
  same_analyser : exportAnalyserNodeRef (refs s') = exportAnalyserNodeRef (refs s);
  same_canvas : exportRenderCanvasRef (refs s') = exportRenderCanvasRef (refs s);
  same_recorderRef : mediaRecorderRef (refs s') = mediaRecorderRef (refs s);
  same_recorder : recorder (world s') = recorder (world s);
  same_urls : objectURLs (world s') ⊆ objectURLs (world s);
  same_session : session (world s') = session (world s);
  same_contexts : audioContexts (world s') = audioContexts (world s);
}.

(** What a click needs to get past the checks of the setup: a file,
    an export type, the transcoder if the type is MP4, a 2D context
    and an audio context that runs. *)
Record startable (c : Config) (env : SetupEnv) (t : ExportType) : Prop := {
  startable_file : is_Some (audioFile c);
  startable_type : exportType (exportSettings c) = Some t;
  startable_tools : t = mp4 -> isFFmpegLoaded c = true;
  startable_canvas : has2dContext env = true;
  startable_context : contextSuspended env = true -> resumeFails env = None;
}.

(** The export has set everything up and loads its audio. *)
Record Loading (s : State) (el : AudioElement) (m : MediaRecorder) (x : Session) : Prop := {
  loading_exporting : isExporting (ui s) = true;
  loading_calls : cleanupCalls s = 0%nat;
  loading_audio : exportAudioRef (refs s) = Some el;
  loading_flags : loading el = true /\ onloadedmetadata el = true;
  loading_urls : objectURLs (world s) ⊆ {[src el]};
  loading_analyser : exportAnalyserNodeRef (refs s) = true;
  loading_canvas : is_Some (exportRenderCanvasRef (refs s));
  loading_ref : mediaRecorderRef (refs s) = true;
  loading_request : exportAnimationRequestRef (refs s) = None;
  loading_recorder : recorder (world s) = Some m;
  loading_handlers : onstop m = true /\ ondataavailable m = true;
  loading_inactive : rstate m = inactive /\ stopQueued m = false /\ startQueued m = false;
  loading_session : session (world s) = Some x;
  loading_file : is_Some (audioFile (seen_config (seen x)));
  loading_context : audioContexts (world s) = {[exportAudioContext x := running]};
  loading_frames : pendingFrames (world s) = [];
  loading_play : playPending (world s) = false;
}.

(** The progress written so far is in range and in order, and what
    may still be written will not be below it. *)
Record ProgressInv (s : State) : Prop := {
  log_bounded : Forall (fun v => 0 <= v <= 100)%Z (progressLog s);
  log_sorted : Sorted Z.le (progressLog s);
  time_nonneg : forall el, exportAudioRef (refs s) = Some el -> 0 <= audioTime el;
  loading_quiet :
    forall el m, exportAudioRef (refs s) = Some el -> recorder (world s) = Some m ->
      loading el = true ->
      rstate m = inactive /\ stopQueued m = false
      /\ Forall (fun v => v <= 0)%Z (progressLog s);
  recording_bound :
    forall el m x, exportAudioRef (refs s) = Some el -> recorder (world s) = Some m ->
      session (world s) = Some x -> rstate m = recording -> 0 < audioFullDuration x ->
      Forall (fun v => v <= progressAt (kind x) (audioTime el) (audioFullDuration x))%Z
        (progressLog s);
  mp4_bound :
    forall m x, recorder (world s) = Some m -> session (world s) = Some x ->
      kind x = mp4 -> rstate m = recording \/ stopQueued m = true ->
      Forall (fun v => v <= 50)%Z (progressLog s);
  stopped_inactive :
    forall m, recorder (world s) = Some m -> stopQueued m = true -> rstate m = inactive;
}.

End Summary.

(** ** The player controls ([App.tsx]) *)

Module Player.

Local Open Scope Q_scope.





End Player.

(** ** The size of the visualizer ([App.tsx]) *)

Module Layout.

Local Open Scope Q_scope.

Record VisualizerSize := { width : Q; height : Q }.

(** The container of the visualizer: its [offsetWidth] and the
    [clientWidth] of its parent element, if it has one. *)
Record Container := {
  offsetWidth : Q;
  parentElement : option Q;
}.

(** [document.fullscreenElement], as far as the handler tells. *)
Inductive FullscreenElement :=
| NoElement
| TheContainer
| AnotherElement.

Record Window := { innerWidth : Q; innerHeight : Q }.

(** Returns the size given to [setVisualizerSize], if it is called. *)
Definition calculateNonFullscreenSize (visContainerElement : option Container)
    (isFullscreen : bool) : option VisualizerSize :=
  match visContainerElement with
  | Some el =>
      let currentWidth := offsetWidth el in
      if JS.gtb currentWidth 0
      then Some {| width := currentWidth; height := currentWidth * (9 / 16) |}
      else
        match parentElement el with
        | Some parentWidth =>
            let cssMaxWidthForVisualizer := 896 in
            let calculatedWidth := JS.Math_min parentWidth cssMaxWidthForVisualizer in
            if JS.gtb calculatedWidth 0
            then Some {| width := calculatedWidth; height := calculatedWidth * (9 / 16) |}
            else Some {| width := 640; height := 360 |}
        | None => Some {| width := 640; height := 360 |}
        end
  | None =>
      if negb isFullscreen then Some {| width := 640; height := 360 |} else None
  end.

(** Returns the new [isFullscreen] and [visualizerSize]. *)
Definition handleResizeOrFullscreenChange (visContainerElement : option Container)
    (fullscreenElement : FullscreenElement) (window : Window)
    (isFullscreen : bool) (visualizerSize : VisualizerSize) : bool * VisualizerSize :=
  let isCurrentlyFullscreen :=
    match fullscreenElement with NoElement => false | _ => true end in
  let visualizerSize' :=
    match fullscreenElement, visContainerElement with
    | TheContainer, Some _ =>
        {| width := innerWidth window; height := innerHeight window |}
    | NoElement, _ =>
        default visualizerSize (calculateNonFullscreenSize visContainerElement isFullscreen)
    | _, _ => visualizerSize
    end in
  (isCurrentlyFullscreen, visualizerSize').

End Layout.

(** ** The export settings dialog ([App.tsx]) *)

Module Settings.

Import Orchestrator.
Local Open Scope Q_scope.

Record Preset := {
  label : string;
  width : option Q;
  height : option Q;
}.

Definition RESOLUTION_PRESETS : list (string * Preset) := [
  ("current", {| label := "Current Canvas Size"; width := None; height := None |});
  ("854x480", {| label := "480p (854x480)"; width := Some 854; height := Some 480 |});
  ("1280x720", {| label := "720p (1280x720)"; width := Some 1280; height := Some 720 |});
  ("1920x1080", {| label := "1080p (1920x1080)"; width := Some 1920; height := Some 1080 |});
  ("2560x1440", {| label := "1440p (2560x1440)"; width := Some 2560; height := Some 1440 |});
  ("3840x2160", {| label := "4K (3840x2160)"; width := Some 3840; height := Some 2160 |})
].

(** [RESOLUTION_PRESETS[key]] *)
Definition preset (key : string) : option Preset :=
  snd <$> List.find (fun kv => String.eqb (fst kv) key) RESOLUTION_PRESETS.

(** [preset && preset.width && preset.height]: the size of a preset
    that has one; zero is not a size. *)
Definition presetSize (p : option Preset) : option (Q * Q) :=
  match p with
  | Some p =>
      match width p, height p with
      | Some w, Some h => if Qeq_bool w 0 || Qeq_bool h 0 then None else Some (w, h)
      | _, _ => None
      end
  | None => None
  end.

Definition with_target (w h : Q) (s : ExportSettings) : ExportSettings :=
  {| resolution := resolution s; fps := fps s; exportType := exportType s;
     targetWidth := w; targetHeight := h |}.

(** [exportSettings] is the value the handler closes over, [prev]
    the value the update function receives. *)
Definition handleOpenExportSettings (type : ExportType)
    (visualizerSize : Layout.VisualizerSize)
    (exportSettings prev : ExportSettings) : ExportSettings :=
  let '(currentTargetWidth, currentTargetHeight) :=
    if String.eqb (resolution exportSettings) "current"
    then (Layout.width visualizerSize, Layout.height visualizerSize)
    else
      match presetSize (preset (resolution exportSettings)) with
      | Some (w, h) => (w, h)
      | None => (targetWidth exportSettings, targetHeight exportSettings)
      end in
  {| resolution := resolution prev; fps := fps prev; exportType := Some type;
     targetWidth := currentTargetWidth; targetHeight := currentTargetHeight |}.

(** A field of the settings with the value given to it. *)
Inductive SettingChange :=
| Resolution (value : string)
| Fps (value : Z)
| ExportTypeField (value : option ExportType)
| TargetWidth (value : Q)
| TargetHeight (value : Q).

Definition handleExportSettingChange (change : SettingChange)
    (visualizerSize : Layout.VisualizerSize) (prev : ExportSettings) : ExportSettings :=
  let newSettings :=
    match change with
    | Resolution value =>
        {| resolution := value; fps := fps prev; exportType := exportType prev;
           targetWidth := targetWidth prev; targetHeight := targetHeight prev |}
    | Fps value =>
        {| resolution := resolution prev; fps := value; exportType := exportType prev;
           targetWidth := targetWidth prev; targetHeight := targetHeight prev |}
    | ExportTypeField value =>
        {| resolution := resolution prev; fps := fps prev; exportType := value;
           targetWidth := targetWidth prev; targetHeight := targetHeight prev |}
    | TargetWidth value =>
        {| resolution := resolution prev; fps := fps prev; exportType := exportType prev;
           targetWidth := value; targetHeight := targetHeight prev |}
    | TargetHeight value =>
        {| resolution := resolution prev; fps := fps prev; exportType := exportType prev;
           targetWidth := targetWidth prev; targetHeight := value |}
    end in
  match change with
  | Resolution value =>
      if String.eqb value "current"
      then with_target (Layout.width visualizerSize) (Layout.height visualizerSize) newSettings
      else
        match presetSize (preset value) with
        | Some (w, h) => with_target w h newSettings
        | None => newSettings
        end
  | _ => newSettings
  end.

(** What the dialog lets the user do, with the size of the
    visualizer at that moment: open it for a type, pick a resolution,
    pick a frame rate. *)
Inductive DialogAction :=
| OpenDialog (type : ExportType)
| PickResolution (key : string)
| PickFps (value : Z).

Definition act (s : ExportSettings) (a : DialogAction * Layout.VisualizerSize)
    : ExportSettings :=
  match a with
  | (OpenDialog type, size) => handleOpenExportSettings type size s s
  | (PickResolution key, size) => handleExportSettingChange (Resolution key) size s
  | (PickFps value, size) => handleExportSettingChange (Fps value) size s
  end.

(** The target size agrees with the resolution selected: the size of
    its preset, whatever it is for a key that names none. *)
Definition targetOfPreset (s : ExportSettings) : Prop :=
  forall w h, presetSize (preset (resolution s)) = Some (w, h) ->
    targetWidth s = w /\ targetHeight s = h.

End Settings.

(** ** The live preview ([Visualizer.tsx]) *)

Module Visualizer.

Import Canvas Types Renderer.
Local Open Scope Q_scope.

Record props := {
  visualizationType : VisualizationType;
  isPlaying : bool;
  width : Q;
  height : Q;
  centerImage : option Image;
  linearGraphStyle : LinearGraphStyle;
  colorTheme : ColorTheme;
  pulseIntensity : Q;
  imageScale : Q;
  visualizerDetailScale : Q;
  imageCornerRadius : Q;
  imageSwingIntensity : Q;
  enablePulse : bool;
  enableSwing : bool;
}.




End Visualizer.

(** ** What the visualizations paint *)

Module Drawn.

Import Canvas Types Renderer Painting.
Local Open Scope Q_scope.

(** One bar of the linear visualization. *)
Definition isLinearBar (canvasH : Q) (p : Painted) : Prop :=
  exists x y w hgt,
    fst p = Rect x y w hgt /\ 1 <= w /\ y + hgt == canvasH
    /\ 0.2 <= globalAlpha (snd p) <= 1.

(** The number of bars of the linear visualization. *)
Definition effectiveNumBars (bufferLen : nat) : nat :=
  Z.to_nat (Z.max 1 (JS.Math_floor (JS.of_nat bufferLen * 0.75))).

(** One bar of the circular visualization: a capsule or a rectangle,
    filled with a color of the palette. *)
Definition isCircularBar (p : Painted) : Prop :=
  (outline (fst p) = Capsule \/ outline (fst p) = Rectangle)
  /\ exists hue s l alpha,
       fillStyle (snd p) = Color (Hsla hue s l alpha)
       /\ 0 <= hue < 360 /\ 0.2 <= alpha <= 1.

(** The bins whose bar the circular visualization draws. *)
Definition loudBins (audioData : list Byte.byte) (maxOuter : Q) : list Byte.byte :=
  filter (fun b => isDrawn b maxOuter = true) audioData.

(** The number of bins the circular visualization goes through. *)
Definition numCircularBars (bufferLen : nat) : nat :=
  Z.to_nat (JS.Math_floor (JS.of_nat bufferLen * 0.7)).

End Drawn.

(** ** More cases *)

Module Cases.

Import Types Orchestrator Scenario.
Local Open Scope Q_scope.

(** The settings of [song] before an audio file is chosen. *)
Definition noAudio (t : ExportType) : Config := {|
  audioFile := None;
  isFFmpegLoaded := isFFmpegLoaded (song t);
  exportSettings := exportSettings (song t);
  visualizationType := visualizationType (song t);
  linearGraphStyle := linearGraphStyle (song t);
  colorTheme := colorTheme (song t);
  loadedCenterImage := loadedCenterImage (song t);
  imageScale := imageScale (song t);
  pulseIntensity := pulseIntensity (song t);
  imageCornerRadius := imageCornerRadius (song t);
  imageSwingIntensity := imageSwingIntensity (song t);
  enablePulse := enablePulse (song t);
  enableSwing := enableSwing (song t);
  visualizerDetailScale := visualizerDetailScale (song t);
|}.

(** The state after the click that starts the export of [song]. *)
Definition loadingAudio (t : ExportType) : State :=
  step host (idle (song t)) (ClickStartExport browser).


(** A mounted container 800 pixels wide. *)
Definition container : Layout.Container :=
  {| Layout.offsetWidth := 800; Layout.parentElement := Some 1200 |}.

Definition window : Layout.Window :=
  {| Layout.innerWidth := 1920; Layout.innerHeight := 1080 |}.

(** A frame of linear bars, 640x360, without image. *)
Definition barsFrame : Renderer.Frame.props := {|
  Renderer.Frame.visualizationType := LINEAR;
  Renderer.Frame.linearGraphStyle := bars;
  Renderer.Frame.colorTheme := sky;
  Renderer.Frame.centerImage := None;
  Renderer.Frame.imageScale := 1;
  Renderer.Frame.pulseIntensity := 1;
  Renderer.Frame.imageCornerRadius := 0;
  Renderer.Frame.imageSwingIntensity := 0;
  Renderer.Frame.enablePulse := false;
  Renderer.Frame.enableSwing := false;
  Renderer.Frame.visualizerDetailScale := 1;
  Renderer.Frame.width := 640;
  Renderer.Frame.height := 360;
  Renderer.Frame.currentTime := 0;
|}.

End Cases.

(** * Properties of the frame renderer *)

Section RendererProperties.
Import Canvas Types Renderer Painting.
Local Open Scope Q_scope.

Lemma gtb_iff a b : JS.gtb a b = true <-> b < a.
Proof.
  unfold JS.gtb. rewrite negb_true_iff, <- not_true_iff_false, Qle_bool_iff.
  split; [apply Qnot_le_lt | apply Qlt_not_le].
Qed.

Lemma ltb_iff a b : JS.ltb a b = true <-> a < b.
Proof. unfold JS.ltb. apply gtb_iff. Qed.

Lemma ltb_false_iff a b : JS.ltb a b = false <-> b <= a.
Proof.
  unfold JS.ltb. rewrite negb_false_iff. apply Qle_bool_iff.
Qed.

Lemma gtb_false_iff a b : JS.gtb a b = false <-> a <= b.
Proof. unfold JS.gtb. rewrite negb_false_iff. apply Qle_bool_iff. Qed.

Lemma Math_min_l a b : JS.Math_min a b <= a.
Proof. apply Q.le_min_l. Qed.
Lemma Math_min_r a b : JS.Math_min a b <= b.
Proof. apply Q.le_min_r. Qed.

Lemma cornerRadius_nonneg dW dH r :
  0 < r -> 0 < dW -> 0 < dH ->
  0 <= JS.Math_min dW dH / 2 * (JS.Math_min r 50 / 50).
Proof.
  intros Hr HW HH. unfold JS.Math_min.
  assert (0 < Qmin dW dH) by (apply Q.min_glb_lt; assumption).
  assert (0 < Qmin r 50) by (apply Q.min_glb_lt; [assumption | reflexivity]).
  apply Qmult_le_0_compat.
  - apply Qle_shift_div_l; [reflexivity | lra].
  - apply Qle_shift_div_l; [reflexivity | lra].
Qed.

Lemma arcTo_returns x1 y1 x2 y2 r h c :
  0 <= r -> arcTo x1 y1 x2 y2 r h c = Returned tt (add_segment (ArcTo x1 y1 x2 y2 r) c).
Proof.
  intros Hr. unfold arcTo. apply ltb_false_iff in Hr. rewrite Hr. reflexivity.
Qed.

Ltac run_canvas :=
  cbv beta iota zeta delta
    [mbind mret M_bind M_ret Canvas.bind Canvas.ret Canvas.throw Canvas.host
     update with_state paint add_segment save restore set_fillStyle set_strokeStyle
     set_lineWidth set_globalAlpha apply_xform translate rotate beginPath moveTo
     lineTo closePath clip_path fillRect fill stroke drawImage
     state path stack surface fillStyle strokeStyle lineWidth globalAlpha
     transform clip].

Lemma drawImageCore_spec img audioData canvasW canvasH p react h c :
  exists dx dy pth st,
    drawImageCore img audioData canvasW canvasH p react h c
    = Returned tt
        {| state := state c; path := pth; stack := stack c;
           surface := surface c ++
             [(Blit img dx dy (fst (displayedSize img audioData canvasW canvasH p react))
                 (snd (displayedSize img audioData canvasW canvasH p react)), st)] |}
    /\ globalAlpha st = 0.9.
Proof.
  unfold drawImageCore.
  destruct (displayedSize img audioData canvasW canvasH p react) as [dW dH] eqn:Hsz.
  cbn [fst snd].
  destruct c as [st pth stk srf]. destruct st as [fs ss lw ga tr cl].
  destruct (react && Overlay.enableSwing p && JS.gtb (Overlay.imageSwingIntensity p) 0) eqn:Hsw;
  destruct (JS.gtb (Overlay.imageCornerRadius p) 0 && JS.gtb dW 0 && JS.gtb dH 0) eqn:Hcr.
  all: try (apply andb_true_iff in Hcr as [Hcr HH]; apply andb_true_iff in Hcr as [Hr HW];
            apply gtb_iff in Hr, HW, HH;
            pose proof (cornerRadius_nonneg dW dH _ Hr HW HH) as Hnn;
            apply ltb_false_iff in Hnn).
  all: unfold arcTo; try rewrite Hnn.
  all: run_canvas.
  all: do 4 eexists; split; reflexivity.
Qed.

(** C10.  The overlay routine leaves the ambient state of the
    context as it found it.  For every image, audio data, canvas
    size, properties and context, [drawImageCore] returns (it never
    throws: the radius it gives to [arcTo] is not negative), and the
    context it returns has the transform, the clip region and the
    alpha of the context it was given; so has the whole drawing
    state, and the stack of saved states is as deep as before. *)
Theorem drawImageCore_restores_context img audioData canvasW canvasH p react h c :
  exists c',
    drawImageCore img audioData canvasW canvasH p react h c = Returned tt c'
    /\ transform (state c') = transform (state c)
    /\ clip (state c') = clip (state c)
    /\ globalAlpha (state c') = globalAlpha (state c)
    /\ state c' = state c
    /\ stack c' = stack c.
Proof.
  destruct (drawImageCore_spec img audioData canvasW canvasH p react h c)
    as (dx & dy & pth & st & -> & _).
  eexists; split; [reflexivity |]. cbn. repeat split.
Qed.

Lemma of_byte_range b : 0 <= JS.of_byte b <= 255.
Proof.
  unfold JS.of_byte. pose proof (Byte.to_N_bounded b) as Hb.
  split.
  - change 0 with (inject_Z 0). rewrite <- Zle_Qle. lia.
  - change 255 with (inject_Z 255). rewrite <- Zle_Qle. lia.
Qed.










Lemma Math_max_ge_l a b : a <= JS.Math_max a b.
Proof. apply Q.le_max_l. Qed.

Lemma barVisualThickness_ge_1 h maxOuter n : 1 <= barVisualThicknessOf h maxOuter n.
Proof. unfold barVisualThicknessOf. apply Math_max_ge_l. Qed.

Lemma arc_returns x y r a0 a1 ccw h c :
  0 <= r -> arc x y r a0 a1 ccw h c = Returned tt (add_segment (Arc x y r a0 a1 ccw) c).
Proof.
  intros Hr. unfold arc. apply ltb_false_iff in Hr. rewrite Hr. reflexivity.
Qed.

Lemma drawBarShape_spec barLength thickness h c :
  1 <= barLength -> 1 <= thickness ->
  exists shape pth,
    drawBarShape barLength thickness h c
    = Returned tt {| state := state c; path := pth; stack := stack c;
                     surface := surface c ++ [(shape, state c)] |}
    /\ outline shape = if JS.gtb barLength (thickness / 2) then Capsule else Rectangle.
Proof.
  intros HL HT. unfold drawBarShape.
  assert (Hcap : 0 < thickness / 2) by (apply Qlt_shift_div_l; [reflexivity | lra]).
  pose proof Hcap as Hcap'. apply gtb_iff in Hcap'. rewrite Hcap', andb_true_r.
  destruct c as [st pth stk srf].
  destruct (JS.gtb barLength (thickness / 2 * 0.5)) eqn:Hhalf.
  - destruct (JS.gtb barLength (thickness / 2)) eqn:Hfull.
    + unfold arc. assert (Hr : JS.ltb (thickness / 2) 0 = false) by (apply ltb_false_iff; lra).
      rewrite Hr. run_canvas. do 2 eexists. split; [reflexivity |].
      cbn [outline app]. rewrite Qeq_bool_refl. reflexivity.
    + run_canvas. do 2 eexists. split; [reflexivity |].
      cbn [outline app]. rewrite !Qeq_bool_refl. reflexivity.
  - apply gtb_false_iff in Hhalf.
    assert (Hpos : JS.gtb barLength 0 = true) by (apply gtb_iff; lra).
    rewrite Hpos.
    assert (Hfull : JS.gtb barLength (thickness / 2) = false) by (apply gtb_false_iff; lra).
    rewrite Hfull. run_canvas. do 2 eexists. split; reflexivity.
Qed.



Section Clock.
Variables (sin : Q -> Q) (PI now1 now2 : Q).















End Clock.


End RendererProperties.

(** * Properties of the export orchestrator *)

Section OrchestratorProperties.
Import Types Orchestrator Summary Scenario.
Local Open Scope Q_scope.


Lemma geb_false_iff a b : JS.geb a b = false <-> a < b.
Proof.
  unfold JS.geb. rewrite <- not_true_iff_false, Qle_bool_iff.
  split; [apply Qnot_le_lt | apply Qlt_not_le].
Qed.

Lemma Math_round_mono x y : x <= y -> (JS.Math_round x <= JS.Math_round y)%Z.
Proof. intros H. unfold JS.Math_round. apply Qfloor_resp_le. lra. Qed.

Lemma Math_round_nonneg x : 0 <= x -> (0 <= JS.Math_round x)%Z.
Proof.
  intros H. change 0%Z with (JS.Math_round 0). apply Math_round_mono. assumption.
Qed.

Lemma Math_round_le x (n : Z) : x < inject_Z n + (1 # 2) -> (JS.Math_round x <= n)%Z.
Proof.
  intros H. unfold JS.Math_round.
  pose proof (Qfloor_le (x + (1 # 2))) as Hfl.
  assert (Hlt : inject_Z (Qfloor (x + (1 # 2))) < inject_Z (n + 1)).
  { rewrite inject_Z_plus. change (inject_Z 1) with 1. lra. }
  rewrite <- Zlt_Qlt in Hlt. lia.
Qed.

Lemma percentage_range t d :
  0 <= t -> 0 < d ->
  (0 <= JS.Math_round (t / d * 100))%Z
  /\ (t < d -> (JS.Math_round (t / d * 100) <= 100)%Z).
Proof.
  intros Ht Hd.
  assert (Hq : 0 <= t / d) by (apply Qle_shift_div_l; lra).
  split.
  - apply Math_round_nonneg. nra.
  - intros Hlt. apply Math_round_le.
    assert (t / d < 1) by (apply Qlt_shift_div_r; lra).
    change (inject_Z 100) with 100. lra.
Qed.

Lemma percentage_mono t1 t2 d :
  0 < d -> t1 <= t2 ->
  (JS.Math_round (t1 / d * 100) <= JS.Math_round (t2 / d * 100))%Z.
Proof.
  intros Hd Ht. apply Math_round_mono.
  assert (t1 / d <= t2 / d).
  { unfold Qdiv. apply Qmult_le_compat_r; [assumption |].
    apply Qinv_le_0_compat. lra. }
  lra.
Qed.

Lemma progressAt_range k t d :
  0 <= t -> 0 < d ->
  (0 <= progressAt k t d)%Z /\ (t < d -> (progressAt k t d <= 100)%Z).
Proof.
  intros Ht Hd. destruct (percentage_range t d Ht Hd) as [H0 H100].
  unfold progressAt. destruct k; [split; assumption |].
  assert (0 <= JS.Math_round (inject_Z (JS.Math_round (t / d * 100)) * 0.5))%Z.
  { apply Math_round_nonneg.
    assert (0 <= inject_Z (JS.Math_round (t / d * 100))).
    { change 0 with (inject_Z 0). rewrite <- Zle_Qle. assumption. }
    lra. }
  split; [| intros _]; lia.
Qed.

Lemma progressAt_mp4_le k t d : k = mp4 -> (progressAt k t d <= 50)%Z.
Proof. intros ->. unfold progressAt. lia. Qed.

Lemma progressAt_mono k t1 t2 d :
  0 < d -> t1 <= t2 -> (progressAt k t1 d <= progressAt k t2 d)%Z.
Proof.
  intros Hd Ht. pose proof (percentage_mono t1 t2 d Hd Ht) as Hpp.
  unfold progressAt. destruct k; [assumption |].
  apply Z.min_le_compat_l. apply Math_round_mono.
  rewrite Zle_Qle in Hpp. lra.
Qed.

Lemma Sorted_snoc (l : list Z) (v : Z) :
  Sorted Z.le l -> Forall (fun u => u <= v)%Z l -> Sorted Z.le (l ++ [v]).
Proof.
  induction l as [|a l IH]; intros Hs Hall; cbn.
  - repeat constructor.
  - apply Sorted_inv in Hs as [Hs Hhd]. apply Forall_cons in Hall as [Ha Hall].
    constructor; [auto |].
    destruct l as [|b l]; cbn; constructor; [assumption |].
    inversion Hhd; assumption.
Qed.

Lemma Forall_le_trans (l : list Z) (a b : Z) :
  (a <= b)%Z -> Forall (fun v => v <= a)%Z l -> Forall (fun v => v <= b)%Z l.
Proof.
  intros Hab Hall. eapply Forall_impl; [exact Hall |]. cbn. intros; lia.
Qed.

(** C8, as the code has it.  A click on the start button while an
    export is active is rejected: the references, the recorder, the
    chunks, the audio contexts, the object URLs, the pending frames,
    the progress and the frame counters of the active export are
    untouched.  The rejection does write its message to the error
    and to the status line. *)
Theorem rejected_start_keeps_session h env s :
  isExporting (ui s) = true ->
  let s' := step h s (ClickStartExport env) in
  refs s' = refs s /\ world s' = world s /\ config s' = config s
  /\ cleanupCalls s' = cleanupCalls s /\ progressLog s' = progressLog s
  /\ isExporting (ui s') = true
  /\ exportProgress (ui s') = exportProgress (ui s)
  /\ currentExportFrame (ui s') = currentExportFrame (ui s)
  /\ totalExportFrames (ui s') = totalExportFrames (ui s)
  /\ (is_Some (exportType (exportSettings (config s))) ->
      error (ui s') = Some (text "Export already in progress.")
      /\ exportStatusMessage (ui s') = text "Export already in progress.").
Proof.
  intros Hactive. cbn [step]. unfold startActualExport. cbn [snapshot seen_config].
  destruct (exportType (exportSettings (config s))) as [t|] eqn:Ht.
  - unfold handleExport, commonExportSetup, snapshot. cbn [seen_ui seen_config].
    rewrite Hactive, orb_true_r. cbn. repeat split; first [reflexivity | assumption].
  - cbn. do 9 (split; [first [reflexivity | assumption] |]).
    intros [? [=]].
Qed.

Lemma rejected_start_keeps_session_witness :
  isExporting (ui (capturing webm)) = true
  /\ refs (step host (capturing webm) (ClickStartExport browser)) = refs (capturing webm)
  /\ world (step host (capturing webm) (ClickStartExport browser)) = world (capturing webm).
Proof.
  split; [reflexivity |].
  pose proof (rejected_start_keeps_session host browser (capturing webm) eq_refl) as H.
  cbv zeta in H. destruct H as (Hr & Hw & _). split; assumption.
Defined.

(** The rejection alters the state that the active export shows:
    the error, empty during the capture, and the status message are
    overwritten. *)
Lemma rejected_start_overwrites_error_and_status :
  isExporting (ui (capturing webm)) = true
  /\ error (ui (capturing webm)) = None
  /\ error (ui (step host (capturing webm) (ClickStartExport browser)))
     = Some (text "Export already in progress.")
  /\ exportStatusMessage (ui (step host (capturing webm) (ClickStartExport browser)))
     <> exportStatusMessage (ui (capturing webm))
  /\ step host (capturing webm) (ClickStartExport browser) <> capturing webm.
Proof.
  assert (Hstatus :
    exportStatusMessage (ui (step host (capturing webm) (ClickStartExport browser)))
    <> exportStatusMessage (ui (capturing webm))) by (vm_compute; discriminate).
  repeat split; try (vm_compute; reflexivity); [exact Hstatus |].
  intros Heq. apply Hstatus. rewrite Heq. reflexivity.
Qed.

(** C3.  The transcoder exits with code 1 and leaves an empty
    [output.mp4]: the MP4 export sets the progress to 100, records
    no error and offers the empty file for download. *)
Theorem mp4_success_declared_on_failed_transcode :
  let s := run host (idle (song mp4)) (fullCapture transcoderLeavesEmptyFile) in
  exec transcoderLeavesEmptyFile = ExecExits 1 (Some [])
  /\ exportProgress (ui s) = 100%Z
  /\ error (ui s) = None
  /\ downloads (world s)
     = [{| download := [Str "song"; Str "_"; Num 640; Str "x"; Num 360; Str "_";
                        Int 30; Str "fps."; Str "mp4"];
           href := [] |}].
Proof. vm_compute. repeat split; reflexivity. Qed.

(** A frame fails to render after a chunk was recorded: the WebM
    export records the error and still offers the chunks recorded so
    far for download. *)
Lemma partial_recording_offered_after_render_error :
  let s := run host (idle (song webm)) renderFailure in
  error (ui s) = Some [Str "Error rendering export frame: "; Str "InvalidStateError"]
  /\ downloads (world s)
     = [{| download := [Str "song"; Str "_"; Num 640; Str "x"; Num 360; Str "_";
                        Int 30; Str "fps."; Str "webm"];
           href := chunk1 ++ chunk2 |}].
Proof. vm_compute. split; reflexivity. Qed.


(** From here on the handlers are run by hand: the functions below
    them are kept folded. *)
#[local] Opaque tryRender progressAt JS.gtb JS.geb JS.ltb Qle_bool JS.Math_floor
  JS.Math_round split_head String.index String.substring mimeTypeCandidates
  isTypeSupported.

Ltac open_state s :=
  let u := fresh "u" in let c := fresh "c" in let r := fresh "r" in
  let w := fresh "w" in let n := fresh "n" in let l := fresh "l" in
  destruct s as [u c r w n l]; destruct u, r, w;
  cbn [ui config refs world cleanupCalls progressLog
       isExporting exportProgress exportStatusMessage error currentExportFrame
       totalExportFrames
       exportAudioRef exportAnalyserNodeRef exportRenderCanvasRef
       exportAnimationRequestRef mediaRecorderRef recordedChunksRef
       recorder audioContexts objectURLs pendingFrames playPending ffmpeg_loaded
       ffmpegFS downloads nextId session renderCtx] in *.

Lemma cleanup_cleaned c a st s :
  cleanupExportResources c a st s = cleaned c a st s.
Proof.
  open_state s.
  unfold cleanupExportResources, cleaned, closeAudioContext, closedContext, detach,
    cleanupStatus.
  destruct exportAudioRef0 as [el|], exportAnimationRequestRef0 as [i|],
    mediaRecorderRef0, recorder0 as [[[] ? ? ? ? ? ? ? ?]|], a as [a|]; cbn.
  all: try (destruct (audioContexts0 !! a) as [ctx|]; [destruct (decide (ctx = closed))|]); cbn.
  all: reflexivity.
Qed.

#[local] Opaque cleanupExportResources.

(** Running a handler on an opened state, leaving the operations on
    maps and sets folded. *)
Ltac run_state s :=
  eval lazy beta iota zeta delta
    -[cleanupExportResources cleaned progressAt tryRender
      insert lookup delete union difference singleton empty filter
      Qplus Qmult Qdiv Qminus Qopp Qinv inject_Z Z.add Z.rem Z.min Z.leb app concat length] in s.

Ltac run_inv :=
  match goal with
  | |- ProgressInv ?s => let s' := run_state s in change (ProgressInv s')
  end.

Ltac projections :=
  cbn [ui config refs world cleanupCalls progressLog
       isExporting exportProgress exportStatusMessage error currentExportFrame
       totalExportFrames
       exportAudioRef exportAnalyserNodeRef exportRenderCanvasRef
       exportAnimationRequestRef mediaRecorderRef recordedChunksRef
       recorder audioContexts objectURLs pendingFrames playPending ffmpeg_loaded
       ffmpegFS downloads nextId session renderCtx
       rstate stopQueued startQueued onstart onstop ondataavailable onerror
       src audioTime loading onloadedmetadata audio_onerror
       kind audioFullDuration seen exportAudioContext] in *.

Lemma inv_same_view s s' :
  progressLog s' = progressLog s ->
  exportAudioRef (refs s') = exportAudioRef (refs s) ->
  recorder (world s') = recorder (world s) ->
  session (world s') = session (world s) ->
  ProgressInv s -> ProgressInv s'.
Proof.
  intros Hl Ha Hr Hx [H1 H2 H3 H4 H5 H6 H7].
  constructor; rewrite ?Hl, ?Ha, ?Hr, ?Hx; assumption.
Qed.

Lemma detach_quiet m :
  (rstate (detach m) = recording -> rstate m = recording)
  /\ (stopQueued (detach m) = true -> rstate m = recording \/ stopQueued m = true)
  /\ rstate (detach m) = inactive.
Proof.
  unfold detach. destruct m as [[] ? ? ? ? ? ? ? ?]; cbn; auto.
Qed.

Lemma inv_cleaned c a st s : ProgressInv s -> ProgressInv (cleaned c a st s).
Proof.
  intros [H1 H2 H3 H4 H5 H6 H7].
  constructor; cbn; try assumption; try discriminate.
  - intros m x Hm Hx Hk Hq.
    destruct (mediaRecorderRef (refs s)); [| eauto].
    destruct (recorder (world s)) as [m0|] eqn:Hm0; [| discriminate].
    cbn in Hm. injection Hm as <-.
    destruct (detach_quiet m0) as (Hrec & Hstop & Hin).
    apply (H6 m0 x eq_refl Hx Hk).
    destruct Hq as [Hq | Hq]; [left; auto | auto].
  - intros m Hm Hq.
    destruct (mediaRecorderRef (refs s)); [| eauto].
    destruct (recorder (world s)) as [m0|]; [| discriminate].
    cbn in Hm. injection Hm as <-. apply detach_quiet.
Qed.

Lemma Forall_single_0 (P : Z -> Prop) : P 0%Z -> Forall P [0%Z].
Proof. intros; repeat constructor; assumption. Qed.

(** A state whose log was restarted at [0]. *)
Lemma inv_restart s :
  progressLog s = [0%Z] ->
  (forall el, exportAudioRef (refs s) = Some el -> 0 <= audioTime el) ->
  (forall el m, exportAudioRef (refs s) = Some el -> recorder (world s) = Some m ->
     loading el = true -> rstate m = inactive /\ stopQueued m = false) ->
  (forall m, recorder (world s) = Some m -> stopQueued m = true -> rstate m = inactive) ->
  ProgressInv s.
Proof.
  intros Hl Ht Hq Hs. constructor; rewrite ?Hl; try assumption.
  - apply Forall_single_0. lia.
  - repeat constructor.
  - intros el m Hel Hm Hload. destruct (Hq el m Hel Hm Hload) as [? ?].
    repeat split; try assumption. apply Forall_single_0. lia.
  - intros el m x Hel _ _ _ Hd. apply Forall_single_0.
    apply progressAt_range; auto.
  - intros. apply Forall_single_0. lia.
Qed.

Lemma inv_click h env s : ProgressInv s -> ProgressInv (step h s (ClickStartExport env)).
Proof.
  intros Hinv. cbn [step]. unfold startActualExport.
  destruct (exportType (exportSettings (seen_config (snapshot s)))) as [t|]; [| assumption].
  unfold handleExport, commonExportSetup.
  destruct (bool_decide (audioFile (seen_config (snapshot s)) = None)
            || isExporting (seen_ui (snapshot s))).
  { eapply inv_same_view; [.. | exact Hinv]; reflexivity. }
  destruct (bool_decide (t = mp4) && negb (isFFmpegLoaded (seen_config (snapshot s)))).
  { eapply inv_same_view; [.. | exact Hinv]; reflexivity. }
  destruct Hinv as [H1 H2 H3 H4 H5 H6 H7].
  open_state s.
  destruct (has2dContext env), (contextSuspended env), (resumeFails env) as [e|],
    (find (isTypeSupported env) mimeTypeCandidates) as [mime|].
  all: run_inv.
  all: rewrite ?cleanup_cleaned.
  all: try apply inv_cleaned.
  all: apply inv_restart; projections; auto.
  all: try (intros; simplify_eq/=; auto; lra).
  all: try (intros el m Hel Hm Hl; destruct (H4 el m Hel Hm Hl) as (? & ? & _); auto).
Qed.

Lemma inv_cleaned_weak c a st s :
  Forall (fun v => 0 <= v <= 100)%Z (progressLog s) ->
  Sorted Z.le (progressLog s) ->
  (forall m x, recorder (world s) = Some m -> session (world s) = Some x ->
     kind x = mp4 -> rstate m = recording \/ stopQueued m = true ->
     Forall (fun v => v <= 50)%Z (progressLog s)) ->
  (forall m, recorder (world s) = Some m -> stopQueued m = true -> rstate m = inactive) ->
  ProgressInv (cleaned c a st s).
Proof.
  intros H1 H2 H6 H7.
  constructor; cbn; try assumption; try discriminate.
  - intros m x Hm Hx Hk Hq.
    destruct (mediaRecorderRef (refs s)); [| eauto].
    destruct (recorder (world s)) as [m0|] eqn:Hm0; [| discriminate].
    cbn in Hm. injection Hm as <-.
    destruct (detach_quiet m0) as (Hrec & Hstop & Hin).
    apply (H6 m0 x eq_refl Hx Hk).
    destruct Hq as [Hq | Hq]; [left; auto | auto].
  - intros m Hm Hq.
    destruct (mediaRecorderRef (refs s)); [| eauto].
    destruct (recorder (world s)) as [m0|]; [| discriminate].
    cbn in Hm. injection Hm as <-. apply detach_quiet.
Qed.

(** The facts of the invariant about the audio element, recorder
    and session at hand. *)
Ltac at_hand :=
  repeat match goal with
  | H : forall el, Some _ = Some el -> _ |- _ =>
      first [ specialize (H _ eq_refl) | clear H ]
  | H : forall el m, Some _ = Some el -> Some _ = Some m -> _ |- _ =>
      first [ specialize (H _ _ eq_refl eq_refl) | clear H ]
  | H : forall el m x, Some _ = Some el -> Some _ = Some m -> Some _ = Some x -> _ |- _ =>
      first [ specialize (H _ _ _ eq_refl eq_refl eq_refl) | clear H ]
  | H : forall el, None = Some el -> _ |- _ => clear H
  | H : forall el m, None = Some el -> _ |- _ => clear H
  | H : forall el m, _ -> None = Some m -> _ |- _ => clear H
  | H : forall el m x, None = Some el -> _ |- _ => clear H
  | H : forall el m x, _ -> None = Some m -> _ |- _ => clear H
  | H : forall el m x, _ -> _ -> None = Some x -> _ |- _ => clear H
  end;
  projections.

Ltac inv_cases :=
  constructor; projections; intros; simplify_eq/=; at_hand;
  try solve [ intuition (eauto; congruence) ].

Ltac close_inv := try run_inv; at_hand; solve [ inv_cases ].

Ltac cleaned_inv :=
  rewrite cleanup_cleaned; at_hand; apply inv_cleaned_weak; projections; auto;
  intros; simplify_eq/=; at_hand; try solve [ intuition (eauto; congruence) ].

(** The tests of a handler on values that stay unknown, each replaced
    by the boolean it yields. *)
Ltac fold_tests :=
  lazy zeta;
  repeat match goal with
  | |- context [bool_decide ?P] =>
      let t := fresh "test" in generalize (bool_decide P); intro t
  end.

Lemma inv_metadata h d st s :
  ProgressInv s -> ProgressInv (step h s (AudioLoadedMetadata d st)).
Proof.
  intros [H1 H2 H3 H4 H5 H6 H7]. open_state s. cbn [step]. projections.
  destruct exportAudioRef0 as [[src0 t0 ld olm oer]|].
  2: { close_inv. }
  destruct session0 as [[sn k ew eh ef ea dd]|]; [| close_inv].
  destruct ld; [| close_inv]. destruct olm; [| close_inv].
  cbn [loading onloadedmetadata andb].
  unfold audio_onloadedmetadata.
  destruct recorder0 as [[rs mt vb os op od oe sq pq]|].
  2: { run_inv. cleaned_inv. }
  destruct (H4 _ _ eq_refl eq_refl eq_refl) as (Hin & Hnq & Hle0).
  specialize (H3 _ eq_refl). cbn in H3, Hin, Hnq. subst.
  destruct d as [d|].
  2: { run_inv. cleaned_inv; intuition congruence. }
  destruct (Qle_bool d 0) eqn:Hd.
  { run_inv. rewrite Hd. cleaned_inv; intuition congruence. }
  assert (Hdpos : 0 < d).
  { apply Qnot_le_lt. intros Hle. apply Qle_bool_iff in Hle. congruence. }
  destruct st as [e|].
  { run_inv. rewrite Hd. cleaned_inv; intuition congruence. }
  run_inv. rewrite Hd.
  constructor; projections; auto; try (intros; simplify_eq/=; fail).
  - intros el [= <-]. assumption.
  - intros el m x0 [= <-] [= <-] [= <-] _ _. projections.
    eapply Forall_le_trans; [| exact Hle0]. apply progressAt_range; assumption.
  - intros m x0 [= <-] [= <-] _ _. eapply Forall_le_trans; [| exact Hle0]. lia.
Qed.

Lemma cancel_after_cleanup c a st s :
  cancelPendingFrame (cleanupExportResources c a st s) = cleanupExportResources c a st s.
Proof. rewrite cleanup_cleaned. reflexivity. Qed.

Lemma inv_audio_error h s : ProgressInv s -> ProgressInv (step h s AudioError).
Proof.
  intros [H1 H2 H3 H4 H5 H6 H7]. open_state s. cbn [step]. projections.
  destruct exportAudioRef0 as [[src0 t0 ld olm oer]|]; [| close_inv].
  destruct session0 as [[sn k ew eh ef ea dd]|]; [| close_inv].
  destruct ld; [| close_inv]. destruct oer; [| close_inv].
  cbn [loading audio_onerror andb]. unfold audio_onerror_handler.
  rewrite cancel_after_cleanup. run_inv. cleaned_inv.
Qed.

Lemma Forall_snoc_le (l : list Z) (v b : Z) :
  Forall (fun u => u <= b)%Z l -> (v <= b)%Z -> Forall (fun u => u <= b)%Z (l ++ [v]).
Proof. intros Hl Hv. apply Forall_app. split; [assumption | repeat constructor; assumption]. Qed.

Lemma Forall_snoc_range (l : list Z) (v : Z) :
  Forall (fun u => 0 <= u <= 100)%Z l -> (0 <= v <= 100)%Z ->
  Forall (fun u => 0 <= u <= 100)%Z (l ++ [v]).
Proof. intros Hl Hv. apply Forall_app. split; [assumption | repeat constructor; lia]. Qed.

Lemma Forall_range_le100 (l : list Z) :
  Forall (fun u => 0 <= u <= 100)%Z l -> Forall (fun u => u <= 100)%Z l.
Proof. intros H. eapply Forall_impl; [exact H |]. cbn. intros; lia. Qed.

Lemma inv_recorder_start h s : ProgressInv s -> ProgressInv (step h s RecorderStart).
Proof.
  intros [H1 H2 H3 H4 H5 H6 H7]. open_state s. cbn [step]. projections.
  destruct recorder0 as [[rs mt vb os op od oe sq pq]|]; [| close_inv].
  destruct session0 as [[sn k ew eh ef ea dd]|].
  2: { close_inv. }
  destruct sq; [| close_inv]. cbn [startQueued onstart].
  destruct os; [| close_inv].
  unfold recorder_onstart.
  destruct exportAudioRef0 as [el|]; [run_inv; close_inv |].
  destruct rs; run_inv.
  - cleaned_inv.
  - close_inv.
Qed.

Lemma inv_play_resolved h s : ProgressInv s -> ProgressInv (step h s PlayResolved).
Proof.
  intros [H1 H2 H3 H4 H5 H6 H7]. open_state s. cbn [step]. projections.
  destruct playPending0; run_inv; close_inv.
Qed.

Lemma inv_play_rejected h e s : ProgressInv s -> ProgressInv (step h s (PlayRejected e)).
Proof.
  intros [H1 H2 H3 H4 H5 H6 H7]. open_state s. cbn [step]. projections.
  destruct session0 as [[sn k ew eh ef ea dd]|]; [| close_inv].
  destruct playPending0; [| close_inv].
  unfold play_catch.
  destruct recorder0 as [[[] mt vb os op od oe sq pq]|]; run_inv.
  - cleaned_inv.
  - close_inv.
  - cleaned_inv.
Qed.

Lemma inv_recorder_data h data s : ProgressInv s -> ProgressInv (step h s (RecorderData data)).
Proof.
  intros [H1 H2 H3 H4 H5 H6 H7]. open_state s. cbn [step]. projections.
  destruct recorder0 as [m|]; [| close_inv].
  destruct ((bool_decide (rstate m = recording) || stopQueued m) && ondataavailable m);
    [| close_inv].
  unfold recorder_ondataavailable. destruct (bool_decide (0 < length data)%nat);
    [run_inv |]; close_inv.
Qed.

Lemma inv_recorder_error h name msg s :
  ProgressInv s -> ProgressInv (step h s (RecorderError name msg)).
Proof.
  intros [H1 H2 H3 H4 H5 H6 H7]. open_state s. cbn [step]. projections.
  destruct recorder0 as [[[] mt vb os op od oe sq pq]|]; try close_inv.
  cbn [rstate onerror]. unfold recorder_onerror.
  destruct oe, exportAnimationRequestRef0 as [i|]; close_inv.
Qed.

Lemma inv_ffmpeg_log h msg s : ProgressInv s -> ProgressInv (step h s (FFmpegLog msg)).
Proof.
  intros [H1 H2 H3 H4 H5 H6 H7]. open_state s. cbn [step]. unfold ffmpeg_onlog.
  destruct (bool_decide (is_Some (String.index 0 "Error" msg))
            || bool_decide (is_Some (String.index 0 "failed" msg)));
    run_inv; close_inv.
Qed.

Lemma inv_ffmpeg_progress h p t s :
  ProgressInv s -> ProgressInv (step h s (FFmpegProgress p t)).
Proof. intros Hinv. exact Hinv. Qed.

Lemma inv_frame h t a b f s :
  ProgressInv s -> ProgressInv (step h s (AnimationFrame t a b f)).
Proof.
  intros [H1 H2 H3 H4 H5 H6 H7]. open_state s. cbn [step]. projections.
  destruct pendingFrames0 as [|i rest]; [close_inv |].
  destruct session0 as [[sn k ew eh ef ea dd]|]; [| close_inv].
  unfold renderFn. fold_tests.
  destruct exportAudioRef0 as [[src0 t0 ld olm oer]|].
  2: { destruct exportAnimationRequestRef0; close_inv. }
  cbn [audioTime]. destruct (Qle_bool t0 t) eqn:Htime; [| close_inv].
  apply Qle_bool_iff in Htime.
  assert (Hmono : forall k d, 0 < d -> (progressAt k t0 d <= progressAt k t d)%Z)
    by (intros; apply progressAt_mono; assumption).
  pose (later := fun (l : list Z) k d (H : Forall (fun v => v <= progressAt k t0 d)%Z l)
                     (Hd : 0 < d) => Forall_le_trans l _ _ (Hmono k d Hd) H).
  destruct exportRenderCanvasRef0 as [cv|].
  2: { destruct exportAnimationRequestRef0; run_inv; at_hand; inv_cases;
         first [lra | apply later; auto]. }
  destruct recorder0 as [[rs mt vb os op od oe sq pq]|].
  2: { destruct exportAnimationRequestRef0; run_inv; at_hand; inv_cases;
         first [lra | apply later; auto]. }
  destruct exportAnalyserNodeRef0.
  2: { destruct exportAnimationRequestRef0; run_inv; at_hand; inv_cases;
         first [lra | apply later; auto]. }
  destruct rs.
  { destruct exportAnimationRequestRef0; run_inv; repeat case_match;
      at_hand; inv_cases; first [lra | apply later; auto]. }
  destruct (JS.gtb dd 0) eqn:Hdd; [destruct (JS.geb t dd) eqn:Hend |].
  - (* the audio has ended *)
    destruct exportAnimationRequestRef0; run_inv; rewrite ?Hdd, ?Hend; lazy iota beta;
      at_hand; inv_cases; lra.
  - (* a frame is drawn and the progress written *)
    pose proof (proj1 (gtb_iff _ _) Hdd) as Hdpos.
    pose proof (proj1 (geb_false_iff _ _) Hend) as Hbefore. at_hand.
    assert (0 <= t) by lra.
    destruct (progressAt_range k t dd ltac:(assumption) Hdpos) as [Hp0 Hp100].
    specialize (Hp100 Hbefore).
    run_inv. rewrite ?Hdd, ?Hend; lazy iota beta.
    match goal with
    | |- context [tryRender ?a1 ?a2 ?a3 ?a4 ?a5 ?a6 ?a7] =>
        destruct (tryRender a1 a2 a3 a4 a5 a6 a7) as [[e|] ctx]
    end.
    + destruct exportAnimationRequestRef0; run_inv; at_hand; inv_cases; lra.
    + specialize (H5 eq_refl Hdpos). apply later in H5; [| assumption].
      run_inv. rewrite ?Hdd. repeat case_match; at_hand; inv_cases.
      all: first
        [ apply Forall_snoc_range; [assumption | lia]
        | apply Sorted_snoc; assumption
        | apply Forall_snoc_le; [assumption | lia]
        | apply Forall_snoc_le; [auto | apply progressAt_mp4_le; reflexivity] ].
  - (* no duration: nothing is written *)
    run_inv. rewrite ?Hdd; lazy iota beta.
    match goal with
    | |- context [tryRender ?a1 ?a2 ?a3 ?a4 ?a5 ?a6 ?a7] =>
        destruct (tryRender a1 a2 a3 a4 a5 a6 a7) as [[e|] ctx]
    end.
    + destruct exportAnimationRequestRef0; run_inv; at_hand; inv_cases;
        first [lra | apply later; auto].
    + run_inv. rewrite ?Hdd. repeat case_match; at_hand; inv_cases;
        first [lra | apply later; auto].
Qed.

Ltac open_holding H :=
  destruct H as [Hexp Hcalls Haudio Hurls Hanalyser [cv Hcanvas] Hrefm Hrecm [Hstop Hdata]
                   Hsession Hfile Hduration Hcontext].

Ltac same := constructor; cbn; first [reflexivity | set_solver].

Lemma holding_same s s' el m x : holding s el m x -> same_holdings s s' -> holding s' el m x.
Proof.
  intros H [E1 E2 E3 E4 E5 E6 E7 E8 E9 E10]. open_holding H.
  constructor; rewrite ?E1, ?E2, ?E3, ?E4, ?E5, ?E6, ?E7, ?E9, ?E10; eauto.
  etrans; eassumption.
Qed.






Lemma same_holdings_refl s : same_holdings s s.
Proof. constructor; reflexivity. Qed.

Lemma same_holdings_trans s1 s2 s3 :
  same_holdings s1 s2 -> same_holdings s2 s3 -> same_holdings s1 s3.
Proof.
  intros [A1 A2 A3 A4 A5 A6 A7 A8 A9 A10] [B1 B2 B3 B4 B5 B6 B7 B8 B9 B10].
  constructor; try (etrans; eassumption).
Qed.

Lemma offerDownload_same name b s : same_holdings s (offerDownload name b s).
Proof. same. Qed.

(** What the [try] block of the MP4 [onstop] handler leaves. *)
Lemma transcode_spec c x ff b s :
  match transcode c x ff b s with
  | inl (_, s') =>
      same_holdings s s' /\ pendingFrames (world s') = pendingFrames (world s)
      /\ refs s' = refs s /\ progressLog s' = progressLog s
      /\ (downloads (world s') = downloads (world s)
          \/ exists name out,
               downloads (world s') = downloads (world s) ++ [{| download := name; href := out |}])
  | inr s' =>
      same_holdings s s' /\ pendingFrames (world s') = pendingFrames (world s)
      /\ refs s' = refs s /\ progressLog s' = progressLog s ++ [100%Z]
      /\ (exists name out,
            downloads (world s') = downloads (world s) ++ [{| download := name; href := out |}])
      /\ ffmpegFS (world s') !! "input.webm" = None
      /\ ffmpegFS (world s') !! "output.mp4" = None
  end.
Proof.
  unfold transcode. lazy zeta.
  destruct (writeThrows ff), (exec ff) as [e|code [out|]], (deleteThrows ff).
  all: repeat case_match; simplify_eq.
  all: repeat match goal with |- _ /\ _ => split end.
  all: try reflexivity; try (clear; same); eauto.
  all: cbn; rewrite ?lookup_delete_ne, ?lookup_delete_eq by discriminate; reflexivity.
Qed.

Lemma downloadName_Some c x ext :
  is_Some (audioFile (seen_config c)) -> is_Some (downloadName c x ext).
Proof. intros [f Hf]. unfold downloadName. rewrite Hf. cbn. eauto. Qed.

Lemma downloadName_None c x ext :
  downloadName c x ext = None -> audioFile (seen_config c) = None.
Proof.
  unfold downloadName. destruct (audioFile (seen_config c)); [discriminate | reflexivity].
Qed.

(** What the WebM [onstop] handler leaves: it ends in the cleanup,
    unless it breaks on the missing audio file. *)
Lemma onstop_webm_spec x s :
  (exists st s',
     onstop_webm x s = cleaned (seen x) (Some (exportAudioContext x)) st s'
     /\ same_holdings s s' /\ pendingFrames (world s') = pendingFrames (world s)
     /\ refs s' = refs s
     /\ ((downloads (world s') = downloads (world s)
          /\ (progressLog s' = progressLog s \/ progressLog s' = progressLog s ++ [100%Z]))
         \/ (concat (recordedChunksRef (refs s)) <> []
             /\ progressLog s' = progressLog s ++ [100%Z]
             /\ exists name,
                  downloads (world s')
                  = downloads (world s)
                    ++ [{| download := name; href := concat (recordedChunksRef (refs s)) |}])))
  \/ (audioFile (seen_config (seen x)) = None
      /\ same_holdings s (onstop_webm x s)
      /\ pendingFrames (world (onstop_webm x s)) = pendingFrames (world s)
      /\ downloads (world (onstop_webm x s)) = downloads (world s)
      /\ progressLog (onstop_webm x s) = progressLog s ++ [100%Z]).
Proof.
  unfold onstop_webm. lazy zeta.
  destruct (bool_decide _ && bool_decide _).
  { left. eexists _, _. split; [apply cleanup_cleaned |].
    repeat split; try reflexivity. left. auto. }
  case_bool_decide as Hlen.
  { left. eexists _, _. split; [apply cleanup_cleaned |].
    repeat split; try reflexivity. left. auto. }
  destruct (downloadName _ _ _) as [name|] eqn:Hname.
  - left. eexists _, _. split; [apply cleanup_cleaned |].
    split; [clear; same |]. repeat split; try reflexivity.
    right. split; [| split; [reflexivity | eexists; reflexivity]].
    intros Hnil. apply Hlen. cbn in Hnil |- *. rewrite Hnil. reflexivity.
  - right. apply downloadName_None in Hname.
    repeat split; try reflexivity. assumption.
Qed.

Lemma onstop_mp4_spec x ff s :
  exists st s' ext,
    onstop_mp4 x ff s = cleaned (seen x) (Some (exportAudioContext x)) st s'
    /\ same_holdings s s' /\ pendingFrames (world s') = pendingFrames (world s)
    /\ refs s' = refs s
    /\ progressLog s' = progressLog s ++ ext
    /\ (ext = [] \/ ext = [50%Z] \/ ext = [50%Z; 50%Z] \/ ext = [50%Z; 100%Z])
    /\ (downloads (world s') = downloads (world s)
        \/ (concat (recordedChunksRef (refs s)) <> []
            /\ exists name out,
                 downloads (world s')
                 = downloads (world s) ++ [{| download := name; href := out |}])).
Proof.
  unfold onstop_mp4. lazy zeta.
  destruct (bool_decide _ && bool_decide _).
  { eexists _, _, []. split; [apply cleanup_cleaned |].
    repeat split; try reflexivity; auto. symmetry; apply app_nil_r. }
  case_bool_decide as Hlen.
  { eexists _, _, _. split; [apply cleanup_cleaned |].
    repeat split; try reflexivity; auto. }
  destruct (negb _).
  { eexists _, _, _. split; [apply cleanup_cleaned |].
    repeat split; try reflexivity; auto. }
  assert (Hchunks : concat (recordedChunksRef (refs s)) <> []).
  { intros Hnil. apply Hlen. cbn in Hnil |- *. rewrite Hnil. reflexivity. }
  match goal with
  | |- context [transcode ?c ?x ?ff ?b ?s] =>
      pose proof (transcode_spec c x ff b s) as Ht;
      destruct (transcode c x ff b s) as [[e s'] | s']
  end.
  - destruct Ht as (Hsame & Hframes & Hrefs & Hl & Hd).
    eexists _, _, [50%Z; 50%Z]. split; [apply cleanup_cleaned |].
    split; [eapply same_holdings_trans; [| eapply same_holdings_trans; [exact Hsame |]]; same |].
    split; [cbn; rewrite Hframes; reflexivity |].
    split; [cbn; rewrite Hrefs; reflexivity |].
    split; [cbn in Hl |- *; rewrite Hl, <- app_assoc; reflexivity |].
    split; [auto 6 |].
    cbn in Hd |- *. destruct Hd as [-> | (name & out & ->)]; [left; reflexivity |].
    right. split; [exact Hchunks | eauto].
  - destruct Ht as (Hsame & Hframes & Hrefs & Hl & (name & out & Hd) & _).
    eexists _, _, [50%Z; 100%Z]. split; [apply cleanup_cleaned |].
    split; [eapply same_holdings_trans; [| exact Hsame]; same |].
    split; [cbn; rewrite Hframes; reflexivity |].
    split; [cbn; rewrite Hrefs; reflexivity |].
    split; [cbn in Hl |- *; rewrite Hl, <- app_assoc; reflexivity |].
    split; [auto 6 |].
    right. split; [exact Hchunks |]. cbn in Hd. rewrite Hd. eauto.
Qed.

Lemma Forall_app_le (l ext : list Z) (b : Z) :
  Forall (fun u => u <= b)%Z l -> Forall (fun u => u <= b)%Z ext ->
  Forall (fun u => u <= b)%Z (l ++ ext).
Proof. intros. apply Forall_app. split; assumption. Qed.

(** The progress after the recorder has stopped: the log is extended
    by values that are not below what was written. *)
Lemma inv_final s' :
  Forall (fun v => 0 <= v <= 100)%Z (progressLog s') ->
  Sorted Z.le (progressLog s') ->
  (forall el, exportAudioRef (refs s') = Some el -> 0 <= audioTime el /\ loading el = false) ->
  (forall m, recorder (world s') = Some m -> rstate m = inactive /\ stopQueued m = false) ->
  ProgressInv s'.
Proof.
  intros H1 H2 Hel Hm. constructor; try assumption.
  - intros el H. apply (Hel el H).
  - intros el m H _ Hl. destruct (Hel el H). congruence.
  - intros el m x _ H _ Hr. destruct (Hm m H). congruence.
  - intros m x H _ _ [Hr | Hq]; destruct (Hm m H); congruence.
  - intros m H Hq. destruct (Hm m H); congruence.
Qed.

Lemma inv_cleaned_final c a st s' :
  Forall (fun v => 0 <= v <= 100)%Z (progressLog s') ->
  Sorted Z.le (progressLog s') ->
  (forall m, recorder (world s') = Some m -> rstate m = inactive /\ stopQueued m = false) ->
  ProgressInv (cleaned c a st s').
Proof.
  intros H1 H2 Hm. apply inv_cleaned_weak; try assumption.
  - intros m x H _ _ [Hr | Hq]; destruct (Hm m H); congruence.
  - intros m H Hq. destruct (Hm m H); congruence.
Qed.

Lemma Sorted_app_le (l ext : list Z) (b : Z) :
  Sorted Z.le l -> Forall (fun u => u <= b)%Z l ->
  Sorted Z.le ext -> Forall (fun u => b <= u)%Z ext ->
  Sorted Z.le (l ++ ext).
Proof.
  intros Hl Hb He Hx. induction l as [|a l IH]; [exact He |].
  cbn. apply Sorted_inv in Hl as [Hl Hhd]. apply Forall_cons in Hb as [Ha Hb].
  constructor; [auto |].
  destruct l as [|a' l]; cbn.
  - destruct Hx; constructor. lia.
  - constructor. inversion Hhd; assumption.
Qed.

Lemma inv_recorder_stop h ff s : ProgressInv s -> ProgressInv (step h s (RecorderStop ff)).
Proof.
  intros Hinv. cbn [step].
  destruct (recorder (world s)) as [m|] eqn:Hm; [| assumption].
  destruct (session (world s)) as [x|] eqn:Hx; [| assumption].
  destruct (stopQueued m) eqn:Hq; [| assumption].
  destruct Hinv as [H1 H2 H3 H4 H5 H6 H7].
  pose proof (H7 m Hm Hq) as Hin.
  set (s1 := with_recorder (fun m => set_queued (startQueued m) false m) s).
  assert (Hlog : progressLog s1 = progressLog s) by reflexivity.
  assert (Hrec : forall m1, recorder (world s1) = Some m1 ->
                   rstate m1 = inactive /\ stopQueued m1 = false).
  { subst s1. cbn. rewrite Hm. cbn. intros m1 [= <-]. cbn. auto. }
  assert (Hel : forall el, exportAudioRef (refs s1) = Some el ->
                  0 <= audioTime el /\ loading el = false).
  { subst s1. cbn. intros el Hel. split; [eauto |].
    destruct (loading el) eqn:Hl; [| reflexivity].
    destruct (H4 el m Hel Hm Hl) as (_ & ? & _). congruence. }
  assert (Hx1 : session (world s1) = Some x) by exact Hx.
  pose proof (Forall_range_le100 _ H1) as H100.
  clearbody s1.
  destruct (onstop m); [| apply inv_final; rewrite ?Hlog; assumption].
  destruct (kind x) eqn:Hk.
  - destruct (onstop_webm_spec x s1)
      as [(st & s' & -> & Hs & _ & _ & Hl) | (_ & Hs & _ & _ & Hl)].
    + destruct Hs as [_ _ _ _ _ _ Vr _ _ _].
      assert (Hl' : progressLog s' = progressLog s1
                    \/ progressLog s' = progressLog s1 ++ [100%Z]).
      { destruct Hl as [[_ Hl] | (_ & Hl & _)]; auto. }
      apply inv_cleaned_final; rewrite ?Vr; [| | assumption].
      * destruct Hl' as [-> | ->]; rewrite Hlog; [assumption |].
        apply Forall_snoc_range; [assumption | lia].
      * destruct Hl' as [-> | ->]; rewrite Hlog; [assumption |].
        apply Sorted_snoc; assumption.
    + destruct Hs as [_ _ Va _ _ _ Vr _ _ _].
      apply inv_final; rewrite ?Va, ?Vr, ?Hl, ?Hlog; try assumption.
      * apply Forall_snoc_range; [assumption | lia].
      * apply Sorted_snoc; assumption.
  - destruct (onstop_mp4_spec x ff s1)
      as (st & s' & ext & -> & Hs & _ & _ & Hl & Hext & _).
    destruct Hs as [_ _ _ _ _ _ Vr _ _ _].
    pose proof (H6 m x Hm Hx Hk (or_intror Hq)) as H50.
    apply inv_cleaned_final; rewrite ?Vr, ?Hl, ?Hlog; [| | assumption].
    + apply Forall_app. split; [assumption |].
      destruct Hext as [-> | [-> | [-> | ->]]]; repeat constructor; lia.
    + apply (Sorted_app_le _ _ 50); try assumption.
      * destruct Hext as [-> | [-> | [-> | ->]]]; repeat constructor; lia.
      * destruct Hext as [-> | [-> | [-> | ->]]]; repeat constructor; lia.
Qed.

Lemma inv_idle c : ProgressInv (idle c).
Proof. constructor; cbn; try discriminate; constructor. Qed.

Lemma step_preserves_inv h s e : ProgressInv s -> ProgressInv (step h s e).
Proof.
  destruct e.
  - apply inv_click.
  - apply inv_metadata.
  - apply inv_audio_error.
  - apply inv_recorder_start.
  - apply inv_play_resolved.
  - apply inv_play_rejected.
  - apply inv_frame.
  - apply inv_recorder_data.
  - apply inv_recorder_stop.
  - apply inv_recorder_error.
  - apply inv_ffmpeg_log.
  - apply inv_ffmpeg_progress.
Qed.

Lemma run_preserves_inv h evs : forall s, ProgressInv s -> ProgressInv (run h s evs).
Proof.
  induction evs as [|e evs IH]; intros s Hs; [exact Hs |].
  cbn. apply IH. apply step_preserves_inv. exact Hs.
Qed.

(** C7.  Across an export session, whatever the host does (any
    sequence of events, with the playback position of the audio not
    going backwards from one frame to the next), every value written
    to the export progress since the session was set up lies in
    [0, 100] and the values are written in non-decreasing order. *)
Theorem export_progress_bounded_and_monotone h (c : Config) (events : list Event) :
  let written := progressLog (run h (idle c) events) in
  Forall (fun v => 0 <= v <= 100)%Z written /\ Sorted Z.le written.
Proof.
  intros written.
  destruct (run_preserves_inv h events (idle c) (inv_idle c)) as [H1 H2 _ _ _ _ _].
  split; assumption.
Qed.

(** Unfolding the handlers, not the assignments they make. *)
Ltac handlers :=
  lazy beta iota zeta delta
    [step startActualExport handleExport commonExportSetup startExportRenderLoop
     audio_onloadedmetadata audio_onerror_handler recorder_onstart play_then play_catch
     recorder_onerror recorder_ondataavailable renderFn ffmpeg_onlog ffmpeg_onprogress
     createObjectURL requestAnimationFrame fresh cancelPendingFrame].

Ltac by_cases :=
  handlers; repeat (case_match; simplify_eq); rewrite ?cleanup_cleaned; try reflexivity.

Lemma click_keeps_downloads h s env :
  downloads (world (step h s (ClickStartExport env))) = downloads (world s).
Proof.
  cbn [step]. unfold startActualExport.
  destruct (exportType (exportSettings (seen_config (snapshot s)))) as [t|]; [| reflexivity].
  unfold handleExport, commonExportSetup.
  destruct (bool_decide (audioFile (seen_config (snapshot s)) = None)
            || isExporting (seen_ui (snapshot s))); [reflexivity |].
  destruct (bool_decide (t = mp4) && negb (isFFmpegLoaded (seen_config (snapshot s))));
    [reflexivity |].
  destruct (has2dContext env), (contextSuspended env), (resumeFails env) as [e|],
    (find (isTypeSupported env) mimeTypeCandidates) as [mime|], t.
  all: try reflexivity.
  all: match goal with
       | |- downloads (world ?x) = _ =>
           let x' := run_state x in change x with x'
       end.
  all: rewrite ?cleanup_cleaned; reflexivity.
Qed.

Lemma other_events_keep_downloads h s e :
  (forall ff, e <> RecorderStop ff) ->
  downloads (world (step h s e)) = downloads (world s).
Proof.
  intros Hne. destruct e; try (exfalso; eapply Hne; reflexivity).
  - apply click_keeps_downloads.
  - by_cases.
  - by_cases.
  - by_cases.
  - by_cases.
  - by_cases.
  - by_cases.
  - by_cases.
  - by_cases.
  - by_cases.
  - by_cases.
Qed.

(** C1, as the code has it.  A download is offered by the [stop]
    handler of the recorder only, and only when the recorded chunks
    are not empty; for a WebM export the file offered is the
    concatenation of the chunks recorded, whether or not an error
    ended the capture early.  After the offer the chunks are
    discarded.  Every other event leaves the downloads as they
    are. *)
Theorem download_only_of_recorded_data h s e :
  let s' := step h s e in
  downloads (world s') = downloads (world s)
  \/ (exists ff x name blob,
        e = RecorderStop ff /\ session (world s) = Some x
        /\ concat (recordedChunksRef (refs s)) <> []
        /\ downloads (world s') = downloads (world s) ++ [{| download := name; href := blob |}]
        /\ (kind x = webm -> blob = concat (recordedChunksRef (refs s)))
        /\ recordedChunksRef (refs s') = []).
Proof.
  intros s'. subst s'.
  destruct e as [ | | | | | | | | ff | | | ];
    try (left; apply other_events_keep_downloads; discriminate).
  cbn [step].
  destruct (recorder (world s)) as [m|]; [| left; reflexivity].
  destruct (session (world s)) as [x|]; [| left; reflexivity].
  destruct (stopQueued m); [| left; reflexivity].
  destruct (onstop m); [| left; reflexivity].
  set (s1 := with_recorder (fun m => set_queued (startQueued m) false m) s).
  change (downloads (world s)) with (downloads (world s1)).
  change (recordedChunksRef (refs s)) with (recordedChunksRef (refs s1)).
  clearbody s1.
  destruct (kind x) eqn:Hk.
  - destruct (onstop_webm_spec x s1)
      as [(st & s2 & -> & _ & _ & _ & [[Hd _] | (Hne & _ & name & Hd)]) | (_ & _ & _ & Hd & _)].
    + left. exact Hd.
    + right. exists ff, x, name, (concat (recordedChunksRef (refs s1))).
      repeat split; auto.
    + left. exact Hd.
  - destruct (onstop_mp4_spec x ff s1)
      as (st & s2 & ext & -> & _ & _ & _ & _ & _ & [Hd | (Hne & name & out & Hd)]).
    + left. exact Hd.
    + right. exists ff, x, name, out. repeat split; auto; congruence.
Qed.

Lemma exited_cleaned st s x el m :
  holding s el m x -> rstate m = inactive -> stopQueued m = false ->
  pendingFrames (world s) = [] ->
  Exited (cleaned (seen x) (Some (exportAudioContext x)) st s).
Proof.
  intros H Hrs Hsq Hp. open_holding H.
  unfold Exited. cbn. rewrite Hcalls, Hp.
  split; [reflexivity |]. split; [reflexivity |]. split.
  - constructor; cbn; rewrite ?Haudio, ?Hrefm, ?Hrecm, ?Hcontext.
    + reflexivity.
    + set_solver.
    + rewrite lookup_singleton_eq. cbn. rewrite insert_singleton_eq.
      apply map_Forall_singleton. reflexivity.
    + cbn. intros m0 [= <-]. unfold detach. cbn. rewrite Hrs. cbn. auto 10.
  - destruct (exportAnimationRequestRef (refs s)); reflexivity.
Qed.



Lemma stop_exits h s ff : Stopping s -> Exited (step h s (RecorderStop ff)).
Proof.
  intros (el & m & x & H & Hrs & Hsq & Hp).
  cbn [step]. pose proof H as H'. open_holding H'. rewrite Hrecm, Hsession, Hsq, Hstop.
  set (s1 := with_recorder (fun m => set_queued (startQueued m) false m) s).
  set (m1 := set_queued (startQueued m) false m).
  assert (H1 : holding s1 el m1 x).
  { subst s1 m1. constructor; cbn; rewrite ?Hrecm; cbn; eauto. }
  assert (Hp1 : pendingFrames (world s1) = []) by exact Hp.
  assert (Hrs1 : rstate m1 = inactive) by exact Hrs.
  assert (Hsq1 : stopQueued m1 = false) by reflexivity.
  clearbody s1 m1.
  destruct (kind x).
  - destruct (onstop_webm_spec x s1)
      as [(st & s2 & -> & Hs & Hf & _) | (Hnone & _)].
    + eapply exited_cleaned; [eapply holding_same; eassumption | eauto ..].
      rewrite Hf. assumption.
    + destruct Hfile as [? Hfile]. congruence.
  - destruct (onstop_mp4_spec x ff s1) as (st & s2 & ext & -> & Hs & Hf & _).
    eapply exited_cleaned; [eapply holding_same; eassumption | eauto ..].
    rewrite Hf. assumption.
Qed.



Ltac run_in H :=
  match type of H with
  | ?l = ?r => let r' := run_state r in change (l = r') in H
  end.

Lemma click_loads h c env t mime :
  startable c env t ->
  find (isTypeSupported env) mimeTypeCandidates = Some mime ->
  exists el m x, Loading (step h (idle c) (ClickStartExport env)) el m x
                 /\ kind x = t /\ exportFPS x = fps (exportSettings c).
Proof.
  intros [[f Hf] Ht Htools Hcanvas Hctx] Hmime.
  destruct c as [af fl [res fp et tw th] vt lg ct im isc pi icr isi ep es vd].
  cbn in Hf, Ht, Htools. subst af et.
  remember (step h _ _) as s eqn:Hs.
  cbn [step] in Hs. unfold startActualExport, handleExport, commonExportSetup in Hs.
  rewrite Hcanvas, Hmime in Hs.
  destruct (contextSuspended env) eqn:Hsus; [rewrite (Hctx eq_refl) in Hs |].
  all: destruct t; [| rewrite (Htools eq_refl) in Hs].
  all: run_in Hs; subst s.
  all: match goal with
       | |- context [Build_Refs (Some ?el) _ _ _ _ _] => exists el
       end.
  all: match goal with
       | |- context [Build_World (Some ?m) _ _ _ _ _ _ _ _ (Some ?x) _] => exists m, x
       end.
  all: split; [constructor |]; projections; auto.
  all: first [set_solver | reflexivity | eauto].
Qed.

Ltac open_loading H :=
  destruct H as [Lexp Lcalls Laudio [Lload Lmeta] Lurls Lanalyser [cv Lcanvas] Lref Lreq Lrecm
                   [Lstop Ldata] (Lrs & Lsq & Lstq) Lsession Lfile Lcontext Lframes Lplay].








Lemma song_startable t : startable (song t) browser t.
Proof.
  constructor; try reflexivity; try discriminate. eexists; reflexivity.
Qed.

Lemma browser_records : is_Some (find (isTypeSupported browser) mimeTypeCandidates).
Proof. vm_compute. eexists; reflexivity. Qed.







End OrchestratorProperties.

(** * Further properties of the frame renderer *)

Section RendererExtras.
Import Canvas Types Renderer Painting Drawn Cases.
Local Open Scope Q_scope.

Ltac run_canvas :=
  cbv beta iota zeta delta
    [mbind mret M_bind M_ret Canvas.bind Canvas.ret Canvas.throw Canvas.host
     update with_state paint add_segment save restore set_fillStyle set_strokeStyle
     set_lineWidth set_globalAlpha apply_xform translate rotate beginPath moveTo
     lineTo closePath clip_path fillRect fill stroke drawImage
     state path stack surface fillStyle strokeStyle lineWidth globalAlpha
     transform clip].

Lemma colorStop_returns colors i h c :
  (i < length colors)%nat ->
  exists col, colorStop colors i h c = Returned col c.
Proof.
  intros Hi. unfold colorStop. destruct (lookup_lt_is_Some_2 colors i Hi) as [col ->].
  exists col. reflexivity.
Qed.

Lemma byte_fraction_range b : 0 <= JS.of_byte b / 255 <= 1.
Proof.
  pose proof (of_byte_range b) as [H0 H1]. split.
  - apply Qle_shift_div_l; [reflexivity | lra].
  - apply Qle_shift_div_r; [reflexivity | lra].
Qed.

Lemma bind_returned {A B} (m : M A) (k : A -> M B) h c a c1 :
  m h c = Returned a c1 -> (m ≫= k) h c = k a h c1.
Proof. intros H. unfold mbind, M_bind, Canvas.bind. rewrite H. reflexivity. Qed.

Lemma bind_threw {A B} (m : M A) (k : A -> M B) h c e c1 :
  m h c = Threw e c1 -> (m ≫= k) h c = Threw e c1.
Proof. intros H. unfold mbind, M_bind, Canvas.bind. rewrite H. reflexivity. Qed.

Section LinearBars.
Variables (audioData : list Byte.byte) (colors : list Css).
Variables (canvasH scale barWidth spacing : Q).

Let body : nat -> Q -> M Q := fun i x =>
  match audioData !! i with
  | None => throw "TypeError"
  | Some b =>
      let barHeightPercentage := JS.of_byte b / 255 in
      let barHeight := barHeightPercentage * canvasH * 0.9 * scale in
      c0 ← colorStop colors 0;
      c1 ← colorStop colors 1;
      c2 ← colorStop colors 2;
      set_fillStyle (Gradient {|
        gx0 := x; gy0 := canvasH; gx1 := x; gy1 := canvasH - barHeight;
        stops := [(0, c0); (0.6, c1); (1, c2)] |});;
      set_globalAlpha (JS.Math_max 0.2 barHeightPercentage);;
      fillRect x (canvasH - barHeight) (JS.Math_max 1 barWidth) barHeight;;
      set_globalAlpha 1.0;;
      mret (x + barWidth + spacing)
  end.

Lemma linear_bar_step i x h c b :
  (3 <= length colors)%nat -> audioData !! i = Some b ->
  exists bar st,
    body i x h c
    = Returned (x + barWidth + spacing)
        {| state := st; path := path c; stack := stack c; surface := surface c ++ [bar] |}
    /\ isLinearBar canvasH bar /\ globalAlpha st == 1.
Proof.
  intros Hcolors Hb. unfold body. rewrite Hb. cbv zeta.
  destruct (colorStop_returns colors 0 h c ltac:(lia)) as [c0 H0].
  destruct (colorStop_returns colors 1 h c ltac:(lia)) as [c1 H1].
  destruct (colorStop_returns colors 2 h c ltac:(lia)) as [c2 H2].
  rewrite (bind_returned _ _ _ _ _ _ H0), (bind_returned _ _ _ _ _ _ H1),
    (bind_returned _ _ _ _ _ _ H2).
  destruct c as [st pth stk srf]. run_canvas.
  do 2 eexists. split; [reflexivity |]. split; [| reflexivity].
  do 4 eexists. cbn [fst snd globalAlpha]. split; [reflexivity |].
  pose proof (byte_fraction_range b) as [Hb0 Hb1].
  split; [apply Q.le_max_l |]. split; [ring |].
  unfold JS.Math_max. split; [apply Q.le_max_l | apply Q.max_lub; lra].
Qed.

Lemma linear_bars_loop k :
  (3 <= length colors)%nat ->
  forall i x h c,
    (i + k <= length audioData)%nat ->
    exists x' c' bars,
      for_ k i body x h c = Returned x' c'
      /\ surface c' = surface c ++ bars /\ length bars = k
      /\ Forall (isLinearBar canvasH) bars
      /\ stack c' = stack c /\ path c' = path c
      /\ ((0 < k)%nat -> globalAlpha (state c') == 1).
Proof.
  intros Hcolors. induction k as [|k IH]; intros i x h c Hlen.
  - exists x, c, []. cbn [for_]. rewrite app_nil_r.
    repeat split; try reflexivity; [constructor | lia].
  - cbn [for_].
    destruct (lookup_lt_is_Some_2 audioData i ltac:(lia)) as [b Hb].
    destruct (linear_bar_step i x h c b Hcolors Hb) as (bar & st & Hstep & Hbar & Halpha).
    rewrite (bind_returned _ _ _ _ _ _ Hstep).
    match goal with
    | |- context [for_ k (S i) body ?x1 h ?c1] =>
        destruct (IH (S i) x1 h c1 ltac:(lia))
          as (x' & c' & bars & Hrun & Hs & Hl & Hb' & Hst & Hp & Ha)
    end.
    rewrite Hrun. cbn [surface stack path state] in Hs, Hst, Hp, Ha.
    exists x', c', (bar :: bars). split; [reflexivity |].
    rewrite Hs, <- app_assoc. cbn [app].
    split; [reflexivity |]. split; [cbn; lia |]. split; [constructor; assumption |].
    split; [assumption |]. split; [assumption |].
    intros _. destruct k as [|k'].
    + cbn [for_] in Hrun. injection Hrun as _ <-. exact Halpha.
    + apply Ha. lia.
Qed.

(** A bin beyond the data stops the loop with [TypeError]; what was
    painted stays. *)
Lemma linear_bars_loop_short k :
  (3 <= length colors)%nat ->
  forall i x h c,
    (i <= length audioData < i + k)%nat ->
    exists c' bars,
      for_ k i body x h c = Threw "TypeError" c'
      /\ surface c' = surface c ++ bars /\ length bars = (length audioData - i)%nat
      /\ stack c' = stack c.
Proof.
  intros Hcolors. induction k as [|k IH]; intros i x h c Hlen; [lia |].
  cbn [for_].
  destruct (decide (i = length audioData)) as [-> | Hne].
  - assert (Hnone : audioData !! length audioData = None) by (apply lookup_ge_None; lia).
    assert (Hthrow : body (length audioData) x h c = Threw "TypeError" c).
    { unfold body. rewrite Hnone. reflexivity. }
    rewrite (bind_threw _ _ _ _ _ _ Hthrow).
    exists c, []. rewrite app_nil_r, Nat.sub_diag. auto.
  - destruct (lookup_lt_is_Some_2 audioData i ltac:(lia)) as [b Hb].
    destruct (linear_bar_step i x h c b Hcolors Hb) as (bar & st & Hstep & Hbar & Halpha).
    rewrite (bind_returned _ _ _ _ _ _ Hstep).
    match goal with
    | |- context [for_ k (S i) body ?x1 h ?c1] =>
        destruct (IH (S i) x1 h c1 ltac:(lia)) as (c' & bars & Hrun & Hs & Hl & Hst)
    end.
    rewrite Hrun. cbn [surface stack] in Hs, Hst.
    exists c', (bar :: bars). split; [reflexivity |].
    rewrite Hs, <- app_assoc. cbn [app length].
    split; [reflexivity |]. split; [lia | assumption].
Qed.
End LinearBars.

Lemma linear_bars_spec audioData bufferLen canvasW canvasH palette scale h c :
  (3 <= length (barGradient palette))%nat ->
  (effectiveNumBars bufferLen <= length audioData)%nat ->
  exists c' bars,
    drawLinearBarsCore audioData bufferLen canvasW canvasH palette scale h c = Returned tt c'
    /\ surface c' = surface c ++ bars
    /\ length bars = effectiveNumBars bufferLen
    /\ Forall (isLinearBar canvasH) bars
    /\ globalAlpha (state c') == 1
    /\ stack c' = stack c /\ path c' = path c.
Proof.
  intros Hcolors Hlen. unfold drawLinearBarsCore. cbv zeta.
  set (spacing := JS.Math_max 1 (canvasW * 0.003)).
  set (n := Z.max 1 (JS.Math_floor (JS.of_nat bufferLen * 0.75))).
  set (barWidth := (canvasW - (inject_Z n - 1) * spacing) / inject_Z n).
  destruct (linear_bars_loop audioData (barGradient palette) canvasH scale barWidth spacing
              (Z.to_nat n) Hcolors 0%nat 0 h c Hlen)
    as (x' & c' & bars & Hrun & Hs & Hl & Hb & Hst & Hp & Ha).
  rewrite (bind_returned _ _ _ _ _ _ Hrun).
  exists c', bars. split; [reflexivity |]. repeat split; try assumption.
  apply Ha. unfold effectiveNumBars in *. lia.
Qed.

Section Waveform.
Variables (audioData : list Byte.byte) (canvasH scale sliceWidth : Q).

Let body : nat -> Q -> M Q := fun i x =>
  match audioData !! i with
  | None => mret x
  | Some b =>
      let v := JS.of_byte b / 128.0 in
      let y := (v * canvasH / 2 - canvasH / 2) * scale + canvasH / 2 in
      (if bool_decide (i = 0%nat) then moveTo x y else lineTo x y);;
      mret (x + sliceWidth)
  end.

Lemma waveform_loop k :
  forall i x h c,
    (i + k <= length audioData)%nat ->
    exists x' segs,
      for_ k i body x h c
      = Returned x' {| state := state c; path := path c ++ segs; stack := stack c;
                       surface := surface c |}
      /\ length segs = k
      /\ Forall (fun s => fst s = transform (state c)) segs
      /\ (i = 0%nat -> (0 < k)%nat -> exists y, head segs = Some (transform (state c), MoveTo x y)).
Proof.
  induction k as [|k IH]; intros i x h c Hlen.
  - exists x, []. cbn [for_]. rewrite app_nil_r. destruct c.
    repeat split; [constructor | lia].
  - cbn [for_].
    destruct (lookup_lt_is_Some_2 audioData i ltac:(lia)) as [b Hb].
    assert (Hstep : exists seg,
              body i x h c
              = Returned (x + sliceWidth)
                  {| state := state c; path := path c ++ [(transform (state c), seg)];
                     stack := stack c; surface := surface c |}
              /\ (i = 0%nat -> exists y, seg = MoveTo x y)).
    { unfold body. rewrite Hb. cbv zeta. destruct c as [st pth stk srf].
      case_bool_decide; run_canvas; eexists; (split; [reflexivity |]); eauto.
      intros; contradiction. }
    destruct Hstep as (seg & Hstep & Hfirst).
    rewrite (bind_returned _ _ _ _ _ _ Hstep).
    match goal with
    | |- context [for_ k (S i) body ?x1 h ?c1] =>
        destruct (IH (S i) x1 h c1 ltac:(lia)) as (x' & segs & Hrun & Hl & Hall & _)
    end.
    rewrite Hrun. cbn [state path stack surface] in *.
    exists x', ((transform (state c), seg) :: segs).
    rewrite <- app_assoc. cbn [app length].
    split; [reflexivity |]. split; [lia |]. split; [constructor; auto |].
    intros Hi _. destruct (Hfirst Hi) as [y ->]. exists y. reflexivity.
Qed.
End Waveform.

Ltac step_bind := erewrite bind_returned by reflexivity.

Lemma Math_max_min_range x : 1 <= JS.Math_max 1 (JS.Math_min 3 x) <= 3.
Proof.
  unfold JS.Math_max, JS.Math_min. split; [apply Q.le_max_l |].
  apply Q.max_lub; [lra | apply Q.le_min_l].
Qed.

Lemma waveform_spec audioData canvasW canvasH palette scale h c :
  exists pth st,
    drawLinearWaveformCore audioData canvasW canvasH palette scale h c
    = Returned tt {| state := st; path := pth; stack := stack c;
                     surface := surface c ++ [(Stroked pth, st)] |}
    /\ length pth = S (length audioData)
    /\ last pth = Some (transform (state c), LineTo canvasW (canvasH / 2))
    /\ (audioData <> [] -> exists y, head pth = Some (transform (state c), MoveTo 0 y))
    /\ strokeStyle st = waveformStroke palette
    /\ transform st = transform (state c)
    /\ (0 <= scale -> scale <= lineWidth st <= 3 * scale).
Proof.
  unfold drawLinearWaveformCore. cbv zeta.
  do 3 step_bind.
  match goal with
  | |- context [for_ ?n 0 ?b 0] =>
      match goal with
      | |- exists _ _, (_ ≫= _) h ?c1 = _ /\ _ =>
          destruct (waveform_loop audioData canvasH scale
                      (canvasW / JS.of_nat (length audioData))
                      (length audioData) 0%nat 0 h c1 ltac:(lia))
            as (x' & segs & Hrun & Hl & Hall & Hfirst)
      end
  end.
  rewrite (bind_returned _ _ _ _ _ _ Hrun). clear Hrun.
  destruct c as [[fs ss lw ga tr cl] pth stk srf].
  cbn [state path stack surface transform with_state app] in *.
  step_bind. 
  eexists _, _. split; [reflexivity |].
  cbn [path add_segment paint state stack surface transform strokeStyle lineWidth
       fillStyle globalAlpha clip].
  split; [rewrite length_app; cbn; lia |].
  split; [apply last_snoc |].
  split.
  { intros Hne. destruct (Hfirst eq_refl) as [y Hy].
    - destruct audioData; [contradiction | cbn; lia].
    - exists y. destruct segs; [discriminate |]. exact Hy. }
  split; [reflexivity |]. split; [reflexivity |].
  intros Hs. pose proof (Math_max_min_range (canvasW * 0.004)) as [H1 H3].
  split; nra.
Qed.

Lemma rem_range x m : 0 <= x -> 0 < m -> 0 <= JS.rem x m < m.
Proof.
  intros Hx Hm. unfold JS.rem, JS.Qtrunc.
  assert (Hq : 0 <= x / m) by (apply Qle_shift_div_l; lra).
  apply Qle_bool_iff in Hq. rewrite Hq.
  pose proof (Qfloor_le (x / m)) as Hlo. pose proof (Qlt_floor (x / m)) as Hhi.
  rewrite inject_Z_plus in Hhi. change (inject_Z 1) with 1 in Hhi.
  set (f := inject_Z (Qfloor (x / m))) in *.
  assert (Hxm : x == x / m * m) by (field; lra).
  split; nra.
Qed.

Lemma palettes_hue theme hue alpha :
  0 <= hue ->
  exists hc s l, circularFill (PALETTES theme) hue alpha = Hsla hc s l alpha /\ 0 <= hc < 360.
Proof.
  intros Hhue. destruct theme; cbn [PALETTES circularFill]; do 3 eexists;
    (split; [reflexivity |]); apply rem_range; lra.
Qed.

Lemma of_nat_nonneg n : 0 <= JS.of_nat n.
Proof. unfold JS.of_nat. change 0 with (inject_Z 0). rewrite <- Zle_Qle. lia. Qed.

Lemma circular_bar_step audioData numBars centerX centerY maxOuter width palette i h c :
  (exists theme, palette = PALETTES theme) -> (0 <= numBars)%Z ->
  exists pth shapes,
    drawCircularBar audioData numBars centerX centerY maxOuter width
      (barVisualThicknessOf h maxOuter numBars) palette i h c
    = Returned tt {| state := state c; path := pth; stack := stack c;
                     surface := surface c ++ shapes |}
    /\ length shapes
       = length (loudBins (take 1 (drop i audioData)) maxOuter)
    /\ Forall isCircularBar shapes.
Proof.
  intros [theme ->] Hnum. unfold drawCircularBar.
  destruct (audioData !! i) as [b|] eqn:Hb.
  - rewrite (drop_S _ _ _ Hb). unfold loudBins. rewrite firstn_cons, take_0, filter_cons, filter_nil.
    unfold isDrawn, barLengthOf. cbv zeta.
    destruct (JS.ltb (JS.of_byte b / 255 * (maxOuter - innerRadius)) 1) eqn:Hshort.
    + cbn [negb]. rewrite decide_False by discriminate.
      exists (path c), []. rewrite app_nil_r. destruct c. repeat split. constructor.
    + cbn [negb]. rewrite decide_True by reflexivity.
      apply ltb_false_iff in Hshort.
      pose proof (barVisualThickness_ge_1 h maxOuter numBars) as HT.
      do 5 step_bind.
      match goal with
      | |- context [(drawBarShape ?L ?T ≫= _) h ?c0] =>
          destruct (drawBarShape_spec L T h c0 Hshort HT) as (shape & pth' & Hdraw & Hout)
      end.
      rewrite (bind_returned _ _ _ _ _ _ Hdraw).
      destruct c as [st pth stk srf]. run_canvas.
      eexists _, [_]. split; [reflexivity |]. split; [reflexivity |].
      constructor; [| constructor]. split.
      * cbn [fst]. rewrite Hout. destruct (JS.gtb _ _); auto.
      * assert (Hhue : 0 <= JS.of_nat i / inject_Z numBars).
        { pose proof (of_nat_nonneg i).
          assert (0 <= inject_Z numBars) by (change 0 with (inject_Z 0); rewrite <- Zle_Qle; lia).
          unfold Qdiv. apply Qmult_le_0_compat; [assumption |].
          apply Qinv_le_0_compat. assumption. }
        destruct (palettes_hue theme _ (JS.Math_max 0.2 (JS.of_byte b / 255)) Hhue)
          as (hc & sat & l & Hfill & Hrange).
        exists hc, sat, l, (JS.Math_max 0.2 (JS.of_byte b / 255)).
        cbn [snd fillStyle]. rewrite Hfill. split; [reflexivity |]. split; [exact Hrange |].
        pose proof (byte_fraction_range b) as [Hb0 Hb1]. unfold JS.Math_max.
        split; [apply Q.le_max_l | apply Q.max_lub; lra].
  - rewrite (drop_ge audioData i) by (apply lookup_ge_None; exact Hb).
    exists (path c), []. rewrite app_nil_r. destruct c. repeat split. constructor.
Qed.

Lemma circular_loop audioData numBars centerX centerY maxOuter width palette h k :
  (exists theme, palette = PALETTES theme) -> (0 <= numBars)%Z ->
  forall i c,
    exists pth shapes,
      for_ k i (fun i (_ : unit) =>
        drawCircularBar audioData numBars centerX centerY maxOuter width
          (barVisualThicknessOf h maxOuter numBars) palette i) tt h c
      = Returned tt {| state := state c; path := pth; stack := stack c;
                       surface := surface c ++ shapes |}
      /\ length shapes = length (loudBins (take k (drop i audioData)) maxOuter)
      /\ Forall isCircularBar shapes.
Proof.
  intros Hpal Hnum. induction k as [|k IH]; intros i c.
  - exists (path c), []. cbn [for_]. rewrite app_nil_r. destruct c. repeat split. constructor.
  - cbn [for_].
    destruct (circular_bar_step audioData numBars centerX centerY maxOuter width palette i h c
                Hpal Hnum)
      as (pth & shapes & Hstep & Hl & Hall).
    rewrite (bind_returned _ _ _ _ _ _ Hstep).
    match goal with
    | |- context [for_ k (S i) _ tt h ?c1] =>
        destruct (IH (S i) c1) as (pth' & shapes' & Hrun & Hl' & Hall')
    end.
    rewrite Hrun. cbn [state stack surface].
    exists pth', (shapes ++ shapes'). rewrite app_assoc. split; [reflexivity |].
    split; [| apply Forall_app; auto].
    rewrite length_app, Hl, Hl'. unfold loudBins.
    rewrite <- length_app, <- filter_app. f_equal. f_equal.
    destruct (audioData !! i) as [b|] eqn:Hb.
    + rewrite (drop_S _ _ _ Hb). reflexivity.
    + rewrite !drop_ge by (apply lookup_ge_None in Hb; lia). rewrite !take_nil. reflexivity.
Qed.

Lemma circular_bars_spec audioData bufferLen canvasW canvasH theme scale h c :
  exists c' shapes,
    drawCircularBarsCore audioData bufferLen canvasW canvasH (PALETTES theme) scale h c
    = Returned tt c'
    /\ state c' = state c /\ stack c' = stack c
    /\ surface c' = surface c ++ shapes
    /\ length shapes
       = length (loudBins (take (numCircularBars bufferLen) audioData)
                   (effectiveMaxOuterRadius canvasW canvasH scale))
    /\ Forall isCircularBar shapes.
Proof.
  unfold drawCircularBarsCore. cbv zeta. step_bind.
  assert (Hnum : (0 <= JS.Math_floor (JS.of_nat bufferLen * 0.7))%Z).
  { unfold JS.Math_floor. rewrite <- (Qfloor_Z 0). apply Qfloor_resp_le.
    pose proof (of_nat_nonneg bufferLen). change (inject_Z 0) with 0. lra. }
  match goal with
  | |- context [for_ ?k 0 _ tt] =>
      destruct (circular_loop audioData (JS.Math_floor (JS.of_nat bufferLen * 0.7))
                  (canvasW / 2) (canvasH / 2)
                  (effectiveMaxOuterRadius canvasW canvasH scale)
                  (Math_PI h * 2 / inject_Z (JS.Math_floor (JS.of_nat bufferLen * 0.7)))
                  (PALETTES theme) h k ltac:(eauto) Hnum 0%nat c)
        as (pth & shapes & Hrun & Hl & Hall)
  end.
  rewrite Hrun. eexists _, shapes. split; [reflexivity |].
  cbn [state stack surface]. repeat split; assumption.
Qed.

Lemma effectiveNumBars_le n : (0 < n)%nat -> (effectiveNumBars n <= n)%nat.
Proof.
  intros Hn. unfold effectiveNumBars, JS.Math_floor, JS.of_nat.
  assert (H : (Qfloor (inject_Z (Z.of_nat n) * 0.75) <= Z.of_nat n)%Z).
  { rewrite <- (Qfloor_Z (Z.of_nat n)) at 2. apply Qfloor_resp_le.
    assert (0 <= inject_Z (Z.of_nat n)) by (change 0 with (inject_Z 0); rewrite <- Zle_Qle; lia).
    lra. }
  lia.
Qed.

Lemma effectiveNumBars_pos n : (0 < effectiveNumBars n)%nat.
Proof. unfold effectiveNumBars. lia. Qed.

Lemma palettes_gradient theme : length (barGradient (PALETTES theme)) = 3%nat.
Proof. destruct theme; reflexivity. Qed.

(** What every drawing routine of a frame does when it returns: it
    adds to the display list and leaves the stack of saved states. *)
Lemma visualization_returns frequencyData timeDomainData p h c :
  ~ (Frame.visualizationType p = LINEAR /\ Frame.linearGraphStyle p = bars
     /\ frequencyData = []) ->
  exists c' more,
    match Frame.visualizationType p with
    | LINEAR =>
        match Frame.linearGraphStyle p with
        | bars =>
            drawLinearBarsCore frequencyData (length frequencyData)
              (Frame.width p) (Frame.height p) (PALETTES (Frame.colorTheme p))
              (Frame.visualizerDetailScale p)
        | waveform =>
            drawLinearWaveformCore timeDomainData
              (Frame.width p) (Frame.height p) (PALETTES (Frame.colorTheme p))
              (Frame.visualizerDetailScale p)
        end
    | CIRCULAR =>
        drawCircularBarsCore frequencyData (length frequencyData)
          (Frame.width p) (Frame.height p) (PALETTES (Frame.colorTheme p))
          (Frame.visualizerDetailScale p)
    end h c = Returned tt c'
    /\ surface c' = surface c ++ more /\ stack c' = stack c.
Proof.
  intros Hok.
  destruct (Frame.visualizationType p); [destruct (Frame.linearGraphStyle p) |].
  - assert (Hne : (0 < length frequencyData)%nat).
    { destruct frequencyData; [exfalso; apply Hok; auto | cbn; lia]. }
    destruct (linear_bars_spec frequencyData (length frequencyData) (Frame.width p)
                (Frame.height p) (PALETTES (Frame.colorTheme p))
                (Frame.visualizerDetailScale p) h c)
      as (c' & barsPainted & Hrun & Hs & _ & _ & _ & Hst & _).
    + rewrite palettes_gradient. lia.
    + apply effectiveNumBars_le. exact Hne.
    + exists c', barsPainted. auto.
  - destruct (waveform_spec timeDomainData (Frame.width p) (Frame.height p)
                (PALETTES (Frame.colorTheme p)) (Frame.visualizerDetailScale p) h c)
      as (pth & st & Hrun & _).
    eexists _, _. split; [exact Hrun |]. split; reflexivity.
  - destruct (circular_bars_spec frequencyData (length frequencyData) (Frame.width p)
                (Frame.height p) (Frame.colorTheme p)
                (Frame.visualizerDetailScale p) h c)
      as (c' & shapes & Hrun & _ & Hst & Hs & _).
    exists c', shapes. auto.
Qed.

Lemma renderSingleFrame_returns frequencyData timeDomainData p h c :
  ~ (Frame.visualizationType p = LINEAR /\ Frame.linearGraphStyle p = bars
     /\ frequencyData = []) ->
  exists c' st rest,
    renderSingleFrame frequencyData timeDomainData p h c = Returned tt c'
    /\ surface c'
       = surface c ++ (Rect 0 0 (Frame.width p) (Frame.height p), st) :: rest
    /\ fillStyle st = Color (background (PALETTES (Frame.colorTheme p)))
    /\ stack c' = stack c.
Proof.
  intros Hok. unfold renderSingleFrame. cbv zeta. do 2 step_bind.
  match goal with
  | |- exists _ _ _, (_ ≫= _) h ?c1 = _ /\ _ =>
      destruct (visualization_returns frequencyData timeDomainData p h c1 Hok)
        as (c2 & more & Hrun & Hs & Hst)
  end.
  rewrite (bind_returned _ _ _ _ _ _ Hrun). clear Hrun.
  destruct c as [st0 pth stk srf].
  cbn [surface stack state paint with_state] in Hs, Hst.
  destruct (Frame.centerImage p) as [img|].
  - destruct (drawImageCore_spec img (Some frequencyData) (Frame.width p) (Frame.height p)
                (overlayProps p) true h c2) as (dx & dy & pth' & st' & Himg & _).
    rewrite Himg, Hs, Hst. eexists _, _, _. split; [reflexivity |].
    cbn [surface stack]. rewrite <- !app_assoc. cbn [app]. repeat split.
  - exists c2. rewrite Hs, Hst. eexists _, _. split; [reflexivity |].
    rewrite <- app_assoc. cbn [app]. repeat split.
Qed.

(** X5.  A frame of linear bars over an empty frequency array
    throws a [TypeError]: the loop runs for one bar and reads a
    sample that is not there.  Only the background has been painted
    by then, and the stack of saved states is that of the caller. *)
Theorem linear_bars_throw_on_empty_data timeDomainData p h c :
  Frame.visualizationType p = LINEAR -> Frame.linearGraphStyle p = bars ->
  exists c' st,
    renderSingleFrame [] timeDomainData p h c = Threw "TypeError" c'
    /\ surface c' = surface c ++ [(Rect 0 0 (Frame.width p) (Frame.height p), st)]
    /\ stack c' = stack c.
Proof.
  intros Hv Hg. unfold renderSingleFrame. rewrite Hv, Hg. cbv zeta. do 2 step_bind.
  destruct c as [st0 pth stk srf]. eexists _, _. split; [reflexivity |].
  split; reflexivity.
Qed.

Lemma drawImageCore_placement img audioData canvasW canvasH p react h c :
  exists dx dy dWidth dHeight st c',
    drawImageCore img audioData canvasW canvasH p react h c = Returned tt c'
    /\ surface c' = surface c ++ [(Blit img dx dy dWidth dHeight, st)]
    /\ (dWidth, dHeight) = displayedSize img audioData canvasW canvasH p react
    /\ if react && Overlay.enableSwing p && JS.gtb (Overlay.imageSwingIntensity p) 0
       then
         transform st
         = transform (state c)
           ++ [Translate (canvasW / 2) (canvasH / 2);
               Rotate (Math_sin h (Overlay.currentTime p * 0.5)
                       * (Overlay.imageSwingIntensity p * Math_PI h / 180))]
         /\ dx + dWidth / 2 == 0 /\ dy + dHeight / 2 == 0
       else
         transform st = transform (state c)
         /\ dx + dWidth / 2 == canvasW / 2 /\ dy + dHeight / 2 == canvasH / 2.
Proof.
  unfold drawImageCore.
  destruct (displayedSize img audioData canvasW canvasH p react) as [dW dH] eqn:Hsz.
  destruct c as [st pth stk srf]. destruct st as [fs ss lw ga tr cl].
  destruct (react && Overlay.enableSwing p && JS.gtb (Overlay.imageSwingIntensity p) 0) eqn:Hsw;
  destruct (JS.gtb (Overlay.imageCornerRadius p) 0 && JS.gtb dW 0 && JS.gtb dH 0) eqn:Hcr.
  all: try (apply andb_true_iff in Hcr as [Hcr HH]; apply andb_true_iff in Hcr as [Hr HW];
            apply gtb_iff in Hr, HW, HH;
            pose proof (cornerRadius_nonneg dW dH _ Hr HW HH) as Hnn;
            apply ltb_false_iff in Hnn).
  all: unfold arcTo; try rewrite Hnn.
  all: run_canvas.
  all: do 6 eexists; split; [reflexivity |]; split; [reflexivity |].
  all: split; [reflexivity |].
  all: cbn [transform]; split; [rewrite <- ?app_assoc; reflexivity |]; split; field.
Qed.



(** X1.  With a palette of at least three gradient colors and a
    sample for every bar, [drawLinearBarsCore] returns without an
    exception after painting exactly
    [max 1 (floor (0.75 * bufferLen))] rectangles on top of what was
    painted before.  Every rectangle is at least one pixel wide,
    stands on the bottom edge of the canvas and is painted with an
    opacity between 0.2 and 1.  The opacity of the context is back
    at 1; the stack of saved states and the current path are those
    of the caller. *)
Theorem linear_bars_painted audioData bufferLen canvasW canvasH palette scale h c :
  (3 <= length (barGradient palette))%nat ->
  (effectiveNumBars bufferLen <= length audioData)%nat ->
  exists c' barsPainted,
    drawLinearBarsCore audioData bufferLen canvasW canvasH palette scale h c = Returned tt c'
    /\ surface c' = surface c ++ barsPainted
    /\ length barsPainted = effectiveNumBars bufferLen
    /\ Forall (isLinearBar canvasH) barsPainted
    /\ globalAlpha (state c') == 1
    /\ stack c' = stack c /\ path c' = path c.
Proof. apply linear_bars_spec. Qed.

Lemma linear_bars_painted_witness :
  exists c' barsPainted,
    drawLinearBarsCore [Byte.xff; Byte.x80; Byte.x00; Byte.x10] 4 640 360 (PALETTES sky) 1
      (sampleHost 0) blank = Returned tt c'
    /\ surface c' = surface blank ++ barsPainted
    /\ length barsPainted = effectiveNumBars 4
    /\ Forall (isLinearBar 360) barsPainted
    /\ globalAlpha (state c') == 1
    /\ stack c' = stack blank /\ path c' = path blank.
Proof.
  apply (linear_bars_painted [Byte.xff; Byte.x80; Byte.x00; Byte.x10] 4 640 360
           (PALETTES sky) 1 (sampleHost 0) blank); vm_compute; lia.
Defined.




(** X4.  Unless it is asked for linear bars over an empty frequency
    array, [renderSingleFrame] returns without an exception.  What
    it paints begins with the rectangle of the whole frame in the
    background color of the theme, and the stack of saved states is
    that of the caller. *)
Theorem frame_returns_with_background frequencyData timeDomainData p h c :
  ~ (Frame.visualizationType p = LINEAR /\ Frame.linearGraphStyle p = bars
     /\ frequencyData = []) ->
  exists c' st rest,
    renderSingleFrame frequencyData timeDomainData p h c = Returned tt c'
    /\ surface c'
       = surface c ++ (Rect 0 0 (Frame.width p) (Frame.height p), st) :: rest
    /\ fillStyle st = Color (background (PALETTES (Frame.colorTheme p)))
    /\ stack c' = stack c.
Proof. apply renderSingleFrame_returns. Qed.

Lemma frame_returns_with_background_witness :
  exists c' st rest,
    renderSingleFrame [Byte.xff; Byte.x80] [] barsFrame (sampleHost 0) blank = Returned tt c'
    /\ surface c' = surface blank ++ (Rect 0 0 640 360, st) :: rest
    /\ fillStyle st = Color (background (PALETTES sky))
    /\ stack c' = stack blank.
Proof.
  apply (frame_returns_with_background [Byte.xff; Byte.x80] [] barsFrame (sampleHost 0) blank).
  intros (_ & _ & H). discriminate H.
Defined.

Lemma linear_bars_throw_on_empty_data_witness :
  exists c' st,
    renderSingleFrame [] [Byte.x80] barsFrame (sampleHost 0) blank = Threw "TypeError" c'
    /\ surface c' = surface blank ++ [(Rect 0 0 640 360, st)]
    /\ stack c' = stack blank.
Proof.
  apply (linear_bars_throw_on_empty_data [Byte.x80] barsFrame (sampleHost 0) blank);
    reflexivity.
Defined.



(** X8.  [drawImageCore] draws the image centred.  When the swing is
    active, the origin is moved to the centre of the canvas and
    rotated by [sin (currentTime * 0.5)] times the swing intensity in
    degrees, and the centre of the image is the origin.  Otherwise
    the transform is that of the caller and the centre of the image
    is the centre of the canvas. *)
Theorem overlay_centred img audioData canvasW canvasH p react h c :
  exists dx dy dWidth dHeight st c',
    drawImageCore img audioData canvasW canvasH p react h c = Returned tt c'
    /\ surface c' = surface c ++ [(Blit img dx dy dWidth dHeight, st)]
    /\ if react && Overlay.enableSwing p && JS.gtb (Overlay.imageSwingIntensity p) 0
       then
         transform st
         = transform (state c)
           ++ [Translate (canvasW / 2) (canvasH / 2);
               Rotate (Math_sin h (Overlay.currentTime p * 0.5)
                       * (Overlay.imageSwingIntensity p * Math_PI h / 180))]
         /\ dx + dWidth / 2 == 0 /\ dy + dHeight / 2 == 0
       else
         transform st = transform (state c)
         /\ dx + dWidth / 2 == canvasW / 2 /\ dy + dHeight / 2 == canvasH / 2.
Proof.
  destruct (drawImageCore_placement img audioData canvasW canvasH p react h c)
    as (dx & dy & dW & dH & st & c' & Hrun & Hs & _ & Ht).
  exists dx, dy, dW, dH, st, c'. auto.
Qed.
End RendererExtras.

(** * Further properties of the export orchestrator *)

Section OrchestratorExtras.
Import Types Orchestrator Summary Scenario.
Local Open Scope Q_scope.

(** *** The cleanup *)

Lemma closedContext_twice a ctxs :
  closedContext a (closedContext a ctxs) = closedContext a ctxs.
Proof.
  unfold closedContext. destruct a as [i|]; [| reflexivity].
  destruct (ctxs !! i) as [st|] eqn:Hi; [| rewrite Hi; reflexivity].
  destruct (decide (st = closed)) as [-> | Hne].
  - rewrite Hi. rewrite decide_True by reflexivity. reflexivity.
  - rewrite lookup_insert_eq. rewrite decide_True by reflexivity. reflexivity.
Qed.

(** X9.  [cleanupExportResources] is idempotent on what the export
    holds: after one call every reference is released and the
    export flag is off, and a second call changes neither the
    references nor the audio contexts, object URLs, recorder and
    pending frames.  The cleanup touches neither the downloads
    offered, nor the files of the transcoder, nor the error and the
    progress shown. *)
Theorem cleanup_is_idempotent c a status c' status' s :
  let s1 := cleanupExportResources c a status s in
  let s2 := cleanupExportResources c' a status' s1 in
  refs s1 = idleRefs /\ isExporting (ui s1) = false
  /\ refs s2 = refs s1 /\ world s2 = world s1
  /\ isExporting (ui s2) = false
  /\ error (ui s2) = error (ui s) /\ exportProgress (ui s2) = exportProgress (ui s)
  /\ downloads (world s1) = downloads (world s)
  /\ ffmpegFS (world s1) = ffmpegFS (world s)
  /\ progressLog s2 = progressLog s
  /\ cleanupCalls s2 = S (S (cleanupCalls s)).
Proof.
  intros s1 s2. subst s1 s2. rewrite !cleanup_cleaned.
  repeat split.
  cbn. destruct (world s) as [rec ctxs urls pf pp fl fs dl nid ses rc].
  cbn. rewrite closedContext_twice. reflexivity.
Qed.

(** *** Recorded chunks *)

(** X10.  While the recorder records with its data handler
    installed, a series of [dataavailable] events appends the chunks
    that are not empty to [recordedChunksRef], in the order of their
    arrival; empty chunks are dropped, and the recorder is left as it
    is. *)
Theorem chunks_accumulate_in_order h (datas : list Blob) :
  forall s m,
    recorder (world s) = Some m -> rstate m = recording -> ondataavailable m = true ->
    let s' := run h s (RecorderData <$> datas) in
    recordedChunksRef (refs s')
    = recordedChunksRef (refs s) ++ filter (fun d => (0 < length d)%nat) datas
    /\ recorder (world s') = Some m.
Proof.
  induction datas as [|d datas IH]; intros s m Hm Hrs Hod.
  - cbn. rewrite app_nil_r. auto.
  - cbn [fmap list_fmap run foldl].
    assert (Hstep : recorder (world (step h s (RecorderData d))) = Some m
                    /\ recordedChunksRef (refs (step h s (RecorderData d)))
                       = recordedChunksRef (refs s)
                         ++ (if bool_decide (0 < length d)%nat then [d] else [])).
    { cbn [step]. rewrite Hm, Hrs, Hod.
      rewrite (bool_decide_eq_true_2 (recording = recording) eq_refl). cbn [orb andb].
      unfold recorder_ondataavailable. case_bool_decide; cbn; rewrite ?app_nil_r; auto. }
    destruct Hstep as [Hm' Hc'].
    destruct (IH _ m Hm' Hrs Hod) as [Hchunks Hrec].
    fold (run h (step h s (RecorderData d)) (RecorderData <$> datas)).
    cbv zeta in Hchunks, Hrec. rewrite Hchunks, Hrec, Hc'. split; [| reflexivity].
    rewrite filter_cons. rewrite <- app_assoc. f_equal.
    case_bool_decide; [rewrite decide_True by assumption | rewrite decide_False by assumption];
      reflexivity.
Qed.

(** *** Clicks that do not start an export *)

(** X11.  A click on the start button with an export type chosen
    but no audio file, or for MP4 without the transcoder loaded, sets
    the error that says so and nothing else: no reference, no audio
    context, object URL, recorder or frame request is created, the
    progress is not reset, the cleanup is not called and no export is
    marked as running. *)
Theorem click_without_means_allocates_nothing h env s t :
  exportType (exportSettings (config s)) = Some t ->
  isExporting (ui s) = false ->
  audioFile (config s) = None \/ (t = mp4 /\ isFFmpegLoaded (config s) = false) ->
  let s' := step h s (ClickStartExport env) in
  refs s' = refs s /\ world s' = world s /\ config s' = config s
  /\ cleanupCalls s' = cleanupCalls s /\ progressLog s' = progressLog s
  /\ isExporting (ui s') = false
  /\ exportProgress (ui s') = exportProgress (ui s)
  /\ error (ui s')
     = Some (text (if bool_decide (audioFile (config s) = None)
                   then "Audio file needed for export."
                   else "MP4 export tools (FFmpeg) not ready. Try WebM or refresh.")).
Proof.
  intros Ht Hidle Hwhy s'. subst s'. cbn [step]. unfold startActualExport.
  change (seen_config (snapshot s)) with (config s). rewrite Ht.
  unfold handleExport, commonExportSetup.
  change (seen_config (snapshot s)) with (config s).
  change (seen_ui (snapshot s)) with (ui s).
  rewrite Hidle, orb_false_r.
  case_bool_decide as Hfile.
  - lazy beta iota zeta. repeat split; first [reflexivity | assumption].
  - destruct Hwhy as [Hnone | [-> Htools]]; [contradiction |].
    rewrite Htools. rewrite (bool_decide_eq_true_2 (mp4 = mp4) eq_refl).
    cbn [negb andb]. lazy beta iota zeta. repeat split; first [reflexivity | assumption].
Qed.

(** *** The name of the file offered *)

Lemma split_head_prefix c s : exists rest, s = split_head c s +:+ rest.
Proof.
  induction s as [|a s [rest IH]]; cbn [split_head].
  - exists "". reflexivity.
  - destruct (Ascii.eqb a c).
    + exists (String a s). reflexivity.
    + exists rest. change (String a s = String a (split_head c s +:+ rest)).
      f_equal. exact IH.
Qed.

Lemma split_head_clean c s : ~ In c (String.list_ascii_of_string (split_head c s)).
Proof.
  induction s as [|a s IH]; cbn [split_head]; [intros [] |].
  destruct (Ascii.eqb a c) eqn:Hac; [intros [] |].
  cbn. intros [-> | Hin]; [| contradiction].
  rewrite Ascii.eqb_refl in Hac. discriminate.
Qed.

Lemma split_head_whole c s : ~ In c (String.list_ascii_of_string s) -> split_head c s = s.
Proof.
  induction s as [|a s IH]; cbn [split_head]; [reflexivity |].
  cbn. intros Hnot. destruct (Ascii.eqb a c) eqn:Hac.
  - apply Ascii.eqb_eq in Hac. tauto.
  - rewrite IH; [reflexivity | tauto].
Qed.

(** X12.  The name under which an export is offered is
    [<base>_<width>x<height>_<fps>fps.<ext>], where [base] is the name
    of the audio file up to its first dot: it contains no dot, it is
    a prefix of the file name, and it is the whole name when that
    has no dot. *)
Theorem download_name_from_audio_file c x ext f :
  audioFile (seen_config c) = Some f ->
  exists base,
    downloadName c x ext
    = Some [Str base; Str "_"; Num (exportWidth x); Str "x"; Num (exportHeight x);
            Str "_"; Int (exportFPS x); Str "fps."; Str ext]
    /\ ~ In "."%char (String.list_ascii_of_string base)
    /\ (exists rest, fileName f = base +:+ rest)
    /\ (~ In "."%char (String.list_ascii_of_string (fileName f)) -> base = fileName f).
Proof.
  intros Hf. exists (split_head "." (fileName f)). unfold downloadName. rewrite Hf.
  split; [reflexivity |]. split; [apply split_head_clean |].
  split; [apply split_head_prefix | apply split_head_whole].
Qed.

(** *** The progress written by a frame *)

(** X13.  The progress that a frame of the capture writes, for a
    playback time between 0 and the duration of the audio: it is
    not negative, it does not decrease when the playback time
    grows, it is at most 100, and at most 50 for an MP4 export
    (whose second half belongs to the transcoder). *)
Theorem capture_progress_value k t1 t2 d :
  0 < d -> 0 <= t1 -> t1 <= t2 -> t2 < d ->
  (0 <= progressAt k t1 d <= progressAt k t2 d)%Z
  /\ (progressAt k t2 d <= 100)%Z
  /\ (k = mp4 -> progressAt k t2 d <= 50)%Z.
Proof.
  intros Hd H1 H12 H2.
  destruct (progressAt_range k t1 d H1 Hd) as [Hlo _].
  destruct (progressAt_range k t2 d ltac:(lra) Hd) as [_ Hhi].
  assert (Hmono : (progressAt k t1 d <= progressAt k t2 d)%Z)
    by (apply progressAt_mono; assumption).
  repeat split; auto. apply progressAt_mp4_le.
Qed.

(** *** Events of the transcoder *)

(** X14.  The [log] and [progress] events of the transcoder change
    neither the references, nor the resources of an export, nor the
    settings, nor the export flag, nor the progress shown: the
    [progress] handler reads the export type of the initial settings,
    which has no type, so that it never writes the progress. *)
Theorem transcoder_events_touch_display_only h s e :
  (exists m, e = FFmpegLog m) \/ (exists p t, e = FFmpegProgress p t) ->
  let s' := step h s e in
  refs s' = refs s /\ world s' = world s /\ config s' = config s
  /\ progressLog s' = progressLog s /\ cleanupCalls s' = cleanupCalls s
  /\ isExporting (ui s') = isExporting (ui s)
  /\ exportProgress (ui s') = exportProgress (ui s).
Proof.
  intros [[m ->] | (p & t & ->)]; cbn [step].
  - unfold ffmpeg_onlog. destruct (_ || _); repeat split.
  - repeat split.
Qed.

(** *** Failures while the audio loads *)

#[local] Opaque tryRender progressAt JS.gtb JS.geb JS.ltb Qle_bool JS.Math_floor
  JS.Math_round split_head String.index String.substring mimeTypeCandidates
  isTypeSupported cleanupExportResources.

Ltac open_state s :=
  let u := fresh "u" in let c := fresh "c" in let r := fresh "r" in
  let w := fresh "w" in let n := fresh "n" in let l := fresh "l" in
  destruct s as [u c r w n l]; destruct u, r, w;
  cbn [ui config refs world cleanupCalls progressLog
       isExporting exportProgress exportStatusMessage error currentExportFrame
       totalExportFrames
       exportAudioRef exportAnalyserNodeRef exportRenderCanvasRef
       exportAnimationRequestRef mediaRecorderRef recordedChunksRef
       recorder audioContexts objectURLs pendingFrames playPending ffmpeg_loaded
       ffmpegFS downloads nextId session renderCtx] in *.

Ltac run_state s :=
  eval lazy beta iota zeta delta
    -[cleanupExportResources cleaned progressAt tryRender
      insert lookup delete union difference singleton empty filter
      Qplus Qmult Qdiv Qminus Qopp Qinv inject_Z Z.add Z.rem Z.min Z.leb app concat length] in s.

Ltac run_in H :=
  match type of H with
  | ?l = ?r => let r' := run_state r in change (l = r') in H
  end.

Ltac projections :=
  cbn [ui config refs world cleanupCalls progressLog
       isExporting exportProgress exportStatusMessage error currentExportFrame
       totalExportFrames
       exportAudioRef exportAnalyserNodeRef exportRenderCanvasRef
       exportAnimationRequestRef mediaRecorderRef recordedChunksRef
       recorder audioContexts objectURLs pendingFrames playPending ffmpeg_loaded
       ffmpegFS downloads nextId session renderCtx
       rstate stopQueued startQueued onstart onstop ondataavailable onerror
       src audioTime loading onloadedmetadata audio_onerror
       kind audioFullDuration seen exportAudioContext] in *.

Ltac open_loading H :=
  destruct H as [Lexp Lcalls Laudio [Lload Lmeta] Lurls Lanalyser [cv Lcanvas] Lref Lreq Lrecm
                   [Lstop Ldata] (Lrs & Lsq & Lstq) Lsession Lfile Lcontext Lframes Lplay].

(** The cleanup of an export that holds an idle recorder. *)
Lemma exited_cleaned_idle c a st s el m :
  cleanupCalls s = 0%nat -> pendingFrames (world s) = [] ->
  exportAudioRef (refs s) = Some el -> objectURLs (world s) ⊆ {[src el]} ->
  audioContexts (world s) = {[a := running]} ->
  mediaRecorderRef (refs s) = true -> recorder (world s) = Some m ->
  rstate m = inactive -> stopQueued m = false ->
  Exited (cleaned c (Some a) st s).
Proof.
  intros Hcalls Hp Haudio Hurls Hcontext Hrefm Hrecm Hrs Hsq.
  unfold Exited. cbn. rewrite Hcalls, Hp.
  split; [reflexivity |]. split; [reflexivity |]. split.
  - constructor; cbn; rewrite ?Haudio, ?Hrefm, ?Hrecm, ?Hcontext.
    + reflexivity.
    + set_solver.
    + rewrite lookup_singleton_eq. cbn. rewrite insert_singleton_eq.
      apply map_Forall_singleton. reflexivity.
    + cbn. intros m0 [= <-]. unfold detach. cbn. rewrite Hrs. cbn. auto 10.
  - destruct (exportAnimationRequestRef (refs s)); reflexivity.
Qed.

(** X15.  When the metadata of the export audio give no valid
    duration ([NaN], zero or negative), the export ends there: the
    error says that the duration is invalid, the cleanup has run
    once, every resource of the export is released and no frame is
    pending.  The recorder is never started. *)
Theorem invalid_duration_ends_export h s el m x duration startThrows :
  Loading s el m x ->
  duration = None \/ (exists d, duration = Some d /\ d <= 0) ->
  Exited (step h s (AudioLoadedMetadata duration startThrows))
  /\ error (ui (step h s (AudioLoadedMetadata duration startThrows)))
     = Some (text "Failed to get valid audio duration for export.").
Proof.
  intros H Hbad. open_loading H.
  open_state s. subst.
  destruct el as [src0 t0 ld olm oer], m as [rs mt vb os op od oe sq pq],
    x as [sn k ew eh ef ea dd].
  projections. subst.
  remember (step h _ _) as s1 eqn:Hs1.
  cbn [step] in Hs1. projections. cbn [andb] in Hs1.
  unfold audio_onloadedmetadata in Hs1. lazy zeta in Hs1.
  destruct Hbad as [-> | (d & -> & Hd)].
  - run_in Hs1. subst s1. rewrite cleanup_cleaned. split; [| reflexivity].
    eapply exited_cleaned_idle; projections; try reflexivity. set_solver.
  - apply Qle_bool_iff in Hd.
    change (default 0 (Some d)) with d in Hs1. rewrite Hd, orb_true_r in Hs1.
    run_in Hs1. subst s1. rewrite cleanup_cleaned. split; [| reflexivity].
    eapply exited_cleaned_idle; projections; try reflexivity. set_solver.
Qed.

(** X16.  When the export audio fails to load, the error handler of
    the audio element ends the export: the error says so, the
    cleanup has run once, every resource is released and no frame is
    pending. *)
Theorem audio_error_ends_export h s el m x :
  Loading s el m x -> audio_onerror el = true ->
  Exited (step h s AudioError)
  /\ error (ui (step h s AudioError))
     = Some (text "Error with export audio element. Cannot load for export.").
Proof.
  intros H Herr. open_loading H.
  open_state s. subst.
  destruct el as [src0 t0 ld olm oer], m as [rs mt vb os op od oe sq pq],
    x as [sn k ew eh ef ea dd].
  projections. subst.
  remember (step h _ _) as s1 eqn:Hs1.
  cbn [step] in Hs1. projections. cbn [andb] in Hs1.
  unfold audio_onerror_handler in Hs1. lazy zeta in Hs1.
  rewrite cancel_after_cleanup in Hs1.
  run_in Hs1. subst s1. rewrite cleanup_cleaned. split; [| reflexivity].
  eapply exited_cleaned_idle; projections; try reflexivity. set_solver.
Qed.

(** *** What the setup configures *)

(** X17.  A click that passes the checks of the setup creates the
    recorder with the first type of the candidate list that the
    browser supports and with 8 Mbit/s for MP4 and 12 Mbit/s for
    WebM; the session takes its type, the size of its canvas and its
    frame rate from the export settings, and the progress is reset
    to 0. *)
Theorem recorder_configured_from_settings h c env t mime :
  startable c env t ->
  find (isTypeSupported env) mimeTypeCandidates = Some mime ->
  exists el m x,
    Loading (step h (idle c) (ClickStartExport env)) el m x
    /\ mimeType m = mime
    /\ videoBitsPerSecond m = (match t with mp4 => 8000000 | webm => 12000000 end)%Z
    /\ kind x = t
    /\ exportWidth x = targetWidth (exportSettings c)
    /\ exportHeight x = targetHeight (exportSettings c)
    /\ exportFPS x = fps (exportSettings c)
    /\ progressLog (step h (idle c) (ClickStartExport env)) = [0%Z].
Proof.
  intros [[f Hf] Ht Htools Hcanvas Hctx] Hmime.
  destruct c as [af fl [res fp et tw th] vt lg ct im isc pi icr isi ep es vd].
  cbn in Hf, Ht, Htools. subst af et.
  remember (step h _ _) as s eqn:Hs.
  cbn [step] in Hs. unfold startActualExport, handleExport, commonExportSetup in Hs.
  rewrite Hcanvas, Hmime in Hs.
  destruct (contextSuspended env) eqn:Hsus; [rewrite (Hctx eq_refl) in Hs |].
  all: destruct t; [| rewrite (Htools eq_refl) in Hs].
  all: run_in Hs; subst s.
  all: match goal with
       | |- context [Build_Refs (Some ?el) _ _ _ _ _] => exists el
       end.
  all: match goal with
       | |- context [Build_World (Some ?m) _ _ _ _ _ _ _ _ (Some ?x) _] => exists m, x
       end.
  all: split; [constructor |]; projections; auto.
  all: first [set_solver | reflexivity | eauto | repeat split].
Qed.

(** *** Frames of the export *)

Lemma play_rejected_stops h s el m x d e :
  Loading s el m x -> 0 < d ->
  let s' := run h s [AudioLoadedMetadata (Some d) None; RecorderStart; PlayRejected e] in
  Stopping s'
  /\ error (ui s') = Some [Str "Failed to start audio for export: "; Str e]
  /\ recordedChunksRef (refs s') = recordedChunksRef (refs s).
Proof.
  intros H Hd. open_loading H.
  assert (Hd0 : Qle_bool d 0 = false).
  { apply not_true_iff_false. rewrite Qle_bool_iff. lra. }
  open_state s. subst.
  destruct el as [src0 t0 ld olm oer], m as [rs mt vb os op od oe sq pq],
    x as [sn k ew eh ef ea dd].
  projections. subst.
  unfold run. cbn [foldl].
  remember (step h _ (AudioLoadedMetadata _ _)) as s1 eqn:Hs1.
  cbn [step] in Hs1. projections. cbn [andb] in Hs1.
  unfold audio_onloadedmetadata in Hs1. lazy zeta in Hs1.
  change (default 0 (Some d)) with d in Hs1. rewrite Hd0 in Hs1.
  run_in Hs1. subst s1.
  remember (step h _ RecorderStart) as s2 eqn:Hs2.
  run_in Hs2. subst s2.
  remember (step h _ (PlayRejected e)) as s3 eqn:Hs3.
  run_in Hs3. subst s3.
  split; [| split; reflexivity].
  eexists _, _, _. split; [constructor |]; projections; eauto.
Qed.

(** X18.  When the browser refuses to play the export audio after
    the recorder has started, the error tells the reason, the
    recorder is stopped and no frame is requested; the [stop] event
    of the recorder then ends the export through one call of the
    cleanup, with every resource released. *)
Theorem rejected_playback_ends_export h s el m x d e ff :
  Loading s el m x -> 0 < d ->
  let s' := run h s [AudioLoadedMetadata (Some d) None; RecorderStart; PlayRejected e] in
  Stopping s'
  /\ error (ui s') = Some [Str "Failed to start audio for export: "; Str e]
  /\ Exited (step h s' (RecorderStop ff)).
Proof.
  intros H Hd s'. destruct (play_rejected_stops h s el m x d e H Hd) as (Hs & He & _).
  split; [exact Hs |]. split; [exact He |]. apply stop_exits. exact Hs.
Qed.

Lemma fillArray_length n data : length (fillArray n data) = n.
Proof.
  unfold fillArray. rewrite length_take, length_app, length_replicate. lia.
Qed.

#[local] Transparent tryRender.

(** X19.  A frame of the export never fails in the drawing routines
    themselves: the analyser arrays have their fixed, non-zero
    lengths, so that [renderSingleFrame] returns for every setting
    of the visualizer.  The [catch] of [renderFn] is reached by an
    exception of the host only. *)
Theorem export_frame_never_throws h x t analysed sampled ctx :
  exists ctx', tryRender h x t analysed sampled None ctx = (None, ctx').
Proof.
  unfold tryRender.
  destruct (renderSingleFrame_returns (fillArray frequencyBinCount analysed)
              (fillArray fftSize sampled)
              (visualizerProps (seen_config (seen x)) (exportWidth x) (exportHeight x) t)
              h ctx) as (c' & st & rest & Hrun & _).
  - intros (_ & _ & Hnil).
    pose proof (fillArray_length frequencyBinCount analysed) as Hlen.
    rewrite Hnil in Hlen. discriminate.
  - cbv zeta. rewrite Hrun. eauto.
Qed.
End OrchestratorExtras.

(** * Properties of the player, the layout, the settings and the preview *)

Section InterfaceProperties.

Import Types Orchestrator.
Local Open Scope Q_scope.

(** *** formatTime *)











(** *** The size of the visualizer *)

Lemma calculateNonFullscreenSize_spec c f sz :
  Layout.calculateNonFullscreenSize c f = Some sz ->
  0 < Layout.width sz /\ Layout.height sz == Layout.width sz * (9 / 16)
  /\ (forall el, c = Some el -> ~ 0 < Layout.offsetWidth el -> Layout.width sz <= 896).
Proof.
  unfold Layout.calculateNonFullscreenSize.
  destruct c as [el|].
  - destruct (JS.gtb (Layout.offsetWidth el) 0) eqn:Hw.
    + intros [= <-]; cbn. apply gtb_iff in Hw. repeat split; try lra.
      intros el' [= <-] Hn. lra.
    + destruct (Layout.parentElement el) as [pw|].
      * destruct (JS.gtb (JS.Math_min pw 896) 0) eqn:Hp.
        -- intros [= <-]; cbn. apply gtb_iff in Hp. repeat split; try lra.
           intros _ _ _. apply Q.le_min_r.
        -- intros [= <-]; cbn. repeat split; try reflexivity. intros; discriminate.
      * intros [= <-]; cbn. repeat split; try reflexivity. intros; discriminate.
  - destruct f; [discriminate|]. intros [= <-]; cbn.
    repeat split; try reflexivity. intros; discriminate.
Qed.

Lemma windowed_size_is_16_9_core c window f sz :
  is_Some c \/ f = false ->
  let sz' := snd (Layout.handleResizeOrFullscreenChange c Layout.NoElement window f sz) in
  0 < Layout.width sz' /\ Layout.height sz' == Layout.width sz' * (9 / 16)
  /\ (forall el, c = Some el -> ~ 0 < Layout.offsetWidth el -> Layout.width sz' <= 896).
Proof.
  intros Hc. cbn.
  destruct (Layout.calculateNonFullscreenSize c f) as [sz'|] eqn:E.
  - cbn. exact (calculateNonFullscreenSize_spec c f sz' E).
  - exfalso. unfold Layout.calculateNonFullscreenSize in E.
    destruct c as [el|].
    + destruct (JS.gtb _ _); [discriminate|].
      destruct (Layout.parentElement el); [|discriminate].
      destruct (JS.gtb _ _); discriminate.
    + destruct Hc as [[? [=]]| ->]. discriminate.
Qed.

(** X21.  Outside the fullscreen mode, a resize gives the visualizer
    a positive width and 9/16 of it as height, provided that the
    container is mounted or the fullscreen flag is off.  When the
    container itself has no positive width, the width is at most
    896. *)
Theorem windowed_size_is_16_9 c window f sz :
  is_Some c \/ f = false ->
  let sz' := snd (Layout.handleResizeOrFullscreenChange c Layout.NoElement window f sz) in
  0 < Layout.width sz' /\ Layout.height sz' == Layout.width sz' * (9 / 16)
  /\ (forall el, c = Some el -> ~ 0 < Layout.offsetWidth el -> Layout.width sz' <= 896).
Proof. exact (windowed_size_is_16_9_core c window f sz). Qed.

(** *** The export settings dialog *)

Lemma preset_current : Settings.presetSize (Settings.preset "current") = None.
Proof. reflexivity. Qed.

Lemma open_targetOfPreset type size s :
  Settings.targetOfPreset (Settings.handleOpenExportSettings type size s s).
Proof.
  unfold Settings.targetOfPreset, Settings.handleOpenExportSettings.
  destruct (String.eqb (resolution s) "current") eqn:E.
  - apply String.eqb_eq in E. intros w h Hp. cbn [resolution] in Hp.
    rewrite E in Hp. discriminate Hp.
  - destruct (Settings.presetSize (Settings.preset (resolution s))) as [[w0 h0]|] eqn:P;
      intros w h Hp; cbn [resolution] in Hp; rewrite P in Hp; [|discriminate Hp].
    injection Hp as <- <-. split; reflexivity.
Qed.

Lemma pick_targetOfPreset key size s :
  Settings.targetOfPreset (Settings.handleExportSettingChange (Settings.Resolution key) size s).
Proof.
  unfold Settings.targetOfPreset, Settings.handleExportSettingChange.
  destruct (String.eqb key "current") eqn:E.
  - apply String.eqb_eq in E. subst key. intros w h Hp. discriminate Hp.
  - destruct (Settings.presetSize (Settings.preset key)) as [[w0 h0]|] eqn:P;
      intros w h Hp; cbn [resolution Settings.with_target] in Hp; rewrite P in Hp;
      [|discriminate Hp].
    injection Hp as <- <-. split; reflexivity.
Qed.

Lemma act_targetOfPreset s a :
  Settings.targetOfPreset s -> Settings.targetOfPreset (Settings.act s a).
Proof.
  intros Hs. destruct a as [[type|key|value] size]; cbn [Settings.act].
  - apply open_targetOfPreset.
  - apply pick_targetOfPreset.
  - exact Hs.
Qed.

Lemma acts_targetOfPreset actions : forall s,
  Settings.targetOfPreset s -> Settings.targetOfPreset (foldl Settings.act s actions).
Proof.
  induction actions as [|a actions IH]; intros s Hs; [exact Hs|].
  cbn [foldl]. apply IH, act_targetOfPreset, Hs.
Qed.

Lemma open_exportType type size e prev :
  exportType (Settings.handleOpenExportSettings type size e prev) = Some type.
Proof.
  unfold Settings.handleOpenExportSettings.
  destruct (String.eqb (resolution e) "current"); [reflexivity|].
  destruct (Settings.presetSize (Settings.preset (resolution e))) as [[? ?]|]; reflexivity.
Qed.

Lemma pick_exportType key size prev :
  exportType (Settings.handleExportSettingChange (Settings.Resolution key) size prev)
  = exportType prev.
Proof.
  unfold Settings.handleExportSettingChange.
  destruct (String.eqb key "current"); [reflexivity|].
  destruct (Settings.presetSize (Settings.preset key)) as [[? ?]|]; reflexivity.
Qed.

Lemma acts_exportType actions : forall s,
  is_Some (exportType s) -> is_Some (exportType (foldl Settings.act s actions)).
Proof.
  induction actions as [|a actions IH]; intros s Hs; [exact Hs|].
  cbn [foldl]. apply IH. destruct a as [[type|key|value] size]; cbn [Settings.act].
  - rewrite open_exportType. eexists; reflexivity.
  - rewrite pick_exportType. exact Hs.
  - exact Hs.
Qed.

(** X22.  Once the export dialog has been opened, whatever
    resolutions and frame rates are picked and however often the
    dialog is reopened, an export type is set and the target size of
    the settings is the size of the preset selected, whenever the
    selected resolution names a preset with a size. *)
Theorem dialog_target_is_selected_preset s type size actions :
  let s' := foldl Settings.act s ((Settings.OpenDialog type, size) :: actions) in
  is_Some (exportType s')
  /\ forall w h,
       Settings.presetSize (Settings.preset (resolution s')) = Some (w, h) ->
       targetWidth s' = w /\ targetHeight s' = h.
Proof.
  cbn [foldl]. split.
  - apply acts_exportType. cbn [Settings.act]. rewrite open_exportType. eexists; reflexivity.
  - apply acts_targetOfPreset, open_targetOfPreset.
Qed.

(** X23.  Selecting the resolution [current] after a resize outside
    the fullscreen mode gives the export a target of positive width
    and 9/16 of it as height. *)
Theorem current_resolution_after_resize c window f sz prev :
  is_Some c \/ f = false ->
  let size := snd (Layout.handleResizeOrFullscreenChange c Layout.NoElement window f sz) in
  let s' := Settings.handleExportSettingChange (Settings.Resolution "current") size prev in
  0 < targetWidth s' /\ targetHeight s' == targetWidth s' * (9 / 16).
Proof.
  intros Hc size s'.
  destruct (windowed_size_is_16_9_core c window f sz Hc) as (Hw & Hh & _).
  exact (conj Hw Hh).
Qed.

(** *** The live preview *)


End InterfaceProperties.

(** * Instances *)

Section Witnesses.
Import Types Orchestrator Summary Scenario Cases.
Local Open Scope Q_scope.

Lemma chunks_accumulate_in_order_witness :
  recordedChunksRef (refs (run host (capturing webm) (RecorderData <$> [chunk2; []; chunk1])))
  = recordedChunksRef (refs (capturing webm)) ++ [chunk2; chunk1].
Proof.
  assert (Hm : is_Some (recorder (world (capturing webm)))) by (vm_compute; eauto).
  destruct Hm as [m Hm].
  assert (Hs : rstate m = recording /\ ondataavailable m = true).
  { vm_compute in Hm. injection Hm as <-. split; reflexivity. }
  destruct (chunks_accumulate_in_order host [chunk2; []; chunk1] (capturing webm) m Hm
              (proj1 Hs) (proj2 Hs)) as [H _].
  exact H.
Defined.

Lemma click_without_means_allocates_nothing_witness :
  refs (step host (idle (noAudio webm)) (ClickStartExport browser)) = idleRefs
  /\ error (ui (step host (idle (noAudio webm)) (ClickStartExport browser)))
     = Some (text "Audio file needed for export.").
Proof.
  destruct (click_without_means_allocates_nothing host browser (idle (noAudio webm)) webm
              eq_refl eq_refl (or_introl eq_refl)) as (Hr & _ & _ & _ & _ & _ & _ & He).
  split; [exact Hr | exact He].
Defined.

Lemma download_name_from_audio_file_witness :
  exists base,
    downloadName {| seen_ui := idleUI; seen_config := song webm |}
      {| kind := webm; seen := {| seen_ui := idleUI; seen_config := song webm |};
         exportAudioContext := 0; exportWidth := 640; exportHeight := 360;
         exportFPS := 30; audioFullDuration := 10 |} "webm"
    = Some [Str base; Str "_"; Num 640; Str "x"; Num 360; Str "_"; Int 30; Str "fps.";
            Str "webm"]
    /\ ~ In "."%char (String.list_ascii_of_string base).
Proof.
  destruct (download_name_from_audio_file {| seen_ui := idleUI; seen_config := song webm |}
      {| kind := webm; seen := {| seen_ui := idleUI; seen_config := song webm |};
         exportAudioContext := 0; exportWidth := 640; exportHeight := 360;
         exportFPS := 30; audioFullDuration := 10 |} "webm" _ eq_refl)
    as (base & Hn & Hb & _).
  exists base. split; [exact Hn | exact Hb].
Defined.

Lemma capture_progress_value_witness :
  (0 <= progressAt mp4 2 10 <= progressAt mp4 5 10)%Z /\ (progressAt mp4 5 10 <= 50)%Z.
Proof.
  destruct (capture_progress_value mp4 2 5 10) as (H1 & _ & H2); try lra.
  split; [exact H1 | exact (H2 eq_refl)].
Defined.

Lemma transcoder_events_touch_display_only_witness :
  refs (step host (capturing mp4) (FFmpegProgress (1 # 2) 5)) = refs (capturing mp4)
  /\ world (step host (capturing mp4) (FFmpegProgress (1 # 2) 5)) = world (capturing mp4)
  /\ exportProgress (ui (step host (capturing mp4) (FFmpegProgress (1 # 2) 5)))
     = exportProgress (ui (capturing mp4)).
Proof.
  destruct (transcoder_events_touch_display_only host (capturing mp4) (FFmpegProgress (1 # 2) 5))
    as (Hr & Hw & _ & _ & _ & _ & Hp).
  - right. eexists _, _. reflexivity.
  - split; [exact Hr |]. split; [exact Hw | exact Hp].
Defined.

Lemma invalid_duration_ends_export_witness :
  Exited (step host (loadingAudio webm) (AudioLoadedMetadata None None))
  /\ error (ui (step host (loadingAudio webm) (AudioLoadedMetadata None None)))
     = Some (text "Failed to get valid audio duration for export.").
Proof.
  destruct browser_records as [mime Hmime].
  destruct (click_loads host (song webm) browser webm mime (song_startable webm) Hmime)
    as (el & m & x & Hl & _).
  exact (invalid_duration_ends_export host (loadingAudio webm) el m x None None Hl
           (or_introl eq_refl)).
Defined.

Lemma audio_error_ends_export_witness :
  Exited (step host (loadingAudio webm) AudioError)
  /\ error (ui (step host (loadingAudio webm) AudioError))
     = Some (text "Error with export audio element. Cannot load for export.").
Proof.
  destruct browser_records as [mime Hmime].
  destruct (click_loads host (song webm) browser webm mime (song_startable webm) Hmime)
    as (el & m & x & Hl & _).
  apply (audio_error_ends_export host (loadingAudio webm) el m x Hl).
  pose proof (loading_audio _ _ _ _ Hl) as Hel.
  vm_compute in Hel. injection Hel as <-. reflexivity.
Defined.

Lemma recorder_configured_from_settings_witness :
  exists el m x,
    Loading (loadingAudio webm) el m x
    /\ mimeType m = "video/webm;codecs=vp8,opus"
    /\ videoBitsPerSecond m = 12000000%Z
    /\ exportWidth x = 640 /\ exportHeight x = 360 /\ exportFPS x = 30%Z.
Proof.
  destruct (recorder_configured_from_settings host (song webm) browser webm
              "video/webm;codecs=vp8,opus" (song_startable webm) eq_refl)
    as (el & m & x & Hl & Hm & Hb & _ & Hw & Hh & Hf & _).
  exists el, m, x. exact (conj Hl (conj Hm (conj Hb (conj Hw (conj Hh Hf))))).
Defined.

Lemma rejected_playback_ends_export_witness :
  let s' := run host (loadingAudio webm)
              [AudioLoadedMetadata (Some 10) None; RecorderStart;
               PlayRejected "NotAllowedError"] in
  Stopping s'
  /\ error (ui s') = Some [Str "Failed to start audio for export: "; Str "NotAllowedError"]
  /\ Exited (step host s' (RecorderStop transcoderWorks)).
Proof.
  destruct browser_records as [mime Hmime].
  destruct (click_loads host (song webm) browser webm mime (song_startable webm) Hmime)
    as (el & m & x & Hl & _).
  apply (rejected_playback_ends_export host (loadingAudio webm) el m x 10 "NotAllowedError"
           transcoderWorks Hl).
  reflexivity.
Defined.

Lemma dialog_target_is_selected_preset_witness :
  let size := {| Layout.width := 640; Layout.height := 360 |} in
  let s' := foldl Settings.act initialExportSettings
              [(Settings.OpenDialog mp4, size); (Settings.PickResolution "1280x720", size);
               (Settings.PickFps 30, size)] in
  exportType s' = Some mp4 /\ targetWidth s' = 1280 /\ targetHeight s' = 720.
Proof.
  intros size s'. split; [reflexivity |].
  destruct (dialog_target_is_selected_preset initialExportSettings mp4 size
              [(Settings.PickResolution "1280x720", size); (Settings.PickFps 30, size)])
    as [_ H].
  apply H. reflexivity.
Defined.

Lemma windowed_size_is_16_9_witness :
  let sz := snd (Layout.handleResizeOrFullscreenChange (Some container) Layout.NoElement
                   window false {| Layout.width := 640; Layout.height := 360 |}) in
  0 < Layout.width sz /\ Layout.height sz == Layout.width sz * (9 / 16).
Proof.
  destruct (windowed_size_is_16_9 (Some container) window false
              {| Layout.width := 640; Layout.height := 360 |}
              (or_intror eq_refl)) as (H1 & H2 & _).
  split; [exact H1 | exact H2].
Defined.

Lemma current_resolution_after_resize_witness :
  let size := snd (Layout.handleResizeOrFullscreenChange (Some container) Layout.NoElement
                     window false {| Layout.width := 640; Layout.height := 360 |}) in
  let s' := Settings.handleExportSettingChange (Settings.Resolution "current") size
              initialExportSettings in
  0 < targetWidth s' /\ targetHeight s' == targetWidth s' * (9 / 16).
Proof.
  apply (current_resolution_after_resize (Some container) window false
           {| Layout.width := 640; Layout.height := 360 |} initialExportSettings).
  right. reflexivity.
Defined.


End Witnesses.
